(** * Time-series graph module: data transforms, alignment and chart configuration

    A shallow embedding of the graph module of the frontend
    ([dataTransform.ts], [TimeSeriesGraph.tsx], [graphConfig.ts], [graphTypes.ts])
    together with the properties its specification states.

    JavaScript numbers are IEEE-754 binary64 values and are modelled by Rocq's
    primitive [float]; [null] is [None].  Strings are [string]s of bytes. *)

From Stdlib Require Import ZArith Lia Bool List String Ascii Floats Uint63 DecimalString.
From stdpp Require Import base option list list_numbers strings gmap sorting.

#[global] Set Warnings "-inexact-float,-register-all,-clear-no-such-hyp".

Open Scope string_scope.
Open Scope list_scope.
Open Scope Z_scope.

(** * The program *)

(** ** Data model ([graphTypes.ts]) *)

(** A JavaScript [Date] object holds a time value: a whole number of
    milliseconds since the epoch, or NaN (an "Invalid Date"), here [None]. *)
Record JSDate := { getTime : option Z }.

Definition InvalidDate : JSDate := {| getTime := None |}.

(** [date: string | Date] *)
Inductive DateField :=
| DateStr (s : string)
| DateObj (d : JSDate).

(** [interface TimeSeriesDataPoint { date: string | Date; value: number | null }] *)
Record TimeSeriesDataPoint := {
  date : DateField;
  value : option float
}.

(** [interface TimeSeriesMetadata]; the open index signature carries values no
    function below reads and is left out. *)
Record TimeSeriesMetadata := {
  units : option string;
  frequency : option string;
  seasonal_adjustment : option string
}.

(** [interface TimeSeriesDataset] *)
Record TimeSeriesDataset := {
  id : string;
  label : string;
  data : list TimeSeriesDataPoint;
  metadata : option TimeSeriesMetadata
}.

(** ** Numbers *)

(** [isNaN(x)] on a number. *)
Definition isNaN (x : float) : bool := PrimFloat.is_nan x.

(** A value that is neither NaN nor an infinity. *)
Definition isFinite (x : float) : bool := PrimFloat.is_finite x.

(** An array index as a number; indices stay far below 2^53, so the
    conversion is exact. *)
Definition ofIndex (n : Z) : float := PrimFloat.of_uint63 (Uint63.of_Z n).

#[global] Arguments ofIndex : simpl never.

(** [value !== null && !isNaN(value)]: the test every transform uses for
    "this point carries an observation". *)
Definition hasValue (v : option float) : bool :=
  match v with
  | Some x => negb (isNaN x)
  | None => false
  end.

(** What the specification calls a missing value: absent, or not finite. *)
Definition absentOrNonFinite (v : option float) : bool :=
  match v with
  | Some x => negb (isFinite x)
  | None => true
  end.

(** ** Missing-value policy ([dataTransform.ts], pure view)

    The functions below work on the sequence of points an array holds; the
    section on the store further down runs the same code on arrays and objects
    with identity. *)

Module Pure.

(** The state of the loop of [interpolateMissingValues]. *)
Record InterpState := {
  result : list TimeSeriesDataPoint;
  lastValidValue : option float;
  lastValidIndex : Z
}.

(** The inner loop, [for (let j = lastValidIndex + 1; j < i; j++)]: the points
    it pushes.  [data[j]] is always in range there ([fillGap_fillRun] below);
    an index outside the array would be skipped. *)
Definition fillGap (data : list TimeSeriesDataPoint)
    (lastValidValue value : float) (lastValidIndex i : Z) : list TimeSeriesDataPoint :=
  let gap := i - lastValidIndex in
  omap (fun j : Z =>
          point ← data !! Z.to_nat j;
          let ratio := (ofIndex (j - lastValidIndex) / ofIndex gap)%float in
          let interpolatedValue :=
            (lastValidValue + (value - lastValidValue) * ratio)%float in
          Some {| date := date point; value := Some interpolatedValue |})
       (seqZ (lastValidIndex + 1) (i - lastValidIndex - 1)).

(** One iteration of the outer loop, at index [i]. *)
Definition interpStep (data : list TimeSeriesDataPoint) (st : InterpState) (i : Z)
    : InterpState :=
  match data !! Z.to_nat i with
  | None => st
  | Some point =>
      let push := {| result := result st ++ [point];
                     lastValidValue := lastValidValue st;
                     lastValidIndex := lastValidIndex st |} in
      match value point with
      | Some v =>
          if negb (isNaN v) then
            let filled :=
              if (0 <=? lastValidIndex st) && (lastValidIndex st <? i - 1) then
                match lastValidValue st with
                | Some lv => fillGap data lv v (lastValidIndex st) i
                | None => []
                end
              else [] in
            {| result := (result st ++ filled) ++ [point];
               lastValidValue := Some v;
               lastValidIndex := i |}
          else push
      | None => push
      end
  end.

Definition interpInit : InterpState :=
  {| result := []; lastValidValue := None; lastValidIndex := -1 |}.

(** [function interpolateMissingValues(data)] *)
Definition interpolateMissingValues (data : list TimeSeriesDataPoint)
    : list TimeSeriesDataPoint :=
  result (fold_left (interpStep data) (seqZ 0 (Z.of_nat (length data))) interpInit).

(** The callback of the ['zero'] case. *)
Definition zeroFill (point : TimeSeriesDataPoint) : TimeSeriesDataPoint :=
  {| date := date point;
     value := match value point with
              | None => Some 0%float
              | Some x => if isNaN x then Some 0%float else Some x
              end |}.

(** [function handleMissingValues(data, strategy = 'remove')]; [None] is an
    omitted (undefined) argument, which takes the default. *)
Definition handleMissingValues (data : list TimeSeriesDataPoint)
    (strategy : option string) : list TimeSeriesDataPoint :=
  let strategy := default "remove" strategy in
  if String.eqb strategy "remove" then
    List.filter (fun point => hasValue (value point)) data
  else if String.eqb strategy "zero" then
    map zeroFill data
  else if String.eqb strategy "interpolate" then
    interpolateMissingValues data
  else data.

End Pure.

(** ** Value formatting ([formatValue] in [dataTransform.ts]) *)

Module Format.

(** *** Strings *)

(** [String.prototype.toLowerCase] on the letters A to Z.  The strings are
    UTF-8, so bytes above 127 stay as they are; the two tests below look for
    ASCII words only, and no character outside ASCII lower-cases to a letter
    sequence that completes ["percent"] or ["index"]. *)
Definition lowerChar (c : ascii) : ascii :=
  let n := nat_of_ascii c in
  if (65 <=? n)%nat && (n <=? 90)%nat then ascii_of_nat (n + 32) else c.

Fixpoint toLowerCase (s : string) : string :=
  match s with
  | EmptyString => EmptyString
  | String c s' => String (lowerChar c) (toLowerCase s')
  end.

(** [s.includes(search)] *)
Fixpoint includes (s search : string) : bool :=
  String.prefix search s ||
  match s with
  | EmptyString => false
  | String _ s' => includes s' search
  end.

(** *** [Number.prototype.toFixed] *)

(** The decimal digits of a natural number, ["0"] for zero. *)
Definition decimal (n : Z) : string := NilZero.string_of_uint (N.to_uint (Z.to_N n)).

Fixpoint zeros (k : nat) : string :=
  match k with
  | O => ""
  | S k' => String "0" (zeros k')
  end.

(** The number nearest to an integer, ties to even: the number value of a
    mathematical integer. *)
Definition numberOfZ (N : Z) : float :=
  SF2Prim (SpecFloat.binary_normalize prec emax N 0 false).

(** [Number::toString] for a number [x] of integer value [X >= 10^21]: the
    shortest digit string [s] of [k] digits and the exponent [n] with
    [s * 10^(n-k)] rounding to [x]; the nearest to [x] among those, the even
    one of two as near. *)
Definition shortestAt (x : float) (X : Z) (d k : nat) : option (Z * nat) :=
  let p := 10 ^ Z.of_nat (d - k) in
  let lo := X / p in
  let hi := lo + 1 in
  let okLo := PrimFloat.eqb (numberOfZ (lo * p)) x in
  let okHi := PrimFloat.eqb (numberOfZ (hi * p)) x in
  let rLo := (lo, d) in
  let rHi := if hi <? 10 ^ Z.of_nat k then (hi, d) else (10 ^ Z.of_nat (k - 1), S d) in
  match okLo, okHi with
  | true, true =>
      let dLo := X - lo * p in
      let dHi := hi * p - X in
      if dLo <? dHi then Some rLo
      else if dHi <? dLo then Some rHi
      else if Z.even lo then Some rLo else Some rHi
  | true, false => Some rLo
  | false, true => Some rHi
  | false, false => None
  end.

Fixpoint shortestFrom (x : float) (X : Z) (d : nat) (fuel k : nat) : Z * nat * nat :=
  match fuel with
  | O => (X, d, d)
  | S fuel' =>
      match shortestAt x X d k with
      | Some (s, n) => (s, k, n)
      | None => shortestFrom x X d fuel' (S k)
      end
  end.

Definition numberToStringLarge (x : float) (X : Z) : string :=
  let d := String.length (decimal X) in
  let '(s, k, n) := shortestFrom x X d 17 1 in
  let digits := decimal s in
  let e := decimal (Z.of_nat n - 1) in
  if (k =? 1)%nat then (digits ++ "e+" ++ e)%string
  else (substring 0 1 digits ++ "." ++ substring 1 (k - 1) digits ++ "e+" ++ e)%string.

(** The digits of [n] with a point before the last [f] of them. *)
Definition fixedDigits (n : Z) (f : nat) : string :=
  let m := decimal n in
  let m := if (String.length m <=? f)%nat
           then (zeros (f + 1 - String.length m) ++ m)%string else m in
  let k := String.length m in
  if (f =? 0)%nat then m
  else (substring 0 (k - f) m ++ "." ++ substring (k - f) f m)%string.

(** The integer nearest to [scaled * 2^e], the larger of two as near. *)
Definition nearestInteger (scaled e : Z) : Z :=
  if 0 <=? e then scaled * 2 ^ e
  else (2 * scaled + 2 ^ (- e)) / 2 ^ (1 - e).

(** [x.toFixed(fractionDigits)] for [fractionDigits] from 0 to 100 (the only
    call passes 2, so the RangeError outside that range never arises).  A
    finite [x] other than zero is [m * 2^e], negated when [neg]. *)
Definition toFixed (x : float) (fractionDigits : nat) : string :=
  match Prim2SF x with
  | S754_nan => "NaN"
  | S754_infinity false => "Infinity"
  | S754_infinity true => "-Infinity"
  | S754_zero _ => fixedDigits 0 fractionDigits
  | S754_finite neg m e =>
      let s := if neg then "-" else "" in
      if (0 <=? e) && (10 ^ 21 <=? Z.pos m * 2 ^ e) then
        (s ++ numberToStringLarge (abs x) (Z.pos m * 2 ^ e))%string
      else
        let n := nearestInteger (Z.pos m * 10 ^ Z.of_nat fractionDigits) e in
        (s ++ fixedDigits n fractionDigits)%string
  end.

(** *** [formatValue] *)

(** [units?.toLowerCase().includes('percent') || units?.includes('%')], as the
    condition of an [if]: an omitted [units] makes it false. *)
Definition isPercentUnit (units : option string) : bool :=
  match units with
  | Some u => includes (toLowerCase u) "percent" || includes u "%"
  | None => false
  end.

(** [units?.toLowerCase().includes('index')] *)
Definition isIndexUnit (units : option string) : bool :=
  match units with
  | Some u => includes (toLowerCase u) "index"
  | None => false
  end.

(** [function formatValue(value: number | null, units?: string): string] *)
Definition formatValue (value : option float) (units : option string) : string :=
  match value with
  | None => "N/A"
  | Some value =>
      if isNaN value then "N/A"
      else if isPercentUnit units then (toFixed value 2 ++ "%")%string
      else if isIndexUnit units then toFixed value 2
      else if (1e9 <=? abs value)%float then (toFixed (value / 1e9) 2 ++ "B")%string
      else if (1e6 <=? abs value)%float then (toFixed (value / 1e6) 2 ++ "M")%string
      else if (1e3 <=? abs value)%float then (toFixed (value / 1e3) 2 ++ "K")%string
      else toFixed value 2
  end.

End Format.

Import Format.

(** ** Chart configuration ([graphConfig.ts]) *)

Module Config.

(** The values a configuration object holds.  An object is a finite map from
    property names to values; a property may be present and hold [undefined]. *)
Inductive JSValue :=
| VUndefined
| VNumber (x : float)
| VString (s : string)
| VBoolean (b : bool)
| VArray (items : list JSValue)
| VObject (fields : gmap string JSValue).

Abbreviation JSObject := (gmap string JSValue).

Definition DEFAULT_COLORS : JSValue :=
  VArray (map VString
    ["#8884d8"; "#82ca9d"; "#ffc658"; "#ff7300"; "#0088fe"; "#00c49f"; "#ffbb28"; "#ff8042"]).

Definition DEFAULT_MARGIN : JSObject :=
  {[ "top" := VNumber 20; "right" := VNumber 30; "left" := VNumber 20;
     "bottom" := VNumber 20 ]}.

Definition DEFAULT_LINE_CHART_CONFIG : JSObject :=
  {[ "width" := VString "100%"; "height" := VNumber 400;
     "margin" := VObject DEFAULT_MARGIN; "colors" := DEFAULT_COLORS;
     "showLegend" := VBoolean true; "showGrid" := VBoolean true;
     "responsive" := VBoolean true; "strokeWidth" := VNumber 2;
     "dot" := VBoolean false; "activeDot" := VObject {[ "r" := VNumber 6 ]};
     "connectNulls" := VBoolean false ]}.

Definition DEFAULT_BAR_CHART_CONFIG : JSObject :=
  {[ "width" := VString "100%"; "height" := VNumber 400;
     "margin" := VObject DEFAULT_MARGIN; "colors" := DEFAULT_COLORS;
     "showLegend" := VBoolean true; "showGrid" := VBoolean true;
     "responsive" := VBoolean true; "barSize" := VNumber 20;
     "barCategoryGap" := VString "10%"; "barGap" := VNumber 4 ]}.

Definition DEFAULT_AREA_CHART_CONFIG : JSObject :=
  {[ "width" := VString "100%"; "height" := VNumber 400;
     "margin" := VObject DEFAULT_MARGIN; "colors" := DEFAULT_COLORS;
     "showLegend" := VBoolean true; "showGrid" := VBoolean true;
     "responsive" := VBoolean true; "strokeWidth" := VNumber 2;
     "fillOpacity" := VNumber 0.6; "connectNulls" := VBoolean false ]}.

(** [function getDefaultConfig(chartType: ChartType = 'line')]; [None] is an
    omitted argument. *)
Definition getDefaultConfig (chartType : option string) : JSObject :=
  let chartType := default "line" chartType in
  if String.eqb chartType "line" then DEFAULT_LINE_CHART_CONFIG
  else if String.eqb chartType "bar" then DEFAULT_BAR_CHART_CONFIG
  else if String.eqb chartType "area" then DEFAULT_AREA_CHART_CONFIG
  else DEFAULT_LINE_CHART_CONFIG.

(** The properties [{...v}] copies: those of an object, none of [undefined]
    (or of a missing property, or of a number or boolean).  [margin] is typed
    as an object; a string or an array there, which would spread its indices,
    is outside the type. *)
Definition spread (v : option JSValue) : JSObject :=
  match v with
  | Some (VObject fields) => fields
  | _ => ∅
  end.

(** [function mergeConfig(defaultConfig, userConfig?)].  In an object literal
    a later property wins, so the spread of [userConfig] goes to the left of
    the (left-biased) union. *)
Definition mergeConfig (defaultConfig : JSObject) (userConfig : option JSObject)
    : JSObject :=
  match userConfig with
  | None => defaultConfig
  | Some userConfig =>
      <[ "margin" := VObject (spread (userConfig !! "margin")
                                ∪ spread (defaultConfig !! "margin")) ]>
        (userConfig ∪ defaultConfig)
  end.

(** The first two lines of [TimeSeriesGraph]: the configuration a chart of
    type [chartType] is drawn with. *)
Definition resolveConfig (chartType : option string) (userConfig : option JSObject)
    : JSObject :=
  mergeConfig (getDefaultConfig chartType) userConfig.

End Config.

Import Config.

(** ** Dates ([parseDate] in [dataTransform.ts], and the [Date] built-ins it uses) *)

Module Dates.

Definition msPerDay : Z := 86400000.

(** Days from the epoch to the civil date [y]-[m]-[d] (proleptic Gregorian). *)
Definition daysFromCivil (y m d : Z) : Z :=
  let y' := if m <=? 2 then y - 1 else y in
  let era := y' / 400 in
  let yoe := y' - era * 400 in
  let doy := (153 * (if 2 <? m then m - 3 else m + 9) + 2) / 5 + d - 1 in
  let doe := yoe * 365 + yoe / 4 - yoe / 100 + doy in
  era * 146097 + doe - 719468.

(** The civil date [(y, m, d)] of a day number. *)
Definition civilFromDays (days : Z) : Z * Z * Z :=
  let z := days + 719468 in
  let era := z / 146097 in
  let doe := z - era * 146097 in
  let yoe := (doe - doe / 1460 + doe / 36524 - doe / 146096) / 365 in
  let doy := doe - (365 * yoe + yoe / 4 - yoe / 100) in
  let mp := (5 * doy + 2) / 153 in
  let d := doy - (153 * mp + 2) / 5 + 1 in
  let m := if mp <? 10 then mp + 3 else mp - 9 in
  (yoe + era * 400 + (if m <=? 2 then 1 else 0), m, d).

Definition isLeapYear (y : Z) : bool :=
  ((y mod 4 =? 0) && negb (y mod 100 =? 0)) || (y mod 400 =? 0).

Definition daysInMonth (y m : Z) : Z :=
  if m =? 2 then (if isLeapYear y then 29 else 28)
  else if (m =? 4) || (m =? 6) || (m =? 9) || (m =? 11) then 30
  else 31.

Definition digitOf (c : ascii) : option Z :=
  let n := nat_of_ascii c in
  if (48 <=? n)%nat && (n <=? 57)%nat then Some (Z.of_nat (n - 48)) else None.

(** The number a list of decimal digits writes; [None] when a character is
    not a digit. *)
Fixpoint numberOf (acc : Z) (cs : list ascii) : option Z :=
  match cs with
  | [] => Some acc
  | c :: cs' => d ← digitOf c; numberOf (10 * acc + d) cs'
  end.

Definition isHyphen (c : ascii) : bool := Ascii.eqb c "-".

(** The date-only forms of the Date Time String Format, [YYYY], [YYYY-MM] and
    [YYYY-MM-DD] with a month from 01 to 12 and a day of that month: every
    engine reads them as midnight UTC at the start of that year, month or day. *)
Definition parseDateOnly (s : string) : option Z :=
  let civil (y m d : Z) : option Z :=
    if (1 <=? m) && (m <=? 12) && (1 <=? d) && (d <=? daysInMonth y m)
    then Some (daysFromCivil y m d * msPerDay) else None in
  match list_ascii_of_string s with
  | [y1; y2; y3; y4] =>
      y ← numberOf 0 [y1; y2; y3; y4]; civil y 1 1
  | [y1; y2; y3; y4; h1; m1; m2] =>
      if isHyphen h1 then
        y ← numberOf 0 [y1; y2; y3; y4]; m ← numberOf 0 [m1; m2]; civil y m 1
      else None
  | [y1; y2; y3; y4; h1; m1; m2; h2; d1; d2] =>
      if isHyphen h1 && isHyphen h2 then
        y ← numberOf 0 [y1; y2; y3; y4]; m ← numberOf 0 [m1; m2];
        d ← numberOf 0 [d1; d2]; civil y m d
      else None
  | _ => None
  end.

(** [TimeClip]: a time value lies within 8.64e15 ms of the epoch. *)
Definition timeClip (t : Z) : option Z :=
  if Z.abs t <=? 8640000000000000 then Some t else None.

Definition pad (width : nat) (n : Z) : string :=
  let digits := Format.decimal n in
  (Format.zeros (width - String.length digits) ++ digits)%string.

(** [Date.prototype.toISOString] of a valid time value. *)
Definition isoString (t : Z) : string :=
  let days := t / msPerDay in
  let ms := t mod msPerDay in
  let '(y, m, d) := civilFromDays days in
  let sign := if y <? 0 then "-" else "+" in
  let year := if (0 <=? y) && (y <=? 9999) then pad 4 y
              else (sign ++ pad 6 (Z.abs y))%string in
  let hours := pad 2 (ms / 3600000) in
  let minutes := pad 2 (ms / 60000 mod 60) in
  let seconds := pad 2 (ms / 1000 mod 60) in
  let millis := pad 3 (ms mod 1000) in
  (year ++ "-" ++ pad 2 m ++ "-" ++ pad 2 d ++ "T"
     ++ hours ++ ":" ++ minutes ++ ":" ++ seconds ++ "." ++ millis ++ "Z")%string.

(** [date.toISOString()]: a RangeError ([None]) on an Invalid Date. *)
Definition toISOString (d : JSDate) : option string :=
  isoString <$> getTime d.

(** [ToIntegerOrInfinity] of a finite number: its integer part. *)
Definition truncate (x : float) : option Z :=
  match Prim2SF x with
  | S754_zero _ => Some 0
  | S754_finite neg m e =>
      let n := if 0 <=? e then Z.pos m * 2 ^ e else Z.pos m / 2 ^ (- e) in
      Some (if neg then - n else n)
  | _ => None
  end.

Section Engine.

(** What [Date.parse] makes of a string that is none of the date-only forms:
    the other forms of the standard format (which depend on the time zone when
    they give a time with no offset) and the formats an engine accepts beside
    them.  [None] is NaN. *)
Variable parseOther : string -> option Z.

(** [Date.parse(s)] *)
Definition Date_parse (s : string) : option Z :=
  match parseDateOnly s with
  | Some t => Some t
  | None => parseOther s
  end.

(** [new Date(s)] for a string [s] *)
Definition newDate (s : string) : JSDate :=
  {| getTime := Date_parse s ≫= timeClip |}.

(** [function parseDate(date: string | Date): Date] *)
Definition parseDate (date : DateField) : JSDate :=
  match date with
  | DateObj d => d
  | DateStr s => newDate s
  end.

End Engine.

(** An engine that reads the date-only forms and nothing else. *)
Definition dateOnlyEngine : string -> option Z := fun _ => None.

End Dates.

Import Dates.

(** ** [Array.prototype.sort] with a comparison function *)

Module JSArray.

Section Sort.

Context {A : Type}.

(** [comparefn(a, b)]: a number, [None] when it is NaN. *)
Variable comparefn : A -> A -> option Z.

(** [a] goes after [b] when [comparefn(a, b) > 0]; a result that is zero,
    negative or NaN leaves [a] first. *)
Definition sortsAfter (a b : A) : bool :=
  match comparefn a b with
  | Some v => 0 <? v
  | None => false
  end.

Fixpoint insertSorted (a : A) (sorted : list A) : list A :=
  match sorted with
  | [] => [a]
  | b :: rest => if sortsAfter a b then b :: insertSorted a rest else a :: b :: rest
  end.

(** The sort is stable, and for a consistent comparison function the result is
    fixed by the language: the elements in ascending order, equal ones in their
    original order.  Insertion from the right computes it. *)
Definition sort (l : list A) : list A := foldr insertSorted [] l.

End Sort.

(** [(a, b) => time(a) - time(b)] *)
Definition compareByTime {A} (time : A -> option Z) (a b : A) : option Z :=
  ta ← time a; tb ← time b; Some (ta - tb).

End JSArray.

(** ** [sortDataByDate] ([dataTransform.ts], pure view) *)

Module PureSort.

Section Engine.

Variable parseOther : string -> option Z.

(** [parseDate(a.date).getTime()] *)
Definition pointTime (point : TimeSeriesDataPoint) : option Z :=
  getTime (parseDate parseOther (date point)).

(** [function sortDataByDate(data)] *)
Definition sortDataByDate (data : list TimeSeriesDataPoint)
    : list TimeSeriesDataPoint :=
  JSArray.sort (JSArray.compareByTime pointTime) data.

End Engine.

End PureSort.

(** ** Alignment of datasets ([chartData] in [TimeSeriesGraph.tsx]) *)

Module Align.

(** What a property of a row holds: the date string, a value of a dataset, or
    the metadata of a dataset. *)
Inductive Cell :=
| CString (s : string)
| CNumber (v : option float)
| CMetadata (m : TimeSeriesMetadata).

(** A row, [Record<string, number | null>] in the source: a JavaScript object. *)
Abbreviation Row := (gmap string Cell).

(** [dataMap], a [Map]: its entries in insertion order. *)
Abbreviation DataMap := (list (string * Row)).

(** [point.date instanceof Date ? point.date.toISOString() : point.date];
    [None] is the RangeError of [toISOString] on an Invalid Date. *)
Definition dateStr (d : DateField) : option string :=
  match d with
  | DateObj d => toISOString d
  | DateStr s => Some s
  end.

(** [dataMap.has(key)] *)
Definition mapHas (dataMap : DataMap) (key : string) : bool :=
  existsb (fun entry => String.eqb (fst entry) key) dataMap.

(** [dataMap.set(key, row)] for a key the map does not hold yet. *)
Definition mapSetNew (dataMap : DataMap) (key : string) (row : Row) : DataMap :=
  dataMap ++ [(key, row)].

(** A change [f] to the row object stored under [key]. *)
Definition alterRow (key : string) (f : Row -> Row) (dataMap : DataMap) : DataMap :=
  map (fun entry => if String.eqb (fst entry) key
                    then (fst entry, f (snd entry)) else entry) dataMap.

(** [row[prop] = cell] on a plain object: [prop] becomes an own property
    holding [cell].  The one name that does not is ["__proto__"], which the
    setter of [Object.prototype] takes (a number is ignored there, [null]
    clears the prototype): the own properties stay as they are. *)
Definition setProperty (prop : string) (cell : Cell) (row : Row) : Row :=
  if String.eqb prop "__proto__" then row else <[ prop := cell ]> row.

(** [dataMap.get(key)![prop] = cell]: the row object under [key] gets the
    property. *)
Definition mapAssign (dataMap : DataMap) (key prop : string) (cell : Cell) : DataMap :=
  alterRow key (setProperty prop cell) dataMap.

(** The first pass: the set of all date strings. *)
Fixpoint addDates (points : list TimeSeriesDataPoint) (allDates : gset string)
    : option (gset string) :=
  match points with
  | [] => Some allDates
  | point :: rest =>
      dateStr ← dateStr (date point);
      addDates rest ({[ dateStr ]} ∪ allDates)
  end.

Fixpoint collectDates (datasets : list TimeSeriesDataset) (allDates : gset string)
    : option (gset string) :=
  match datasets with
  | [] => Some allDates
  | dataset :: rest =>
      allDates' ← addDates (data dataset) allDates;
      collectDates rest allDates'
  end.

(** The body of the inner [forEach] of the second pass. *)
Definition addPoint (dataset : TimeSeriesDataset) (point : TimeSeriesDataPoint)
    (dataMap : DataMap) : option DataMap :=
  dateStr ← dateStr (date point);
  let dataMap := if mapHas dataMap dateStr then dataMap
                 else mapSetNew dataMap dateStr {[ "date" := CString dateStr ]} in
  let dataMap := mapAssign dataMap dateStr (id dataset) (CNumber (value point)) in
  Some match metadata dataset with
       | Some m => mapAssign dataMap dateStr (id dataset ++ "_metadata")%string (CMetadata m)
       | None => dataMap
       end.

Fixpoint addPoints (dataset : TimeSeriesDataset) (points : list TimeSeriesDataPoint)
    (dataMap : DataMap) : option DataMap :=
  match points with
  | [] => Some dataMap
  | point :: rest =>
      dataMap' ← addPoint dataset point dataMap;
      addPoints dataset rest dataMap'
  end.

Fixpoint addDatasets (datasets : list TimeSeriesDataset) (dataMap : DataMap)
    : option DataMap :=
  match datasets with
  | [] => Some dataMap
  | dataset :: rest =>
      dataMap' ← addPoints dataset (data dataset) dataMap;
      addDatasets rest dataMap'
  end.

Section Engine.

Variable parseOther : string -> option Z.

(** [new Date(a.date as string).getTime()] for a row [a].  The property
    [date] holds the date string, unless a dataset whose id is ["date"] wrote
    its value over it: [new Date] of a number is that number of milliseconds,
    of [null] the epoch, of an object the parse of its string form. *)
Definition rowTime (row : Row) : option Z :=
  match row !! "date" with
  | Some (CString s) => getTime (newDate parseOther s)
  | Some (CNumber (Some x)) => truncate x ≫= timeClip
  | Some (CNumber None) => Some 0
  | Some (CMetadata _) => getTime (newDate parseOther "[object Object]")
  | None => None
  end.

(** [chartData]: the rows the chart is drawn from.  [None] is an exception
    (the RangeError of [toISOString]). *)
Definition chartData (datasets : list TimeSeriesDataset) : option (list Row) :=
  if (length datasets =? 0)%nat then Some []
  else
    allDates ← collectDates datasets ∅;
    dataMap ← addDatasets datasets [];
    Some (JSArray.sort (JSArray.compareByTime rowTime) (map snd dataMap)).

End Engine.

End Align.

Import Align.

(** ** The transforms on arrays and objects with identity

    [handleMissingValues] and [sortDataByDate] take an array of point objects
    and return an array.  Whether they change what they were given, and
    whether what they return is new, is a question about references: here the
    same code runs on a store of objects and arrays. *)

Module Heap.

(** A reference. *)
Abbreviation loc := nat.

(** The store: the point objects and the arrays of references to them that
    exist. *)
Record Store := {
  points : gmap loc TimeSeriesDataPoint;
  arrays : gmap loc (list loc)
}.

(** A computation on the store; [None] stands for a TypeError on a reference
    that leads nowhere, which no store of a running program has. *)
Definition Run (A : Type) : Type := Store -> option (A * Store).

#[export] Instance run_ret : MRet Run := fun A a st => Some (a, st).

#[export] Instance run_bind : MBind Run := fun A B f m st =>
  match m st with
  | Some (a, st') => f a st'
  | None => None
  end.

(** Reading an array: [data.length], [data[i]], an iteration. *)
Definition readArray (a : loc) : Run (list loc) := fun st =>
  refs ← arrays st !! a; Some (refs, st).

(** Reading the fields of a point object. *)
Definition readPoint (l : loc) : Run TimeSeriesDataPoint := fun st =>
  point ← points st !! l; Some (point, st).

(** An array literal, or the array a built-in creates for its result. *)
Definition newArray (refs : list loc) : Run loc := fun st =>
  let a := fresh (dom (arrays st)) in
  Some (a, {| points := points st; arrays := <[ a := refs ]> (arrays st) |}).

(** An object literal [{ ...point, value: v }]. *)
Definition newPoint (point : TimeSeriesDataPoint) : Run loc := fun st =>
  let l := fresh (dom (points st)) in
  Some (l, {| points := <[ l := point ]> (points st); arrays := arrays st |}).

(** [a.push(l)] *)
Definition push (a l : loc) : Run unit := fun st =>
  refs ← arrays st !! a;
  Some (tt, {| points := points st; arrays := <[ a := refs ++ [l] ]> (arrays st) |}).

(** Writing the elements of an array in place, as [sort] does. *)
Definition writeArray (a : loc) (refs : list loc) : Run unit := fun st =>
  _ ← arrays st !! a;
  Some (tt, {| points := points st; arrays := <[ a := refs ]> (arrays st) |}).

(** [data.filter((point) => point.value !== null && !isNaN(point.value))]:
    the references kept. *)
Fixpoint filterValid (refs : list loc) : Run (list loc) :=
  match refs with
  | [] => mret []
  | l :: rest =>
      point ← readPoint l;
      kept ← filterValid rest;
      mret (if hasValue (value point) then l :: kept else kept)
  end.

(** [data.map((point) => ({ ...point, value: ... }))]: the references of the
    new objects. *)
Fixpoint mapZeroFill (refs : list loc) : Run (list loc) :=
  match refs with
  | [] => mret []
  | l :: rest =>
      point ← readPoint l;
      l' ← newPoint (Pure.zeroFill point);
      rest' ← mapZeroFill rest;
      mret (l' :: rest')
  end.

(** The inner loop of [interpolateMissingValues], over the indices [js]. *)
Fixpoint fillGap (data result : loc) (lastValidValue value : float)
    (lastValidIndex i : Z) (js : list Z) : Run unit :=
  match js with
  | [] => mret tt
  | j :: js' =>
      refs ← readArray data;
      match refs !! Z.to_nat j with
      | None => fillGap data result lastValidValue value lastValidIndex i js'
      | Some l =>
          point ← readPoint l;
          let gap := i - lastValidIndex in
          let ratio := (ofIndex (j - lastValidIndex) / ofIndex gap)%float in
          let interpolatedValue :=
            (lastValidValue + (value - lastValidValue) * ratio)%float in
          l' ← newPoint {| date := date point; value := Some interpolatedValue |};
          _ ← push result l';
          fillGap data result lastValidValue value lastValidIndex i js'
      end
  end.

(** One iteration of the outer loop; the loop variables are
    [lastValidValue] and [lastValidIndex]. *)
Definition interpStep (data result : loc) (vars : option float * Z) (i : Z)
    : Run (option float * Z) :=
  let '(lastValidValue, lastValidIndex) := vars in
  refs ← readArray data;
  match refs !! Z.to_nat i with
  | None => mret vars
  | Some l =>
      point ← readPoint l;
      match value point with
      | Some v =>
          if negb (isNaN v) then
            _ ← (if (0 <=? lastValidIndex) && (lastValidIndex <? i - 1) then
                   match lastValidValue with
                   | Some lv =>
                       fillGap data result lv v lastValidIndex i
                         (seqZ (lastValidIndex + 1) (i - lastValidIndex - 1))
                   | None => mret tt
                   end
                 else mret tt);
            _ ← push result l;
            mret (Some v, i)
          else _ ← push result l; mret vars
      | None => _ ← push result l; mret vars
      end
  end.

Fixpoint interpLoop (data result : loc) (vars : option float * Z) (indices : list Z)
    : Run unit :=
  match indices with
  | [] => mret tt
  | i :: rest =>
      vars' ← interpStep data result vars i;
      interpLoop data result vars' rest
  end.

(** [function interpolateMissingValues(data)] *)
Definition interpolateMissingValues (data : loc) : Run loc :=
  result ← newArray [];
  refs ← readArray data;
  _ ← interpLoop data result (None, -1) (seqZ 0 (Z.of_nat (length refs)));
  mret result.

(** [function handleMissingValues(data, strategy = 'remove')] *)
Definition handleMissingValues (data : loc) (strategy : option string) : Run loc :=
  let strategy := default "remove" strategy in
  if String.eqb strategy "remove" then
    refs ← readArray data; kept ← filterValid refs; newArray kept
  else if String.eqb strategy "zero" then
    refs ← readArray data; refs' ← mapZeroFill refs; newArray refs'
  else if String.eqb strategy "interpolate" then
    interpolateMissingValues data
  else mret data.

(** The objects a list of references leads to. *)
Fixpoint readPoints (refs : list loc) : Run (list TimeSeriesDataPoint) :=
  match refs with
  | [] => mret []
  | l :: rest => point ← readPoint l; ps ← readPoints rest; mret (point :: ps)
  end.

Section Engine.

Variable parseOther : string -> option Z.

(** [function sortDataByDate(data)]: [[...data]] is a new array of the same
    references, which [sort] orders in place and returns.  The comparison
    function reads the two objects it is given. *)
Definition sortDataByDate (data : loc) : Run loc :=
  refs ← readArray data;
  copy ← newArray refs;
  ps ← readPoints refs;
  let sorted :=
    JSArray.sort
      (JSArray.compareByTime (fun e => PureSort.pointTime parseOther (snd e)))
      (zip refs ps) in
  _ ← writeArray copy (map fst sorted);
  mret copy.

End Engine.

(** The sequence of points an array holds. *)
Definition contents (st : Store) (a : loc) : option (list TimeSeriesDataPoint) :=
  refs ← arrays st !! a; mapM (fun l => points st !! l) refs.

End Heap.

(** ** The API data the dashboard feeds the graph module with ([types/api.ts]) *)

Module Api.

(** [interface SeriesDataPoint { date: string; value: number | null }] *)
Record SeriesDataPoint := {
  date : string;
  value : option float
}.

(** [interface SeriesResponse]: the fields the dashboard reads. *)
Record SeriesResponse := {
  series_id : string;
  title : string;
  units : string;
  frequency : string;
  data : list SeriesDataPoint;
  source : option string
}.

End Api.

(** ** Normalisation and date ranges ([dataTransform.ts], pure view) *)

Module Transform.

(** [function normalizeTimeSeriesData(data)] *)
Definition normalizeTimeSeriesData (data : list Api.SeriesDataPoint)
    : list TimeSeriesDataPoint :=
  map (fun point => {| date := DateStr (Api.date point); value := Api.value point |}) data.

(** The numbers the range test compares: a time value (a whole number of
    milliseconds), NaN, or one of the two infinities. *)
Inductive TimeNumber :=
| NaN
| NegInfinity
| PosInfinity
| Ms (t : Z).

(** The number [d.getTime()] returns. *)
Definition ofTime (t : option Z) : TimeNumber :=
  match t with
  | Some t => Ms t
  | None => NaN
  end.

(** [a <= b]: false when either side is NaN. *)
Definition numLe (a b : TimeNumber) : bool :=
  match a, b with
  | NaN, _ | _, NaN => false
  | NegInfinity, _ => true
  | _, PosInfinity => true
  | Ms x, Ms y => x <=? y
  | PosInfinity, _ => false
  | Ms _, NegInfinity => false
  end.

(** [a >= b] *)
Definition numGe (a b : TimeNumber) : bool := numLe b a.

(** The truth value of an optional argument [startDate?: string | Date]:
    [undefined] and the empty string are falsy, every other string and every
    [Date] object (an invalid one too) is truthy. *)
Definition given (d : option DateField) : bool :=
  match d with
  | None => false
  | Some (DateStr s) => negb (String.eqb s "")
  | Some (DateObj _) => true
  end.

Section Engine.

Variable parseOther : string -> option Z.

(** [bound ? parseDate(bound).getTime() : otherwise] *)
Definition boundTime (bound : option DateField) (otherwise : TimeNumber) : TimeNumber :=
  match bound with
  | Some d => if given bound then ofTime (getTime (parseDate parseOther d)) else otherwise
  | None => otherwise
  end.

(** The callback of the [filter]: [pointDate >= start && pointDate <= end]. *)
Definition inRange (start end' : TimeNumber) (point : TimeSeriesDataPoint) : bool :=
  let pointDate := ofTime (getTime (parseDate parseOther (date point))) in
  numGe pointDate start && numLe pointDate end'.

(** [function filterDataByDateRange(data, startDate?, endDate?)] *)
Definition filterDataByDateRange (data : list TimeSeriesDataPoint)
    (startDate endDate : option DateField) : list TimeSeriesDataPoint :=
  if negb (given startDate) && negb (given endDate) then data
  else
    let start := boundTime startDate NegInfinity in
    let end' := boundTime endDate PosInfinity in
    List.filter (inRange start end') data.

End Engine.

End Transform.

(** ** Normalisation and date ranges on the store *)

Module HeapTransform.

Import Heap.

(** [data.map((point) => ({ date: point.date, value: point.value }))]: the
    references of the new objects. *)
Fixpoint mapCopy (refs : list loc) : Run (list loc) :=
  match refs with
  | [] => mret []
  | l :: rest =>
      point ← readPoint l;
      l' ← newPoint {| date := date point; value := value point |};
      rest' ← mapCopy rest;
      mret (l' :: rest')
  end.

(** [function normalizeTimeSeriesData(data)] *)
Definition normalizeTimeSeriesData (data : loc) : Run loc :=
  refs ← readArray data; refs' ← mapCopy refs; newArray refs'.

Section Engine.

Variable parseOther : string -> option Z.

(** [data.filter((point) => ...)] with the range test: the references kept. *)
Fixpoint filterInRange (start end' : Transform.TimeNumber) (refs : list loc)
    : Run (list loc) :=
  match refs with
  | [] => mret []
  | l :: rest =>
      point ← readPoint l;
      kept ← filterInRange start end' rest;
      mret (if Transform.inRange parseOther start end' point then l :: kept else kept)
  end.

(** [function filterDataByDateRange(data, startDate?, endDate?)] *)
Definition filterDataByDateRange (data : loc) (startDate endDate : option DateField)
    : Run loc :=
  if negb (Transform.given startDate) && negb (Transform.given endDate) then mret data
  else
    let start := Transform.boundTime parseOther startDate Transform.NegInfinity in
    let end' := Transform.boundTime parseOther endDate Transform.PosInfinity in
    refs ← readArray data;
    kept ← filterInRange start end' refs;
    newArray kept.

End Engine.

End HeapTransform.

(** ** What the component draws with ([TimeSeriesGraph.tsx], [graphConfig.ts]) *)

Module Chart.

(** The truth value of a value ([ToBoolean]): [undefined], [0], [-0], NaN, the
    empty string and [false] are falsy. *)
Definition truthy (v : JSValue) : bool :=
  match v with
  | VUndefined => false
  | VNumber x => negb (isNaN x || PrimFloat.eqb x 0)
  | VString s => negb (String.eqb s "")
  | VBoolean b => b
  | VArray _ | VObject _ => true
  end.

(** [a || b] *)
Definition orElse (a b : JSValue) : JSValue := if truthy a then a else b.

(** [object.key], [undefined] for a property the object does not have. *)
Definition property (object : JSObject) (key : string) : JSValue :=
  default VUndefined (object !! key).

(** [array[i]], [undefined] past the end. *)
Definition element (items : list JSValue) (i : nat) : JSValue :=
  default VUndefined (items !! i).

(** The elements of [DEFAULT_COLORS]. *)
Definition defaultColors : list JSValue :=
  match DEFAULT_COLORS with
  | VArray items => items
  | _ => []
  end.

(** The colour of the line of the dataset at [index],
    [config.colors?.[index % (config.colors?.length || DEFAULT_COLORS.length)]
     || DEFAULT_COLORS[index % DEFAULT_COLORS.length]],
    where [colors] is [config.colors]: an array, or [None] for [undefined]
    (its type is [string[] | undefined]). *)
Definition lineColor (colors : option (list JSValue)) (index : nat) : JSValue :=
  let chosen :=
    match colors with
    | Some items =>
        let n := if (length items =? 0)%nat then length defaultColors else length items in
        element items (index mod n)
    | None => VUndefined
    end in
  orElse chosen (element defaultColors (index mod length defaultColors)).

(** [const width = config.width || '100%'] *)
Definition chartWidth (config : JSObject) : JSValue :=
  orElse (property config "width") (VString "100%").

(** [const height = config.height || 400] *)
Definition chartHeight (config : JSObject) : JSValue :=
  orElse (property config "height") (VNumber 400).

(** [const formatYAxisTick = (value, metadata?) => formatValue(value, metadata?.units)] *)
Definition formatYAxisTick (value : float) (metadata : option TimeSeriesMetadata)
    : string :=
  formatValue (Some value) (metadata ≫= units).

(** The [tickFormatter] of the Y axis:
    [(value) => formatYAxisTick(value, datasets[0]?.metadata)] *)
Definition yAxisTick (datasets : list TimeSeriesDataset) (value : float) : string :=
  formatYAxisTick value (head datasets ≫= metadata).

(** [entry.payload?.metadata?.units] in [CustomTooltip], for a payload that is
    a row: the property [units] of what the row holds under ["metadata"]. *)
Definition payloadUnits (payload : option Row) : option string :=
  row ← payload;
  cell ← row !! "metadata";
  match cell with
  | CMetadata m => units m
  | CString _ | CNumber _ => None
  end.

(** One line of the tooltip,
    [`${entry.name}: ${formatValue(entry.value, entry.payload?.metadata?.units)}`]. *)
Definition tooltipLine (name : string) (value : option float) (payload : option Row)
    : string :=
  (name ++ ": " ++ formatValue value (payloadUnits payload))%string.

(** [function getResponsiveWidth(containerWidth?: number): number | string] *)

(** [Math.min(x, y)]: NaN when either is, and [-0] below [+0]. *)
Definition Math_min (x y : float) : float :=
  if isNaN x || isNaN y then nan
  else if (x <? y)%float then x
  else if (y <? x)%float then y
  else if PrimFloat.get_sign x then x else y.

Definition getResponsiveWidth (containerWidth : option float) : JSValue :=
  match containerWidth with
  | None => VString "100%"
  | Some w =>
      if negb (truthy (VNumber w)) then VString "100%"
      else VNumber (Math_min (w - 40) 1200)
  end.

End Chart.

(** ** The list of datasets of the dashboard ([IndicatorDashboard.tsx]) *)

Module Dashboard.

(** [response.source || 'fred'] *)
Definition sourceOrFred (response : Api.SeriesResponse) : string :=
  match Api.source response with
  | Some s => if String.eqb s "" then "fred" else s
  | None => "fred"
  end.

(** The dataset [graphData] that [handleFetchSeries] builds from a response.
    The property [source] it also puts into [metadata] goes under the index
    signature of [TimeSeriesMetadata]. *)
Definition graphData (response : Api.SeriesResponse) : TimeSeriesDataset :=
  {| id := (sourceOrFred response ++ "_" ++ Api.series_id response)%string;
     label := Api.title response;
     data := Transform.normalizeTimeSeriesData (Api.data response);
     metadata := Some {| units := Some (Api.units response);
                         frequency := Some (Api.frequency response);
                         seasonal_adjustment := None |} |}.

(** The state update of [handleFetchSeries] (and of the census query):
    [(prev) => prev.some((ds) => ds.id === graphData.id) ? prev : [...prev, graphData]]. *)
Definition addDataset (graphData : TimeSeriesDataset) (prev : list TimeSeriesDataset)
    : list TimeSeriesDataset :=
  if existsb (fun ds => String.eqb (id ds) (id graphData)) prev then prev
  else prev ++ [graphData].

(** The state update of [handleRemoveGraph]:
    [(prev) => prev.filter((ds) => ds.id !== seriesId)]. *)
Definition handleRemoveGraph (seriesId : string) (prev : list TimeSeriesDataset)
    : list TimeSeriesDataset :=
  List.filter (fun ds => negb (String.eqb (id ds) seriesId)) prev.

End Dashboard.

(** * The vocabulary of the properties *)

(** ** The interpolation loop, run by run

    [interpGo last pending l] is what the loop appends to [result] while it
    walks [l], when [last] is the value of the last valid point behind it and
    [pending] the points met since. *)

(** The value the inner loop computes for the [k]-th point (from 1) of a run of
    [n] points between valid values [a] and [b]. *)
Definition interpolated (a b : float) (n k : nat) : float :=
  (a + (b - a) * (ofIndex (Z.of_nat k) / ofIndex (Z.of_nat (n + 1))))%float.

(** The points the inner loop pushes for the run [run]. *)
Definition fillRun (a b : float) (run : list TimeSeriesDataPoint)
    : list TimeSeriesDataPoint :=
  imap (fun k p => {| date := date p;
                      value := Some (interpolated a b (length run) (S k)) |}) run.

Fixpoint interpGo (last : option float) (pending l : list TimeSeriesDataPoint)
    : list TimeSeriesDataPoint :=
  match l with
  | [] => []
  | p :: l' =>
      match value p with
      | Some b =>
          if negb (isNaN b) then
            match last with Some a => fillRun a b pending | None => [] end
              ++ p :: interpGo (Some b) [] l'
          else p :: interpGo last (pending ++ [p]) l'
      | None => p :: interpGo last (pending ++ [p]) l'
      end
  end.

Definition pt (s : string) (v : option float) : TimeSeriesDataPoint :=
  {| date := DateStr s; value := v |}.

(** What the loop variables hold once the points [done] are behind: nothing
    valid was met yet, or [done] ends with the valid point [V] followed by the
    points [pending]. *)
Inductive loopInv (done : list TimeSeriesDataPoint) (st : Pure.InterpState)
    (pending : list TimeSeriesDataPoint) : Prop :=
| inv_start :
    Pure.lastValidIndex st = -1 -> Pure.lastValidValue st = None ->
    loopInv done st pending
| inv_seen pre V a :
    done = pre ++ V :: pending ->
    Pure.lastValidIndex st = Z.of_nat (length pre) ->
    Pure.lastValidValue st = Some a ->
    loopInv done st pending.

(** ** Order of time *)

(** [a] is not later than [b], both having a time. *)
Definition notLater {A} (time : A -> option Z) (a b : A) : Prop :=
  exists ta tb, time a = Some ta /\ time b = Some tb /\ ta <= tb.

(** ** The second pass of [chartData] as a sequence of writes *)

(** One execution of the body of the inner [forEach]: the date string of the
    point, its dataset and its value. *)
Record Write := { wkey : string; wds : TimeSeriesDataset; wvalue : option float }.

(** The writes of the points of one dataset, in order; [None] when a date has
    no string. *)
Fixpoint writesOfPoints (ds : TimeSeriesDataset) (points : list TimeSeriesDataPoint)
    : option (list Write) :=
  match points with
  | [] => Some []
  | p :: rest =>
      k ← dateStr (date p);
      ws ← writesOfPoints ds rest;
      Some ({| wkey := k; wds := ds; wvalue := value p |} :: ws)
  end.

Fixpoint writesOf (datasets : list TimeSeriesDataset) : option (list Write) :=
  match datasets with
  | [] => Some []
  | ds :: rest =>
      ws ← writesOfPoints ds (data ds);
      ws' ← writesOf rest;
      Some (ws ++ ws')
  end.

(** What one write does to the row it reaches. *)
Definition writeRow (w : Write) (row : Row) : Row :=
  let row := setProperty (id (wds w)) (CNumber (wvalue w)) row in
  match metadata (wds w) with
  | Some m => setProperty (id (wds w) ++ "_metadata")%string (CMetadata m) row
  | None => row
  end.

Definition applyWrite (dataMap : DataMap) (w : Write) : DataMap :=
  alterRow (wkey w) (writeRow w)
    (if mapHas dataMap (wkey w) then dataMap
     else mapSetNew dataMap (wkey w) {[ "date" := CString (wkey w) ]}).

(** The row under the date string [k] after the writes [ws]. *)
Definition rowOf (k : string) (ws : list Write) : Row :=
  fold_left (fun row w => if String.eqb (wkey w) k then writeRow w row else row)
            ws {[ "date" := CString k ]}.

(** A date that has a string: any string, or a [Date] that is not invalid. *)
Definition validDate (d : DateField) : Prop :=
  match d with
  | DateStr _ => True
  | DateObj d => is_Some (getTime d)
  end.

Definition datesValid (datasets : list TimeSeriesDataset) : Prop :=
  forall ds p, ds ∈ datasets -> p ∈ data ds -> validDate (date p).

(** The date strings of all points of all datasets, as a set. *)
Definition dateKeys (datasets : list TimeSeriesDataset) : gset string :=
  list_to_set (datasets ≫= fun ds => omap (fun p => dateStr (date p)) (data ds)).

(** The ids are those of distinct columns: no two datasets share one, none is
    the name of the date column, none is the name of a metadata column. *)
Definition idsDistinct (datasets : list TimeSeriesDataset) : Prop :=
  NoDup (map id datasets) /\
  forall ds ds', ds ∈ datasets -> ds' ∈ datasets ->
    id ds <> "date" /\ id ds <> (id ds' ++ "_metadata")%string.

(** The map after the writes [ws]: one entry per date string written, each
    holding the row those writes built. *)
Definition mapAfter (dm : DataMap) (ws : list Write) : Prop :=
  NoDup (map fst dm) /\
  (forall k, k ∈ map fst dm <-> k ∈ map wkey ws) /\
  Forall (fun entry => snd entry = rowOf (fst entry) ws) dm.

(** ** The date of a point, as written and as an instant *)

(** The date of a point as it is written: a string as it stands, a [Date] in
    its ISO form; an Invalid Date has none. *)
Definition writtenKey (d : DateField) : option string :=
  match d with
  | DateStr s => Some s
  | DateObj d =>
      match getTime d with
      | Some t => Some (isoString t)
      | None => None
      end
  end.

(** The dates of all points of all datasets as they are written, as a set. *)
Definition writtenKeys (datasets : list TimeSeriesDataset) : gset string :=
  list_to_set (datasets ≫= fun ds => omap (fun p => writtenKey (date p)) (data ds)).

(** The date key of the specification: the date made canonical, the instant
    it denotes (for a bare year the first instant of the year), so that two
    spellings of one instant are one key. *)
Definition canonicalKey (parseOther : string -> option Z) (d : DateField) : option Z :=
  getTime (parseDate parseOther d).

(** The canonical date keys of all points of all datasets, as a set. *)
Definition canonicalKeys (parseOther : string -> option Z)
    (datasets : list TimeSeriesDataset) : gset Z :=
  list_to_set (datasets ≫= fun ds => omap (fun p => canonicalKey parseOther (date p))
                                          (data ds)).

(** ** Two datasets on ragged date grids *)

Definition gdpSeries : TimeSeriesDataset :=
  {| id := "gdp"; label := "GDP";
     data := [pt "2021" (Some 2%float); pt "2020" (Some 1%float)];
     metadata := None |}.

Definition cpiSeries : TimeSeriesDataset :=
  {| id := "cpi"; label := "CPI";
     data := [pt "2020-01-01" (Some 3%float); pt "2021" None];
     metadata := Some {| units := Some "Index"; frequency := None;
                         seasonal_adjustment := None |} |}.

(** ** Stores *)

(** Every object and array of [st] is in [st'], with the same fields and the
    same elements. *)
Definition framed (st st' : Heap.Store) : Prop :=
  Heap.points st ⊆ Heap.points st' /\ Heap.arrays st ⊆ Heap.arrays st'.

(** The objects the references [refs] lead to. *)
Definition derefs (st : Heap.Store) (refs : list Heap.loc)
    : option (list TimeSeriesDataPoint) :=
  mapM (fun l => Heap.points st !! l) refs.

(** The store during the loop of [interpolateMissingValues] started in [st0]:
    the objects of [st0] and some new ones, the arrays of [st0] and the array
    [result], which holds [rps]. *)
Definition duringLoop (st0 : Heap.Store) (result : Heap.loc) (st : Heap.Store)
    (rps : list TimeSeriesDataPoint) : Prop :=
  Heap.points st0 ⊆ Heap.points st /\
  exists rrefs, Heap.arrays st = <[ result := rrefs ]> (Heap.arrays st0) /\
                derefs st rrefs = Some rps.

(** The loop variables and the array [result] agree with the state of the
    loop on the sequence. *)
Definition simulates (st0 : Heap.Store) (result : Heap.loc) (st : Heap.Store)
    (vars : option float * Z) (pst : Pure.InterpState) : Prop :=
  duringLoop st0 result st (Pure.result pst) /\
  vars = (Pure.lastValidValue pst, Pure.lastValidIndex pst).

(** One of the three strategies, or none given (which is [remove]). *)
Definition recognised (strategy : option string) : bool :=
  let strategy := default "remove" strategy in
  String.eqb strategy "remove" || String.eqb strategy "zero"
  || String.eqb strategy "interpolate".

(** A store with one array of three points. *)
Definition threePoints : Heap.Store :=
  {| Heap.points := {[ 10%nat := pt "2021" (Some 5%float);
                       11%nat := pt "2020" None;
                       12%nat := pt "2019" (Some 7%float) ]};
     Heap.arrays := {[ 0%nat := [10; 11; 12]%nat ]} |}.

(** ** Date ranges *)

(** The bound [bound], when one is given, has a time, and [ok] holds of it. *)
Definition boundHolds (parseOther : string -> option Z) (bound : option DateField)
    (ok : Z -> Prop) : Prop :=
  Transform.given bound = true ->
  exists d tb, bound = Some d /\ getTime (parseDate parseOther d) = Some tb /\ ok tb.

(** ** References *)

(** The references [refs] are those of distinct objects that do not exist in [st]. *)
Definition newIn (st : Heap.Store) (refs : list Heap.loc) : Prop :=
  NoDup refs /\ Forall (fun l => Heap.points st !! l = None) refs.

(** ** The cells of a row *)

(** The points of [ds] at the date string [k], in order. *)
Definition pointsAt (k : string) (ds : TimeSeriesDataset) : list TimeSeriesDataPoint :=
  List.filter (fun p => bool_decide (dateStr (date p) = Some k)) (data ds).

(** The writes to the column [i] of the row [k]. *)
Definition writesTo (k i : string) (ws : list Write) : list Write :=
  List.filter (fun w => String.eqb (wkey w) k && String.eqb (id (wds w)) i) ws.

(** The metadata written to the column [i] of the row [k]. *)
Definition metadataTo (k i : string) (ws : list Write) : list TimeSeriesMetadata :=
  omap (fun w => if String.eqb (wkey w) k
                    && String.eqb (id (wds w) ++ "_metadata")%string i
                 then metadata (wds w) else None) ws.

(** A series that was revised: two observations for 2020. *)
Definition revisedSeries : TimeSeriesDataset :=
  {| id := "rate"; label := "Rate";
     data := [pt "2020" (Some 1%float); pt "2021" (Some 2%float); pt "2020" (Some 3%float)];
     metadata := Some {| units := Some "Percent"; frequency := None;
                         seasonal_adjustment := None |} |}.

(** ** The configuration as typed *)

(** [config.colors] of a configuration whose [colors] is as typed. *)
Definition colorsOf (config : JSObject) : option (list JSValue) :=
  match config !! "colors" with
  | Some (VArray items) => Some items
  | _ => None
  end.

(** ** The dashboard *)

(** What happens to the list: a series arrives, or a graph is closed. *)
Inductive Update :=
| Fetched (graphData : TimeSeriesDataset)
| Removed (seriesId : string).

Definition applyUpdate (prev : list TimeSeriesDataset) (u : Update) : list TimeSeriesDataset :=
  match u with
  | Fetched graphData => Dashboard.addDataset graphData prev
  | Removed seriesId => Dashboard.handleRemoveGraph seriesId prev
  end.

(** The string holds the character. *)
Fixpoint hasChar (c : ascii) (s : string) : bool :=
  match s with
  | EmptyString => false
  | String c' s' => Ascii.eqb c' c || hasChar c s'
  end.

(** A response with two observations for one date. *)
Definition unrateResponse : Api.SeriesResponse :=
  {| Api.series_id := "UNRATE"; Api.title := "Unemployment Rate";
     Api.units := "Percent"; Api.frequency := "Monthly";
     Api.data := [ {| Api.date := "2020-01-01"; Api.value := Some 3.5%float |};
                   {| Api.date := "2020-02-01"; Api.value := None |};
                   {| Api.date := "2020-01-01"; Api.value := Some 3.6%float |} ];
     Api.source := None |}.

(** ** Points out of order *)

(** Four observations out of order, one of them with a date nothing reads. *)
Definition quarterly : list TimeSeriesDataPoint :=
  [pt "2021-04" (Some 4%float); pt "2020-10" None; pt "soon" (Some 9%float);
   pt "2021-01" (Some 3%float)].

(** Three observations out of order, two of them on the same day. *)
Definition unordered : list TimeSeriesDataPoint :=
  [pt "2021" (Some 4%float); pt "2020" None; pt "2020-01-01" (Some 3%float)].

(** * The properties *)

(** ** The interpolation loop *)

Section InterpolationLoop.

Import Pure.

Implicit Types (data run pre post done todo pending : list TimeSeriesDataPoint).
Implicit Types (p : TimeSeriesDataPoint) (st : InterpState).

Lemma hasValue_false_cases p :
  hasValue (value p) = false ->
  value p = None \/ exists x, value p = Some x /\ isNaN x = true.
Proof.
  unfold hasValue. destruct (value p) as [x|]; [|by left].
  intros H. right. exists x. split; [done|]. by apply negb_false_iff.
Qed.

Lemma fillRun_length a b run : length (fillRun a b run) = length run.
Proof. unfold fillRun. by rewrite length_imap. Qed.

(** Reading [l2] out of [l1 ++ l2 ++ l3] by index. *)
Lemma omap_seqZ_lookup {A B} (f : Z -> A -> B) (l2 l1 l3 : list A) :
  omap (fun j : Z => x ← (l1 ++ l2 ++ l3) !! Z.to_nat j; Some (f j x))
       (seqZ (Z.of_nat (length l1)) (Z.of_nat (length l2)))
  = imap (fun k x => f (Z.of_nat (length l1 + k)) x) l2.
Proof.
  revert l1. induction l2 as [|x l2 IH]; intros l1; [done|].
  cbn [length]. rewrite Nat2Z.inj_succ, seqZ_cons by lia.
  cbn [omap list_omap imap]. rewrite Nat2Z.id.
  rewrite lookup_app_r, Nat.sub_diag by lia. cbn.
  rewrite Nat.add_0_r. f_equal.
  replace (Z.succ (Z.of_nat (length l1))) with (Z.of_nat (length (l1 ++ [x])))
    by (rewrite length_app; cbn; lia).
  rewrite Z.pred_succ.
  replace (l1 ++ x :: l2 ++ l3) with ((l1 ++ [x]) ++ l2 ++ l3)
    by (by rewrite <- app_assoc).
  rewrite IH. apply imap_ext. intros k y _. cbn.
  rewrite length_app. cbn. do 2 f_equal. lia.
Qed.

(** The inner loop reads exactly the points of the pending run. *)
Lemma fillGap_fillRun pre p run post (a b : float) :
  fillGap (pre ++ p :: run ++ post) a b
          (Z.of_nat (length pre)) (Z.of_nat (length pre) + 1 + Z.of_nat (length run))
  = fillRun a b run.
Proof.
  unfold fillGap, fillRun.
  replace (Z.of_nat (length pre) + 1 + Z.of_nat (length run) - Z.of_nat (length pre) - 1)
    with (Z.of_nat (length run)) by lia.
  replace (Z.of_nat (length pre) + 1) with (Z.of_nat (length (pre ++ [p])))
    by (rewrite length_app; cbn; lia).
  replace (pre ++ p :: run ++ post) with ((pre ++ [p]) ++ run ++ post)
    by (by rewrite <- app_assoc).
  rewrite (omap_seqZ_lookup
    (fun j point => {| date := date point;
       value := Some (a + (b - a) *
         (ofIndex (j - Z.of_nat (length pre)) /
          ofIndex (Z.of_nat (length (pre ++ [p])) + Z.of_nat (length run)
                   - Z.of_nat (length pre))))%float |})).
  apply imap_ext. intros k y _. cbn. unfold interpolated.
  rewrite length_app. cbn [length].
  replace (Z.of_nat (length pre + 1 + k) - Z.of_nat (length pre))
    with (Z.of_nat (S k)) by lia.
  replace (Z.of_nat (length pre + 1) + Z.of_nat (length run) - Z.of_nat (length pre))
    with (Z.of_nat (length run + 1)) by lia.
  reflexivity.
Qed.

Lemma interpStep_missing done p todo st pending :
  hasValue (value p) = false ->
  loopInv done st pending ->
  let st' := interpStep (done ++ p :: todo) st (Z.of_nat (length done)) in
  result st' = result st ++ [p] /\ lastValidValue st' = lastValidValue st /\
  loopInv (done ++ [p]) st' (pending ++ [p]).
Proof.
  intros Hp Hinv. unfold interpStep.
  rewrite Nat2Z.id, lookup_app_r, Nat.sub_diag by lia. cbn [lookup list_lookup].
  assert (Hpush : loopInv (done ++ [p])
            {| result := result st ++ [p]; lastValidValue := lastValidValue st;
               lastValidIndex := lastValidIndex st |} (pending ++ [p])).
  { destruct Hinv as [Hi Hv | pre V a Hd Hi Hv].
    - by apply inv_start.
    - apply (inv_seen _ _ _ pre V a); [|done..].
      rewrite Hd. by rewrite <- app_assoc. }
  destruct (hasValue_false_cases p Hp) as [-> | (x & -> & ->)]; cbn; done.
Qed.

Lemma interpStep_valid done p b todo st pending :
  value p = Some b -> isNaN b = false ->
  loopInv done st pending ->
  let st' := interpStep (done ++ p :: todo) st (Z.of_nat (length done)) in
  result st' = result st
                 ++ match lastValidValue st with
                    | Some a => fillRun a b pending
                    | None => []
                    end ++ [p]
  /\ lastValidValue st' = Some b /\ loopInv (done ++ [p]) st' [].
Proof.
  intros Hp Hb Hinv. unfold interpStep.
  rewrite Nat2Z.id, lookup_app_r, Nat.sub_diag by lia. cbn [lookup list_lookup].
  rewrite Hp, Hb. cbn [negb result lastValidValue lastValidIndex].
  split; [|split; [done|]].
  - rewrite <- app_assoc. f_equal. f_equal.
    destruct Hinv as [Hi Hv | pre V a Hd Hi Hv].
    + rewrite Hi, Hv. done.
    + rewrite Hi, Hv, Hd, length_app. cbn [length].
      replace (0 <=? Z.of_nat (length pre)) with true
        by (symmetry; apply Z.leb_le; lia).
      cbn [andb].
      destruct (Z.ltb_spec (Z.of_nat (length pre))
                  (Z.of_nat (length pre + S (length pending)) - 1)) as [Hlt|Hge].
      * replace (Z.of_nat (length pre + S (length pending)))
          with (Z.of_nat (length pre) + 1 + Z.of_nat (length pending)) by lia.
        rewrite <- (app_assoc pre). cbn [app].
        apply fillGap_fillRun.
      * destruct pending; [done|]. cbn [length] in Hge. lia.
  - apply (inv_seen _ _ _ done p b); [done| |done].
    done.
Qed.

Lemma interp_loop todo : forall done st pending,
  loopInv done st pending ->
  result (fold_left (interpStep (done ++ todo))
            (seqZ (Z.of_nat (length done)) (Z.of_nat (length todo))) st)
  = result st ++ interpGo (lastValidValue st) pending todo.
Proof.
  induction todo as [|p todo IH]; intros done st pending Hinv.
  - rewrite seqZ_nil by (cbn; lia). cbn. by rewrite app_nil_r.
  - cbn [length]. rewrite Nat2Z.inj_succ, seqZ_cons by lia.
    cbn [fold_left]. rewrite Z.pred_succ.
    replace (Z.succ (Z.of_nat (length done))) with (Z.of_nat (length (done ++ [p])))
      by (rewrite length_app; cbn; lia).
    replace (done ++ p :: todo) with ((done ++ [p]) ++ todo) at 1
      by (by rewrite <- app_assoc).
    cbn [interpGo].
    destruct (hasValue (value p)) eqn:Hp.
    + unfold hasValue in Hp. destruct (value p) as [b|] eqn:Hv; [|done].
      apply negb_true_iff in Hp. rewrite Hp. cbn [negb].
      destruct (interpStep_valid done p b todo st pending Hv Hp Hinv) as (Hr & Hl & Hi).
      rewrite (IH _ _ _ Hi), Hr, Hl. by rewrite <- !app_assoc.
    + destruct (interpStep_missing done p todo st pending Hp Hinv) as (Hr & Hl & Hi).
      rewrite (IH _ _ _ Hi), Hr, Hl. rewrite <- app_assoc.
      destruct (hasValue_false_cases p Hp) as [-> | (x & -> & ->)]; done.
Qed.

(** The loop of [interpolateMissingValues] computes [interpGo]. *)
Lemma interpolateMissingValues_interpGo data :
  interpolateMissingValues data = interpGo None [] data.
Proof.
  unfold interpolateMissingValues.
  apply (interp_loop data [] interpInit []). by apply inv_start.
Qed.

(** *** How [interpGo] treats runs *)

Lemma interpGo_no_last pending pending' l :
  interpGo None pending l = interpGo None pending' l.
Proof.
  revert pending pending'. induction l as [|p l IH]; intros pending pending'; [done|].
  cbn [interpGo]. destruct (value p) as [b|].
  - destruct (negb (isNaN b)); [done|]. f_equal. apply IH.
  - f_equal. apply IH.
Qed.

Lemma interpGo_missing_run last run : forall pending rest,
  Forall (fun p => hasValue (value p) = false) run ->
  interpGo last pending (run ++ rest) = run ++ interpGo last (pending ++ run) rest.
Proof.
  induction run as [|p run IH]; intros pending rest Hrun.
  - by rewrite app_nil_r.
  - inversion Hrun as [|? ? Hp Hrun']; subst. cbn [app interpGo].
    replace (pending ++ p :: run) with ((pending ++ [p]) ++ run)
      by (by rewrite <- app_assoc).
    destruct (hasValue_false_cases p Hp) as [-> | (x & -> & ->)];
      cbn [negb]; f_equal; by apply IH.
Qed.

Lemma interpGo_trailing_run run l : forall last pending,
  Forall (fun p => hasValue (value p) = false) run ->
  interpGo last pending (l ++ run) = interpGo last pending l ++ run.
Proof.
  induction l as [|p l IH]; intros last pending Hrun.
  - cbn [app interpGo]. rewrite <- (app_nil_r run) at 1.
    rewrite interpGo_missing_run by done. cbn [interpGo]. by rewrite app_nil_r.
  - cbn [app interpGo]. destruct (value p) as [b|].
    + destruct (negb (isNaN b)).
      * rewrite <- app_assoc. cbn [app]. by rewrite IH.
      * cbn [app]. by rewrite IH.
    + cbn [app]. by rewrite IH.
Qed.

Lemma interpGo_split A a l2 l1 : forall last pending,
  value A = Some a -> isNaN a = false ->
  interpGo last pending (l1 ++ A :: l2)
  = interpGo last pending (l1 ++ [A]) ++ interpGo (Some a) [] l2.
Proof.
  induction l1 as [|p l1 IH]; intros last pending HA Ha.
  - cbn [app interpGo]. rewrite HA, Ha. cbn [negb]. by rewrite <- app_assoc.
  - cbn [app interpGo]. destruct (value p) as [b|].
    + destruct (negb (isNaN b)).
      * rewrite <- app_assoc. cbn [app]. by rewrite IH.
      * cbn [app]. by rewrite IH.
    + cbn [app]. by rewrite IH.
Qed.

(** The output for an interior run, in full: the run's own points are still
    there, followed by the interpolated ones. *)
Lemma interpolate_interior_run pre A a run B b post :
  value A = Some a -> isNaN a = false ->
  value B = Some b -> isNaN b = false ->
  Forall (fun p => hasValue (value p) = false) run ->
  interpolateMissingValues (pre ++ A :: run ++ B :: post)
  = interpolateMissingValues (pre ++ [A]) ++ run ++ fillRun a b run
      ++ interpolateMissingValues (B :: post).
Proof.
  intros HA Ha HB Hb Hrun. rewrite !interpolateMissingValues_interpGo.
  rewrite (interpGo_split A a) by done. f_equal.
  rewrite interpGo_missing_run by done. f_equal.
  cbn [interpGo app]. by rewrite HB, Hb.
Qed.

Lemma interpGo_all_valid l : forall last,
  Forall (fun p => hasValue (value p) = true) l -> interpGo last [] l = l.
Proof.
  induction l as [|p l IH]; intros last Hl; [done|].
  inversion Hl as [|? ? Hp Hl']; subst. cbn [interpGo].
  unfold hasValue in Hp. destruct (value p) as [b|]; [|done].
  rewrite Hp. replace (match last with Some a => fillRun a b [] | None => [] end)
    with (@nil TimeSeriesDataPoint) by (by destruct last).
  cbn [app]. f_equal. by apply IH.
Qed.

Lemma isFinite_not_NaN x : isFinite x = true -> isNaN x = false.
Proof.
  unfold isFinite, isNaN, is_finite. intros H.
  apply negb_true_iff, orb_false_iff in H. tauto.
Qed.

End InterpolationLoop.

(** ** Missing-value policy: properties *)

Section MissingValuePolicy.

Import Pure.

Implicit Types (data run pre post : list TimeSeriesDataPoint).
Implicit Types (p A B : TimeSeriesDataPoint).

Lemma strategy_interpolate data :
  handleMissingValues data (Some "interpolate") = interpolateMissingValues data.
Proof. reflexivity. Qed.

Lemma filter_sublist {X} (f : X -> bool) (l : list X) : sublist (List.filter f l) l.
Proof.
  induction l as [|x l IH]; cbn; [constructor|].
  destruct (f x); by constructor.
Qed.

Lemma hasValue_true_iff (v : option float) :
  hasValue v = true <-> exists x, v = Some x /\ isNaN x = false.
Proof.
  unfold hasValue. destruct v as [x|].
  - rewrite negb_true_iff. split; [by exists x|]. by intros (y & [= ->] & Hy).
  - split; [done|]. by intros (y & Hy & _).
Qed.

(** C9. [interpolate] leaves a series without gaps as it is: when every value is
    a finite number, the result equals the input. *)
Theorem interpolate_gap_free_identity data :
  Forall (fun p => exists x, value p = Some x /\ isFinite x = true) data ->
  handleMissingValues data (Some "interpolate") = data.
Proof.
  intros Hfin. rewrite strategy_interpolate, interpolateMissingValues_interpGo.
  apply interpGo_all_valid.
  eapply Forall_impl; [exact Hfin|].
  intros p (x & Hx & Hf). apply hasValue_true_iff.
  exists x. split; [done|]. by apply isFinite_not_NaN.
Qed.

Lemma interpolate_gap_free_identity_witness :
  handleMissingValues
    [pt "2020-01-01" (Some 1.5%float); pt "2020-02-01" (Some (-2)%float);
     pt "2020-03-01" (Some 0%float)] (Some "interpolate")
  = [pt "2020-01-01" (Some 1.5%float); pt "2020-02-01" (Some (-2)%float);
     pt "2020-03-01" (Some 0%float)].
Proof.
  apply interpolate_gap_free_identity.
  repeat constructor; eexists; (split; [reflexivity | vm_compute; reflexivity]).
Defined.

(** C2, as the specification states it, fails on a non-finite value: the test
    is [isNaN], so a point holding [Infinity] between two valid points counts
    as valid and is not replaced by the interpolation of its neighbours
    (which would be 2 here). *)
Lemma interpolate_keeps_infinite_point :
  absentOrNonFinite (Some infinity) = true /\
  handleMissingValues
    [pt "t0" (Some 1%float); pt "t1" (Some infinity); pt "t2" (Some 3%float)]
    (Some "interpolate")
  = [pt "t0" (Some 1%float); pt "t1" (Some infinity); pt "t2" (Some 3%float)] /\
  handleMissingValues
    [pt "t0" (Some 1%float); pt "t1" (Some infinity); pt "t2" (Some 3%float)]
    (Some "interpolate")
  <> [pt "t0" (Some 1%float); pt "t1" (Some 2%float); pt "t2" (Some 3%float)].
Proof.
  split; [|split]; [vm_compute; reflexivity..|].
  intros H.
  apply (f_equal (fun l => match l with
                           | [_; p; _] => match value p with
                                          | Some x => PrimFloat.ltb x 3
                                          | None => false
                                          end
                           | _ => false
                           end)) in H.
  vm_compute in H. discriminate H.
Qed.

(** The run of a one-point gap is still in the output, before the point
    interpolated for it: three points in, four out. *)
Example interpolate_one_point_gap :
  handleMissingValues
    [pt "t0" (Some 5%float); pt "t1" None; pt "t2" (Some 7%float)] (Some "interpolate")
  = [pt "t0" (Some 5%float); pt "t1" None; pt "t1" (Some 6%float); pt "t2" (Some 7%float)]
  /\ length (handleMissingValues
               [pt "t0" (Some 5%float); pt "t1" None; pt "t2" (Some 7%float)]
               (Some "interpolate")) = 4%nat.
Proof. split; vm_compute; reflexivity. Qed.

(** C2 (amended). With "missing" meaning [null] or NaN:
    - a run of missing points between a valid point of value [a] and the next
      valid point of value [b] gets, directly before that closing point, one
      point per point of the run, with the run's dates in order and the values
      [a + (b - a) * (k / (n + 1))], [k = 1..n], [n] the length of the run;
      the output begins with the interpolation of the series up to the opening
      point and ends with these points and the interpolation of the series
      from the closing point on, which starts with the closing point;
    - for a run of two, these values are [a + (b - a) * (1/3)] and
      [a + (b - a) * (2/3)];
    - a run with no valid point before it, or none after it, is kept as it is
      and gets no interpolated point. *)
Theorem interpolate_fills_interior_runs :
  (forall pre A a run B b post,
     value A = Some a -> isNaN a = false ->
     value B = Some b -> isNaN b = false ->
     Forall (fun p => hasValue (value p) = false) run ->
     exists kept,
       handleMissingValues (pre ++ A :: run ++ B :: post) (Some "interpolate")
       = handleMissingValues (pre ++ [A]) (Some "interpolate")
           ++ kept ++ fillRun a b run
           ++ handleMissingValues (B :: post) (Some "interpolate")) /\
  (forall B b post,
     value B = Some b -> isNaN b = false ->
     exists rest, handleMissingValues (B :: post) (Some "interpolate") = B :: rest) /\
  (forall a b run,
     length (fillRun a b run) = length run /\
     forall k p, run !! k = Some p ->
       fillRun a b run !! k
       = Some {| date := date p;
                 value := Some (a + (b - a) *
                   (ofIndex (Z.of_nat k + 1) / ofIndex (Z.of_nat (length run) + 1)))%float |}) /\
  (forall a b p1 p2,
     fillRun a b [p1; p2]
     = [ {| date := date p1; value := Some (a + (b - a) * (1 / 3))%float |};
         {| date := date p2; value := Some (a + (b - a) * (2 / 3))%float |} ]) /\
  (forall run rest,
     Forall (fun p => hasValue (value p) = false) run ->
     handleMissingValues (run ++ rest) (Some "interpolate")
     = run ++ handleMissingValues rest (Some "interpolate")) /\
  (forall pre run,
     Forall (fun p => hasValue (value p) = false) run ->
     handleMissingValues (pre ++ run) (Some "interpolate")
     = handleMissingValues pre (Some "interpolate") ++ run).
Proof.
  split; [|split; [|split; [|split; [|split]]]].
  - intros pre A a run B b post HA Ha HB Hb Hrun. exists run.
    rewrite !strategy_interpolate. by apply interpolate_interior_run.
  - intros B b post HB Hb. eexists.
    rewrite strategy_interpolate, interpolateMissingValues_interpGo.
    cbn [interpGo]. by rewrite HB, Hb.
  - intros a b run. split; [apply fillRun_length|].
    intros k p Hk. unfold fillRun. rewrite list_lookup_imap, Hk. cbn.
    unfold interpolated.
    replace (Z.of_nat k + 1) with (Z.of_nat (S k)) by lia.
    replace (Z.of_nat (length run) + 1) with (Z.of_nat (length run + 1)) by lia.
    reflexivity.
  - reflexivity.
  - intros run rest Hrun. rewrite !strategy_interpolate, !interpolateMissingValues_interpGo.
    rewrite interpGo_missing_run by done. f_equal. apply interpGo_no_last.
  - intros pre run Hrun. rewrite !strategy_interpolate, !interpolateMissingValues_interpGo.
    by apply interpGo_trailing_run.
Qed.

Lemma interpolate_fills_interior_runs_witness :
  exists kept,
    handleMissingValues
      ([pt "t0" (Some 2%float)] ++ pt "t1" (Some 2%float)
         :: [pt "t2" None; pt "t3" (Some nan)] ++ pt "t4" (Some 11%float) :: [pt "t5" None])
      (Some "interpolate")
    = handleMissingValues ([pt "t0" (Some 2%float)] ++ [pt "t1" (Some 2%float)])
        (Some "interpolate")
        ++ kept ++ fillRun 2 11 [pt "t2" None; pt "t3" (Some nan)]
        ++ handleMissingValues (pt "t4" (Some 11%float) :: [pt "t5" None])
             (Some "interpolate").
Proof.
  apply (proj1 interpolate_fills_interior_runs
           [pt "t0" (Some 2%float)] (pt "t1" (Some 2%float)) 2%float
           [pt "t2" None; pt "t3" (Some nan)] (pt "t4" (Some 11%float)) 11%float
           [pt "t5" None]);
    [reflexivity | reflexivity | reflexivity | reflexivity |].
  repeat constructor.
Defined.

(** C5, as the specification states it, fails on a non-finite value: [remove]
    keeps a point holding [Infinity] and [zero] leaves it as it is. *)
Lemma remove_keeps_infinite_point :
  absentOrNonFinite (Some infinity) = true /\
  handleMissingValues [pt "t0" (Some infinity); pt "t1" None] (Some "remove")
  = [pt "t0" (Some infinity)] /\
  handleMissingValues [pt "t0" (Some infinity); pt "t1" None] (Some "zero")
  = [pt "t0" (Some infinity); pt "t1" (Some 0%float)].
Proof. repeat split; vm_compute; reflexivity. Qed.

(** C5 (amended). [remove] drops exactly the points whose value is [null] or
    NaN and keeps the others in their order; [zero] puts 0 in place of every
    [null] or NaN value and changes nothing else: same length, same order,
    same dates.  On [{t0,5},{t1,null},{t2,7}] they give
    [{t0,5},{t2,7}] and [{t0,5},{t1,0},{t2,7}]. *)
Theorem remove_and_zero_on_null_or_NaN :
  (forall data,
     let kept := handleMissingValues data (Some "remove") in
     kept = List.filter (fun p => hasValue (value p)) data /\
     sublist kept data /\
     (length kept <= length data)%nat /\
     (forall p, p ∈ kept <->
                p ∈ data /\ exists x, value p = Some x /\ isNaN x = false)) /\
  (forall data,
     let filled := handleMissingValues data (Some "zero") in
     length filled = length data /\
     map date filled = map date data /\
     (forall i p, data !! i = Some p ->
        exists q, filled !! i = Some q /\ date q = date p /\
                  value q = if hasValue (value p) then value p else Some 0%float)) /\
  handleMissingValues [pt "t0" (Some 5%float); pt "t1" None; pt "t2" (Some 7%float)]
    (Some "remove")
  = [pt "t0" (Some 5%float); pt "t2" (Some 7%float)] /\
  handleMissingValues [pt "t0" (Some 5%float); pt "t1" None; pt "t2" (Some 7%float)]
    (Some "zero")
  = [pt "t0" (Some 5%float); pt "t1" (Some 0%float); pt "t2" (Some 7%float)].
Proof.
  split; [|split; [|split]].
  - intros data kept. subst kept.
    change (handleMissingValues data (Some "remove"))
      with (List.filter (fun p => hasValue (value p)) data).
    split; [done|]. split; [apply filter_sublist|].
    split; [apply sublist_length, filter_sublist|].
    intros p. rewrite !list_elem_of_In, filter_In, hasValue_true_iff. done.
  - intros data filled. subst filled.
    change (handleMissingValues data (Some "zero")) with (map zeroFill data).
    split; [by rewrite length_map|]. split.
    + rewrite map_map. by apply map_ext.
    + intros i p Hi. exists (zeroFill p). split.
      * change (map zeroFill data) with (zeroFill <$> data).
        by rewrite list_lookup_fmap, Hi.
      * split; [done|]. unfold zeroFill, hasValue. cbn.
        destruct (value p) as [x|]; [|done]. by destruct (isNaN x).
  - vm_compute. reflexivity.
  - vm_compute. reflexivity.
Qed.

Lemma remove_and_zero_on_null_or_NaN_witness :
  exists q,
    handleMissingValues [pt "t0" (Some 5%float); pt "t1" (Some nan)] (Some "zero") !! 1%nat
    = Some q /\
    date q = DateStr "t1" /\ value q = Some 0%float.
Proof.
  pose proof (proj1 (proj2 remove_and_zero_on_null_or_NaN)
                [pt "t0" (Some 5%float); pt "t1" (Some nan)]) as H.
  cbv zeta in H. destruct H as (_ & _ & H).
  apply (H 1%nat (pt "t1" (Some nan))). reflexivity.
Defined.

(** C3, as the specification states it, fails: an unrecognized strategy string
    reaches the [default] case, which returns the input; the missing point is
    still there, where [remove] drops it. *)
Lemma unknown_strategy_is_not_remove :
  handleMissingValues [pt "t0" (Some 5%float); pt "t1" None] (Some "median")
  = [pt "t0" (Some 5%float); pt "t1" None] /\
  handleMissingValues [pt "t0" (Some 5%float); pt "t1" None] (Some "remove")
  = [pt "t0" (Some 5%float)].
Proof. split; vm_compute; reflexivity. Qed.

(** C3 (amended). [remove] is the default of an omitted strategy; a strategy
    string that is none of [remove], [zero], [interpolate] gives back the input
    sequence as it is, and no error is raised. *)
Theorem unknown_strategy_returns_input :
  (forall data, handleMissingValues data None = handleMissingValues data (Some "remove")) /\
  (forall data s,
     s <> "remove" -> s <> "zero" -> s <> "interpolate" ->
     handleMissingValues data (Some s) = data).
Proof.
  split; [done|].
  intros data s Hr Hz Hi. unfold handleMissingValues.
  cbv beta iota zeta delta [from_option id Datatypes.id].
  apply String.eqb_neq in Hr, Hz, Hi. by rewrite Hr, Hz, Hi.
Qed.

Lemma unknown_strategy_returns_input_witness :
  handleMissingValues [pt "t0" (Some 5%float); pt "t1" None] (Some "median")
  = [pt "t0" (Some 5%float); pt "t1" None].
Proof.
  apply (proj2 unknown_strategy_returns_input); discriminate.
Defined.

End MissingValuePolicy.

(** ** Properties of [formatValue] *)

Section ValueFormatter.

(** [nearestInteger] rounds to the nearest integer, halves upwards: twice the
    distance from [n] to [scaled / 2^k] is at most 1, and less than 1 from
    below. *)
Lemma nearestInteger_nearest (scaled k : Z) :
  0 < k ->
  let n := nearestInteger scaled (- k) in
  2 * n * 2 ^ k - 2 ^ k <= 2 * scaled < 2 * n * 2 ^ k + 2 ^ k.
Proof.
  intros Hk n. subst n. unfold nearestInteger.
  replace (0 <=? - k) with false by (symmetry; apply Z.leb_gt; lia).
  replace (- - k) with k by lia. replace (1 - - k) with (k + 1) by lia.
  assert (Hp : 0 < 2 ^ k) by (apply Z.pow_pos_nonneg; lia).
  rewrite Z.pow_add_r by lia. change (2 ^ 1) with 2.
  pose proof (Z.mul_div_le (2 * scaled + 2 ^ k) (2 ^ k * 2) ltac:(lia)) as H1.
  pose proof (Z.mul_succ_div_gt (2 * scaled + 2 ^ k) (2 ^ k * 2) ltac:(lia)) as H2.
  nia.
Qed.

Lemma nearestInteger_exact (scaled e : Z) :
  0 <= e -> nearestInteger scaled e = scaled * 2 ^ e.
Proof.
  intros He. unfold nearestInteger.
  by replace (0 <=? e) with true by (symmetry; apply Z.leb_le; lia).
Qed.

Lemma lowerChar_percent c : "%"%char = lowerChar c <-> "%"%char = c.
Proof.
  destruct c as [[] [] [] [] [] [] [] []]; vm_compute; split; intros H;
    first [reflexivity | discriminate H].
Qed.

Lemma includes_percent_sign_lower u : includes (toLowerCase u) "%" = includes u "%".
Proof.
  induction u as [|c u IH]; [done|].
  cbn [toLowerCase includes String.prefix]. rewrite IH. f_equal.
  pose proof (lowerChar_percent c) as Hc.
  destruct (ascii_dec "%" (lowerChar c)), (ascii_dec "%" c); try tauto.
  by destruct (toLowerCase u), u.
Qed.

(** C4, as the specification states it, fails on a non-finite value: the test
    is [isNaN], so [Infinity] goes on to the magnitude rules and prints as
    ["InfinityB"], not as ["N/A"]. *)
Lemma formatValue_infinity :
  absentOrNonFinite (Some infinity) = true /\
  formatValue (Some infinity) None = "InfinityB" /\
  formatValue (Some infinity) None <> "N/A" /\
  formatValue (Some neg_infinity) (Some "Percent") = "-Infinity%".
Proof.
  split; [|split; [|split]]; [vm_compute; reflexivity.. | | vm_compute; reflexivity].
  vm_compute. discriminate.
Qed.

(** C4 (amended). [formatValue] is a total function of its two arguments, and
    the first rule that applies decides:
    - an absent value or NaN gives ["N/A"];
    - otherwise a unit hint that holds ["percent"] in any letter case, or
      ["%"], gives [toFixed(2)] of the value followed by ["%"];
    - otherwise a unit hint that holds ["index"] in any letter case gives
      [toFixed(2)] of the value;
    - otherwise a magnitude of at least 1e9, 1e6 or 1e3 gives [toFixed(2)] of
      the value divided by it with the suffix ["B"], ["M"] or ["K"], and any
      other value gives its [toFixed(2)];
    - the letter case of the unit hint does not matter.
    [formatValue(1500000000, undefined)] is ["1.50B"],
    [formatValue(null, "percent")] is ["N/A"] and
    [formatValue(42.1, "Index")] is ["42.10"]. *)
Theorem formatValue_rules :
  (forall units, formatValue None units = "N/A") /\
  (forall x units, isNaN x = true -> formatValue (Some x) units = "N/A") /\
  (forall x units, isNaN x = false -> isPercentUnit units = true ->
     formatValue (Some x) units = (toFixed x 2 ++ "%")%string) /\
  (forall x units, isNaN x = false -> isPercentUnit units = false ->
     isIndexUnit units = true ->
     formatValue (Some x) units = toFixed x 2) /\
  (forall x units, isNaN x = false -> isPercentUnit units = false ->
     isIndexUnit units = false ->
     formatValue (Some x) units
     = if (1e9 <=? abs x)%float then (toFixed (x / 1e9) 2 ++ "B")%string
       else if (1e6 <=? abs x)%float then (toFixed (x / 1e6) 2 ++ "M")%string
       else if (1e3 <=? abs x)%float then (toFixed (x / 1e3) 2 ++ "K")%string
       else toFixed x 2) /\
  (forall v u u', toLowerCase u = toLowerCase u' ->
     formatValue v (Some u) = formatValue v (Some u')) /\
  formatValue (Some 1500000000%float) None = "1.50B" /\
  formatValue None (Some "percent") = "N/A" /\
  formatValue (Some 42.1%float) (Some "Index") = "42.10".
Proof.
  split; [done|]. split; [by intros x units Hx; cbn; rewrite Hx|].
  split; [by intros x units Hx Hp; cbn; rewrite Hx, Hp|].
  split; [by intros x units Hx Hp Hi; cbn; rewrite Hx, Hp, Hi|].
  split; [by intros x units Hx Hp Hi; cbn; rewrite Hx, Hp, Hi|].
  split.
  - intros v u u' Hu. unfold formatValue, isPercentUnit, isIndexUnit.
    by rewrite <- (includes_percent_sign_lower u), <- (includes_percent_sign_lower u'), Hu.
  - repeat split; vm_compute; reflexivity.
Qed.

Lemma formatValue_rules_witness :
  formatValue (Some 12.345%float) (Some "Percent of GDP") = (toFixed 12.345 2 ++ "%")%string /\
  formatValue (Some 101.5%float) (Some "INDEX 2012=100") = toFixed 101.5 2.
Proof.
  split.
  - apply (proj1 (proj2 (proj2 formatValue_rules))); vm_compute; reflexivity.
  - apply (proj1 (proj2 (proj2 (proj2 formatValue_rules)))); vm_compute; reflexivity.
Defined.

End ValueFormatter.

(** ** Properties of the configuration merge *)

Section ConfigResolver.

Implicit Types (d u : JSObject) (k side : string).

Lemma lookup_union_first (m1 m2 : JSObject) k :
  (m1 ∪ m2) !! k = match m1 !! k with Some v => Some v | None => m2 !! k end.
Proof. rewrite lookup_union. by destruct (m1 !! k), (m2 !! k). Qed.



End ConfigResolver.

(** ** Properties of [parseDate] *)

Section DateKey.

Variable parseOther : string -> option Z.

(** C8. A string [Date.parse] cannot read makes [parseDate] hand its caller
    the Invalid Date (the [Date] whose time value is NaN; no exception is
    thrown): the result holds no time at all, and so neither the epoch nor the
    current time nor any other stand-in.  A time [parseDate] does return for a
    string is the one the string denotes. *)
Theorem parseDate_unparseable_is_invalid :
  (forall s, Date_parse parseOther s = None ->
     parseDate parseOther (DateStr s) = InvalidDate /\
     forall t, getTime (parseDate parseOther (DateStr s)) <> Some t) /\
  (forall s t, getTime (parseDate parseOther (DateStr s)) = Some t ->
     Date_parse parseOther s = Some t).
Proof.
  split.
  - intros s Hs. unfold parseDate, newDate. rewrite Hs. by split.
  - intros s t. unfold parseDate, newDate. cbn [getTime].
    destruct (Date_parse parseOther s) as [t'|]; [|done]. cbn.
    unfold timeClip. by destruct (Z.abs t' <=? 8640000000000000); intros [= ->].
Qed.

End DateKey.

Lemma parseDate_unparseable_is_invalid_witness :
  parseDate dateOnlyEngine (DateStr "not a date") = InvalidDate /\
  forall t, getTime (parseDate dateOnlyEngine (DateStr "not a date")) <> Some t.
Proof.
  apply (proj1 (parseDate_unparseable_is_invalid dateOnlyEngine)). reflexivity.
Defined.

Example parseDate_year_only :
  parseDate dateOnlyEngine (DateStr "2020") = {| getTime := Some 1577836800000 |} /\
  parseDate dateOnlyEngine (DateStr "2020-01-01") = {| getTime := Some 1577836800000 |}.
Proof. split; reflexivity. Qed.

(** ** Properties of the sort *)

Section SortFacts.

Context {A : Type}.

Lemma insertSorted_Permutation (cmp : A -> A -> option Z) a l :
  JSArray.insertSorted cmp a l ≡ₚ a :: l.
Proof.
  induction l as [|b l IH]; [done|]. cbn.
  destruct (JSArray.sortsAfter cmp a b); [|done].
  rewrite IH. apply Permutation_swap.
Qed.

Lemma sort_Permutation (cmp : A -> A -> option Z) l : JSArray.sort cmp l ≡ₚ l.
Proof.
  unfold JSArray.sort. induction l as [|a l IH]; [done|]. cbn [foldr].
  by rewrite insertSorted_Permutation, IH.
Qed.

Variable time : A -> option Z.

Lemma notLater_trans a b c : notLater time a b -> notLater time b c -> notLater time a c.
Proof.
  intros (ta & tb & Ha & Hb & Hab) (tb' & tc & Hb' & Hc & Hbc).
  exists ta, tc. repeat split; [done..|]. rewrite Hb in Hb'. injection Hb' as <-. lia.
Qed.

Lemma insertSorted_sorted a l :
  is_Some (time a) -> Forall (fun b => is_Some (time b)) l ->
  StronglySorted (notLater time) l ->
  StronglySorted (notLater time) (JSArray.insertSorted (JSArray.compareByTime time) a l).
Proof.
  intros [ta Ha] Hl Hs. induction Hs as [|b l Hs IH Hb]; cbn.
  - repeat constructor.
  - inversion Hl as [|? ? [tb Htb] Hl']; subst.
    unfold JSArray.sortsAfter, JSArray.compareByTime. rewrite Ha, Htb. cbn.
    destruct (Z.ltb_spec 0 (ta - tb)) as [Hlt|Hge].
    + constructor; [by apply IH|].
      rewrite insertSorted_Permutation. constructor; [|done].
      exists tb, ta. repeat split; [done..|lia].
    + assert (Hab : notLater time a b) by (exists ta, tb; repeat split; [done..|lia]).
      constructor; [by constructor|].
      constructor; [done|].
      eapply Forall_impl; [exact Hb|]. intros c Hc. by eapply notLater_trans.
Qed.

(** When every element has a time, the sort puts them in ascending order. *)
Lemma sort_sorted l :
  Forall (fun b => is_Some (time b)) l ->
  StronglySorted (notLater time) (JSArray.sort (JSArray.compareByTime time) l).
Proof.
  induction l as [|a l IH]; intros Hl; [constructor|].
  inversion Hl as [|? ? Ha Hl']; subst.
  change (JSArray.sort (JSArray.compareByTime time) (a :: l))
    with (JSArray.insertSorted (JSArray.compareByTime time) a
            (JSArray.sort (JSArray.compareByTime time) l)).
  apply insertSorted_sorted; [done| |by apply IH].
  by rewrite sort_Permutation.
Qed.

End SortFacts.

(** ** The passes of [chartData] *)

Section AlignFacts.

Implicit Types (dm : DataMap) (ws : list Write) (w : Write) (k : string).
Implicit Types (ds : TimeSeriesDataset) (p : TimeSeriesDataPoint).

Lemma alterRow_alterRow k f g dm :
  alterRow k f (alterRow k g dm) = alterRow k (f ∘ g) dm.
Proof.
  unfold alterRow. rewrite map_map. apply map_ext. intros [k' r]. cbn.
  destruct (String.eqb k' k) eqn:Hk; cbn; by rewrite ?Hk.
Qed.

Lemma alterRow_keys k f dm : map fst (alterRow k f dm) = map fst dm.
Proof.
  unfold alterRow. rewrite map_map. apply map_ext. intros [k' r]. cbn.
  by destruct (String.eqb k' k).
Qed.

Lemma mapHas_true dm k : mapHas dm k = true <-> k ∈ map fst dm.
Proof.
  unfold mapHas. rewrite existsb_exists, list_elem_of_In, in_map_iff.
  split; intros ([k' r] & H1 & H2); exists (k', r); cbn in *.
  - apply String.eqb_eq in H2. by subst.
  - subst. split; [done|]. apply String.eqb_refl.
Qed.

Lemma addPoint_applyWrite ds p dm :
  addPoint ds p dm
  = (k ← dateStr (date p);
     Some (applyWrite dm {| wkey := k; wds := ds; wvalue := value p |})).
Proof.
  unfold addPoint, applyWrite, writeRow, mapAssign. cbn [wkey wds wvalue].
  destruct (dateStr (date p)) as [k|]; [|done]. cbn. f_equal.
  destruct (metadata ds) as [m|]; [|done].
  by rewrite alterRow_alterRow.
Qed.

Lemma addPoints_writes ds points dm :
  addPoints ds points dm
  = (ws ← writesOfPoints ds points; Some (fold_left applyWrite ws dm)).
Proof.
  revert dm. induction points as [|p rest IH]; intros dm; [done|].
  cbn [addPoints writesOfPoints]. rewrite addPoint_applyWrite.
  destruct (dateStr (date p)) as [k|]; [|done]. cbn. rewrite IH.
  by destruct (writesOfPoints ds rest).
Qed.

Lemma addDatasets_writes datasets dm :
  addDatasets datasets dm
  = (ws ← writesOf datasets; Some (fold_left applyWrite ws dm)).
Proof.
  revert dm. induction datasets as [|ds rest IH]; intros dm; [done|].
  cbn [addDatasets writesOf]. rewrite addPoints_writes.
  destruct (writesOfPoints ds (data ds)) as [ws|]; [|done]. cbn. rewrite IH.
  destruct (writesOf rest) as [ws'|]; [|done]. cbn. by rewrite fold_left_app.
Qed.

Lemma addDates_writes ds points (allDates : gset string) :
  addDates points allDates
  = (ws ← writesOfPoints ds points; Some (list_to_set (map wkey ws) ∪ allDates)).
Proof.
  revert allDates. induction points as [|p rest IH]; intros allDates.
  - cbn. f_equal. set_solver.
  - cbn [addDates writesOfPoints]. destruct (dateStr (date p)) as [k|]; [|done]. cbn.
    rewrite IH. destruct (writesOfPoints ds rest) as [ws|]; [|done]. cbn.
    f_equal. set_solver.
Qed.

Lemma collectDates_writes datasets (allDates : gset string) :
  collectDates datasets allDates
  = (ws ← writesOf datasets; Some (list_to_set (map wkey ws) ∪ allDates)).
Proof.
  revert allDates. induction datasets as [|ds rest IH]; intros allDates.
  - cbn. f_equal. set_solver.
  - cbn [collectDates writesOf]. rewrite (addDates_writes ds).
    destruct (writesOfPoints ds (data ds)) as [ws|]; [|done]. cbn. rewrite IH.
    destruct (writesOf rest) as [ws'|]; [|done]. cbn. f_equal.
    rewrite map_app, list_to_set_app_L. set_solver.
Qed.

Lemma rowOf_snoc k ws w :
  rowOf k (ws ++ [w])
  = if String.eqb (wkey w) k then writeRow w (rowOf k ws) else rowOf k ws.
Proof. unfold rowOf. by rewrite fold_left_app. Qed.

Lemma rowOf_fresh k ws : k ∉ map wkey ws -> rowOf k ws = {[ "date" := CString k ]}.
Proof.
  induction ws as [|w ws IH] using rev_ind; intros Hk; [done|].
  rewrite map_app, elem_of_app in Hk. cbn in Hk.
  rewrite rowOf_snoc.
  destruct (String.eqb_spec (wkey w) k) as [Heq|Hne].
  - exfalso. apply Hk. right. by apply list_elem_of_singleton.
  - apply IH. tauto.
Qed.

Lemma mapAfter_nil : mapAfter [] [].
Proof. split; [constructor|]. split; [done|constructor]. Qed.

Lemma mapAfter_step dm ws w :
  mapAfter dm ws -> mapAfter (applyWrite dm w) (ws ++ [w]).
Proof.
  intros (Hnd & Hkeys & Hrows). unfold applyWrite.
  assert (Hold : Forall (fun entry =>
            snd (if String.eqb (fst entry) (wkey w)
                 then (fst entry, writeRow w (snd entry)) else entry)
            = rowOf (fst (if String.eqb (fst entry) (wkey w)
                          then (fst entry, writeRow w (snd entry)) else entry))
                    (ws ++ [w])) dm).
  { eapply Forall_impl; [exact Hrows|]. intros [k r] Hr. cbn in *.
    rewrite rowOf_snoc. destruct (String.eqb_spec k (wkey w)) as [Heq|Hne]; cbn.
    - subst k. by rewrite String.eqb_refl, Hr.
    - rewrite (proj2 (String.eqb_neq (wkey w) k)) by done. done. }
  destruct (mapHas dm (wkey w)) eqn:Hhas.
  - apply mapHas_true in Hhas. split; [by rewrite alterRow_keys|]. split.
    + intros k. rewrite alterRow_keys, map_app, elem_of_app, Hkeys. cbn.
      rewrite list_elem_of_singleton. split; [tauto|].
      intros [H| ->]; [done|]. by apply Hkeys.
    + unfold alterRow. by apply Forall_map.
  - assert (Hfresh : wkey w ∉ map fst dm).
    { intros Hin. apply mapHas_true in Hin. congruence. }
    unfold mapSetNew. split; [|split].
    + rewrite alterRow_keys, map_app. cbn. apply NoDup_app. split; [done|].
      split; [|apply NoDup_singleton].
      intros k Hk Hk'. apply list_elem_of_singleton in Hk'. by subst.
    + intros k. rewrite alterRow_keys, !map_app, !elem_of_app, Hkeys. done.
    + unfold alterRow. apply Forall_map, Forall_app. split; [done|].
      constructor; [|constructor]. cbn. rewrite String.eqb_refl. cbn.
      rewrite rowOf_snoc, String.eqb_refl. f_equal. symmetry.
      apply rowOf_fresh. by rewrite <- Hkeys.
Qed.

Lemma mapAfter_writes ws' : forall dm ws,
  mapAfter dm ws -> mapAfter (fold_left applyWrite ws' dm) (ws ++ ws').
Proof.
  induction ws' as [|w ws' IH]; intros dm ws Hinv.
  - by rewrite app_nil_r.
  - cbn [fold_left]. replace (ws ++ w :: ws') with ((ws ++ [w]) ++ ws')
      by (by rewrite <- app_assoc).
    by apply IH, mapAfter_step.
Qed.

(** The rows are as many as the distinct date strings. *)
Lemma mapAfter_length dm ws :
  mapAfter dm ws -> length dm = size (list_to_set (map wkey ws) : gset string).
Proof.
  intros (Hnd & Hkeys & _).
  replace (list_to_set (map wkey ws) : gset string) with
    (list_to_set (map fst dm) : gset string).
  - rewrite size_list_to_set by done. by rewrite length_map.
  - apply set_eq. intros k. rewrite !elem_of_list_to_set. apply Hkeys.
Qed.

(** *** The cells of a row *)

Lemma string_length_append (s1 s2 : string) :
  String.length (s1 ++ s2)%string = (String.length s1 + String.length s2)%nat.
Proof. induction s1 as [|c s1 IH]; simpl; [done|]. by rewrite IH. Qed.

Lemma metadata_key_not_date (i : string) : (i ++ "_metadata")%string <> "date".
Proof.
  intros H. apply (f_equal String.length) in H.
  rewrite string_length_append in H. cbn in H. lia.
Qed.

Lemma setProperty_other (prop i : string) (cell : Cell) (row : Row) :
  prop <> i -> setProperty prop cell row !! i = row !! i.
Proof.
  intros H. unfold setProperty. destruct (String.eqb prop "__proto__"); [done|].
  by rewrite lookup_insert_ne.
Qed.

Lemma setProperty_is_Some (prop i : string) (cell : Cell) (row : Row) :
  is_Some (row !! i) -> is_Some (setProperty prop cell row !! i).
Proof.
  intros H. unfold setProperty. destruct (String.eqb prop "__proto__"); [done|].
  rewrite lookup_insert_is_Some'. by right.
Qed.

Lemma setProperty_own (prop : string) (cell : Cell) (row : Row) :
  prop <> "__proto__" -> setProperty prop cell row !! prop = Some cell.
Proof.
  intros H. unfold setProperty. apply String.eqb_neq in H. rewrite H.
  apply lookup_insert_eq.
Qed.

Lemma writeRow_other w (row : Row) (i : string) :
  id (wds w) <> i -> (id (wds w) ++ "_metadata")%string <> i ->
  writeRow w row !! i = row !! i.
Proof.
  intros H1 H2. unfold writeRow. destruct (metadata (wds w)).
  - by rewrite !setProperty_other.
  - by rewrite setProperty_other.
Qed.

Lemma writeRow_is_Some w (row : Row) (i : string) :
  is_Some (row !! i) -> is_Some (writeRow w row !! i).
Proof.
  intros H. unfold writeRow.
  destruct (metadata (wds w)); repeat apply setProperty_is_Some; done.
Qed.

Lemma writeRow_own w (row : Row) :
  id (wds w) <> "__proto__" -> is_Some (writeRow w row !! id (wds w)).
Proof.
  intros H. unfold writeRow.
  destruct (metadata (wds w)); [apply setProperty_is_Some|];
    by rewrite setProperty_own.
Qed.

Lemma rowOf_date k ws :
  (forall w, w ∈ ws -> id (wds w) <> "date") ->
  rowOf k ws !! "date" = Some (CString k).
Proof.
  induction ws as [|w ws IH] using rev_ind; intros Hid; [done|].
  rewrite rowOf_snoc.
  assert (IH' : rowOf k ws !! "date" = Some (CString k)).
  { apply IH. intros w' Hw'. apply Hid, elem_of_app. by left. }
  destruct (String.eqb (wkey w) k); [|done].
  rewrite writeRow_other; [done| |apply metadata_key_not_date].
  apply Hid, elem_of_app. right. by apply list_elem_of_singleton.
Qed.

Lemma rowOf_absent k ws (i : string) :
  i <> "date" ->
  (forall w, w ∈ ws -> wkey w = k ->
     id (wds w) <> i /\ (id (wds w) ++ "_metadata")%string <> i) ->
  rowOf k ws !! i = None.
Proof.
  intros Hi. induction ws as [|w ws IH] using rev_ind; intros Hw.
  - unfold rowOf. cbn. by rewrite lookup_singleton_ne.
  - rewrite rowOf_snoc.
    assert (IH' : rowOf k ws !! i = None).
    { apply IH. intros w' Hw'. apply Hw, elem_of_app. by left. }
    destruct (String.eqb_spec (wkey w) k) as [Heq|Hne]; [|done].
    destruct (Hw w) as [H1 H2]; [|done|].
    + apply elem_of_app. right. by apply list_elem_of_singleton.
    + by rewrite writeRow_other.
Qed.

Lemma rowOf_written k ws w :
  id (wds w) <> "__proto__" ->
  w ∈ ws -> wkey w = k -> is_Some (rowOf k ws !! id (wds w)).
Proof.
  intros Hproto. induction ws as [|w' ws IH] using rev_ind; intros Hin Hk.
  - by apply elem_of_nil in Hin.
  - rewrite rowOf_snoc. apply elem_of_app in Hin as [Hin|Hin].
    + specialize (IH Hin Hk). destruct (String.eqb (wkey w') k); [|done].
      by apply writeRow_is_Some.
    + apply list_elem_of_singleton in Hin. subst w'.
      rewrite Hk, String.eqb_refl. by apply writeRow_own.
Qed.

(** *** Which writes there are *)

Lemma writesOfPoints_elem ds points ws w :
  writesOfPoints ds points = Some ws ->
  w ∈ ws <-> exists p, p ∈ points /\ dateStr (date p) = Some (wkey w) /\
                       wds w = ds /\ wvalue w = value p.
Proof.
  revert ws. induction points as [|p rest IH]; intros ws Hws.
  - injection Hws as <-. split; [by intros ?%elem_of_nil|].
    by intros (p & ?%elem_of_nil & _).
  - cbn [writesOfPoints] in Hws.
    destruct (dateStr (date p)) as [k|] eqn:Hk; [|done]. cbn in Hws.
    destruct (writesOfPoints ds rest) as [ws'|]; [|done]. cbn in Hws.
    injection Hws as <-. rewrite elem_of_cons, (IH ws' eq_refl). split.
    + intros [->|(q & Hq & H)].
      * exists p. rewrite elem_of_cons. by auto.
      * exists q. rewrite elem_of_cons. by auto.
    + intros (q & Hq & Hd & Hs & Hv). apply elem_of_cons in Hq as [->|Hq].
      * left. destruct w as [k' ds' v']. cbn in *. congruence.
      * right. by exists q.
Qed.

Lemma writesOf_elem datasets ws w :
  writesOf datasets = Some ws ->
  w ∈ ws <-> exists p, wds w ∈ datasets /\ p ∈ data (wds w) /\
                       dateStr (date p) = Some (wkey w) /\ wvalue w = value p.
Proof.
  revert ws. induction datasets as [|ds rest IH]; intros ws Hws.
  - injection Hws as <-. split; [by intros ?%elem_of_nil|].
    by intros (p & ?%elem_of_nil & _).
  - cbn [writesOf] in Hws.
    destruct (writesOfPoints ds (data ds)) as [ws1|] eqn:H1; [|done]. cbn in Hws.
    destruct (writesOf rest) as [ws2|]; [|done]. cbn in Hws.
    injection Hws as <-.
    rewrite elem_of_app, (writesOfPoints_elem _ _ _ _ H1), (IH ws2 eq_refl). split.
    + intros [(p & Hp & Hd & Hs & Hv)|(p & Hin & H)].
      * exists p. subst ds. rewrite elem_of_cons. by auto.
      * exists p. rewrite elem_of_cons. by auto.
    + intros (p & Hin & Hp & Hd & Hv). apply elem_of_cons in Hin as [Heq|Hin].
      * left. exists p. by rewrite <- Heq.
      * right. by exists p.
Qed.

(** *** From the writes to the rows *)

Lemma validDate_dateStr d : validDate d -> is_Some (dateStr d).
Proof.
  destruct d as [s|d]; cbn; [by eexists|]. unfold toISOString.
  intros [t Ht]. rewrite Ht. by eexists.
Qed.

Lemma writesOfPoints_total ds points :
  (forall p, p ∈ points -> validDate (date p)) -> is_Some (writesOfPoints ds points).
Proof.
  induction points as [|p rest IH]; intros Hv; [by eexists|].
  cbn [writesOfPoints].
  destruct (validDate_dateStr (date p)) as [k ->]; [apply Hv; by left|]. cbn.
  destruct IH as [ws ->]; [intros q Hq; apply Hv; by right|]. by eexists.
Qed.

Lemma writesOf_total datasets : datesValid datasets -> is_Some (writesOf datasets).
Proof.
  induction datasets as [|ds rest IH]; intros Hv; [by eexists|].
  cbn [writesOf].
  destruct (writesOfPoints_total ds (data ds)) as [ws ->].
  { intros p Hp. apply (Hv ds p); [by left|done]. }
  cbn. destruct IH as [ws' ->]; [|by eexists].
  intros ds' p Hds Hp. apply (Hv ds' p); [by right|done].
Qed.

Lemma writesOf_key_elem datasets ws k :
  writesOf datasets = Some ws ->
  k ∈ map wkey ws <-> exists ds p, ds ∈ datasets /\ p ∈ data ds /\
                                   dateStr (date p) = Some k.
Proof.
  intros Hws. change (map wkey ws) with (wkey <$> ws). rewrite list_elem_of_fmap. split.
  - intros (w & -> & Hw). apply (writesOf_elem _ _ _ Hws) in Hw as (p & H1 & H2 & H3 & _).
    by exists (wds w), p.
  - intros (ds & p & Hds & Hp & Hk).
    exists {| wkey := k; wds := ds; wvalue := value p |}. split; [done|].
    apply (writesOf_elem _ _ _ Hws). by exists p.
Qed.

Lemma writesOf_keys datasets ws :
  writesOf datasets = Some ws ->
  (list_to_set (map wkey ws) : gset string) = dateKeys datasets.
Proof.
  intros Hws. apply set_eq. intros k. unfold dateKeys.
  rewrite !elem_of_list_to_set, (writesOf_key_elem _ _ _ Hws), list_elem_of_bind.
  split.
  - intros (ds & p & Hds & Hp & Hk). exists ds. split; [|done].
    apply list_elem_of_omap. by exists p.
  - intros (ds & (p & Hp & Hk)%list_elem_of_omap & Hds). by exists ds, p.
Qed.

Lemma chartData_writes parseOther datasets ws :
  datasets <> [] -> writesOf datasets = Some ws ->
  chartData parseOther datasets
  = Some (JSArray.sort (JSArray.compareByTime (rowTime parseOther))
            (map snd (fold_left applyWrite ws []))).
Proof.
  intros Hne Hws. unfold chartData. destruct datasets as [|ds rest]; [done|].
  cbn [length Nat.eqb]. rewrite collectDates_writes, addDatasets_writes, Hws. done.
Qed.

(** A point whose date is an Invalid Date has no date string: [toISOString]
    throws, and so does [chartData]. *)
Lemma chartData_invalid_date parseOther datasets :
  writesOf datasets = None -> datasets <> [] -> chartData parseOther datasets = None.
Proof.
  intros Hws Hne. unfold chartData. destruct datasets as [|ds rest]; [done|].
  cbn [length Nat.eqb]. by rewrite collectDates_writes, Hws.
Qed.

Lemma mapAfter_entry dm ws k :
  mapAfter dm ws -> k ∈ map wkey ws -> (k, rowOf k ws) ∈ dm.
Proof.
  intros (_ & Hkeys & Hrows) Hk. apply Hkeys in Hk.
  change (map fst dm) with (fst <$> dm) in Hk.
  apply list_elem_of_fmap in Hk as ([k' r] & -> & Hin).
  rewrite Forall_forall in Hrows. specialize (Hrows _ Hin). cbn in *. by subst r.
Qed.

Lemma mapAfter_row dm ws (row : Row) :
  mapAfter dm ws -> row ∈ map snd dm ->
  exists k, k ∈ map wkey ws /\ row = rowOf k ws.
Proof.
  intros (_ & Hkeys & Hrows) Hin.
  change (map snd dm) with (snd <$> dm) in Hin.
  apply list_elem_of_fmap in Hin as ([k r] & -> & Hin).
  rewrite Forall_forall in Hrows. exists k. split.
  - apply Hkeys. change (map fst dm) with (fst <$> dm).
    apply list_elem_of_fmap. by exists (k, r).
  - by apply (Hrows _ Hin).
Qed.

Lemma NoDup_ids_inj datasets ds ds' :
  NoDup (map id datasets) -> ds ∈ datasets -> ds' ∈ datasets -> id ds = id ds' ->
  ds = ds'.
Proof.
  induction datasets as [|d rest IH]; intros Hnd Hds Hds' Hid.
  - by apply elem_of_nil in Hds.
  - cbn in Hnd. apply NoDup_cons in Hnd as [Hd Hnd].
    assert (Hin : forall x, x ∈ rest -> id x ∈ map id rest).
    { intros x Hx. change (map id rest) with (id <$> rest).
      by apply list_elem_of_fmap_2. }
    apply elem_of_cons in Hds as [->|Hds], Hds' as [->|Hds']; [done| | |by apply IH].
    + exfalso. apply Hd. rewrite Hid. by apply Hin.
    + exfalso. apply Hd. rewrite <- Hid. by apply Hin.
Qed.

End AlignFacts.

(** ** Properties of the alignment *)

Section SeriesAligner.

Variable parseOther : string -> option Z.

Implicit Types (datasets : list TimeSeriesDataset) (rows : list Row).

(** The rows of a non-empty input, with what the passes establish. *)
Lemma chartData_rows datasets :
  datasets <> [] -> datesValid datasets ->
  exists ws dm rows,
    writesOf datasets = Some ws /\ mapAfter dm ws /\
    chartData parseOther datasets = Some rows /\ rows ≡ₚ map snd dm.
Proof.
  intros Hne Hv. destruct (writesOf_total datasets Hv) as [ws Hws].
  exists ws, (fold_left applyWrite ws []). eexists. split; [done|]. split.
  - apply (mapAfter_writes ws [] []), mapAfter_nil.
  - split; [by apply chartData_writes|]. apply sort_Permutation.
Qed.

Lemma writtenKey_dateStr (d : DateField) : writtenKey d = dateStr d.
Proof. destruct d as [s|[[t|]]]; reflexivity. Qed.

Lemma writtenKeys_dateKeys datasets : writtenKeys datasets = dateKeys datasets.
Proof.
  unfold writtenKeys, dateKeys. f_equal.
Qed.

Lemma writesOfPoints_invalid ds (points : list TimeSeriesDataPoint) p :
  p ∈ points -> dateStr (date p) = None -> writesOfPoints ds points = None.
Proof.
  intros Hp Hd. induction points as [|q rest IH]; [by apply elem_of_nil in Hp|].
  cbn [writesOfPoints]. apply elem_of_cons in Hp as [<-|Hp].
  - by rewrite Hd.
  - destruct (dateStr (date q)); [|done]. cbn. by rewrite IH.
Qed.

Lemma writesOf_invalid datasets ds p :
  ds ∈ datasets -> p ∈ data ds -> dateStr (date p) = None -> writesOf datasets = None.
Proof.
  intros Hds Hp Hd. induction datasets as [|d rest IH]; [by apply elem_of_nil in Hds|].
  cbn [writesOf]. apply elem_of_cons in Hds as [<-|Hds].
  - by rewrite (writesOfPoints_invalid ds (data ds) p Hp Hd).
  - destruct (writesOfPoints d (data d)); [|done]. cbn. by rewrite IH.
Qed.

(** C1 (amended). No dataset, no row.  When the dates are strings or valid
    [Date]s there is one row per distinct date as it is written (the string
    as it stands, a [Date] in its ISO form): the rows are as many as these
    written dates, not as many as the instants they denote; and when the ids
    are those of distinct columns, every written date heads a row, and in the
    row of a date at which a dataset has no point, that dataset has no value.
    A point whose date is an Invalid Date makes the alignment throw. *)
Theorem chartData_rows_are_union_of_written_dates :
  chartData parseOther [] = Some [] /\
  (forall datasets, datesValid datasets ->
     exists rows,
       chartData parseOther datasets = Some rows /\
       length rows = size (writtenKeys datasets) /\
       (idsDistinct datasets ->
          (forall k, k ∈ writtenKeys datasets ->
             exists row, row ∈ rows /\ row !! "date" = Some (CString k)) /\
          (forall ds row k,
             ds ∈ datasets -> row ∈ rows -> row !! "date" = Some (CString k) ->
             (forall p, p ∈ data ds -> writtenKey (date p) <> Some k) ->
             row !! id ds = None))) /\
  (forall datasets ds p d,
     ds ∈ datasets -> p ∈ data ds -> date p = DateObj d -> getTime d = None ->
     chartData parseOther datasets = None).
Proof.
  split; [done|]. split.
  - intros datasets Hv. rewrite writtenKeys_dateKeys.
    destruct datasets as [|ds0 rest] eqn:Hd.
    { exists []. split; [done|]. split; [done|]. intros _. split.
      - intros k Hk. unfold dateKeys in Hk. cbn in Hk. set_solver.
      - by intros ds row k ?%elem_of_nil. }
    rewrite <- Hd in *. assert (Hne : datasets <> []) by (by subst).
    clear Hd ds0 rest.
    destruct (chartData_rows datasets Hne Hv)
      as (ws & dm & rows & Hws & Hinv & Hrows & Hperm).
    exists rows. split; [done|]. split.
    { rewrite Hperm, length_map, (mapAfter_length dm ws Hinv).
      by rewrite (writesOf_keys _ _ Hws). }
    intros [Hnd Hids].
    assert (Hdate : forall k, rowOf k ws !! "date" = Some (CString k)).
    { intros k. apply rowOf_date. intros w Hw.
      apply (writesOf_elem _ _ _ Hws) in Hw as (p & Hin & _).
      by apply (Hids (wds w) (wds w)). }
    split.
    + intros k Hk. rewrite <- (writesOf_keys _ _ Hws), elem_of_list_to_set in Hk.
      exists (rowOf k ws). split; [|done].
      rewrite Hperm. change (map snd dm) with (snd <$> dm).
      apply list_elem_of_fmap. exists (k, rowOf k ws). split; [done|].
      by apply mapAfter_entry.
    + intros ds row k Hds Hrow Hk Hno. rewrite Hperm in Hrow.
      destruct (mapAfter_row dm ws row Hinv Hrow) as (k' & Hk' & ->).
      rewrite Hdate in Hk. injection Hk as ->.
      apply rowOf_absent; [by apply (Hids ds ds)|].
      intros w Hw Hwk.
      apply (writesOf_elem _ _ _ Hws) in Hw as (p & Hin & Hp & Hstr & _).
      split; [|intros Heq; by apply (Hids ds (wds w))].
      intros Heq. apply (NoDup_ids_inj datasets) in Heq; [|done..].
      subst ds. apply (Hno p Hp). by rewrite writtenKey_dateStr, Hstr, Hwk.
  - intros datasets ds p d Hds Hp Hdate Hd.
    apply chartData_invalid_date.
    + apply (writesOf_invalid datasets ds p Hds Hp).
      rewrite Hdate. unfold dateStr, toISOString. by rewrite Hd.
    + intros ->. by apply elem_of_nil in Hds.
Qed.

(** C6 (amended). When every date string can be read as a date and no dataset
    has the id ["date"] or ["__proto__"], the rows are in ascending order of
    time (two rows may have the same time), no two rows have the same date
    string, and every point is in the row of its date string: points collapse
    into one row when, and only when, they have the same date string. *)
Theorem chartData_rows_ascending :
  forall datasets,
    datesValid datasets ->
    (forall ds, ds ∈ datasets -> id ds <> "date" /\ id ds <> "__proto__") ->
    (forall k, k ∈ dateKeys datasets -> is_Some (getTime (newDate parseOther k))) ->
    exists rows,
      chartData parseOther datasets = Some rows /\
      StronglySorted (notLater (rowTime parseOther)) rows /\
      NoDup (map (fun row : Row => row !! "date") rows) /\
      (forall ds p k,
         ds ∈ datasets -> p ∈ data ds -> dateStr (date p) = Some k ->
         exists row, row ∈ rows /\ row !! "date" = Some (CString k) /\
                     is_Some (row !! id ds)).
Proof.
  intros datasets Hv Hids Hparse.
  destruct datasets as [|ds0 rest] eqn:Hd.
  { exists []. split; [done|]. split; [constructor|]. split; [constructor|].
    by intros ds p k ?%elem_of_nil. }
  rewrite <- Hd in *. assert (Hne : datasets <> []) by (by subst).
  clear Hd ds0 rest.
  destruct (writesOf_total datasets Hv) as [ws Hws].
  pose proof (mapAfter_writes ws [] [] mapAfter_nil) as Hinv. cbn [app] in Hinv.
  set (dm := fold_left applyWrite ws []) in *.
  assert (Hdate : forall k, rowOf k ws !! "date" = Some (CString k)).
  { intros k. apply rowOf_date. intros w Hw.
    apply (writesOf_elem _ _ _ Hws) in Hw as (p & Hin & _). by apply Hids. }
  assert (Hperm : JSArray.sort (JSArray.compareByTime (rowTime parseOther)) (map snd dm)
                  ≡ₚ map snd dm) by apply sort_Permutation.
  exists (JSArray.sort (JSArray.compareByTime (rowTime parseOther)) (map snd dm)).
  split; [by apply chartData_writes|]. split; [|split].
  - apply sort_sorted. apply Forall_forall. intros row Hrow.
    destruct (mapAfter_row dm ws row Hinv Hrow) as (k & Hk & ->).
    unfold rowTime. rewrite Hdate. apply Hparse.
    rewrite <- (writesOf_keys _ _ Hws). by apply elem_of_list_to_set.
  - assert (Hp2 : map (fun row : Row => row !! "date")
                    (JSArray.sort (JSArray.compareByTime (rowTime parseOther)) (map snd dm))
                  ≡ₚ map (fun row : Row => row !! "date") (map snd dm))
      by apply Permutation_map, Hperm.
    rewrite Hp2.
    destruct Hinv as (Hnd & _ & Hrows).
    replace (map (fun row : Row => row !! "date") (map snd dm))
      with (map (fun k => Some (CString k)) (map fst dm)).
    + assert (Hinj : Inj (=) (=) (fun k : string => Some (CString k)))
        by (by intros k1 k2 [= ->]).
      by apply (NoDup_fmap_2 (fun k => Some (CString k))).
    + rewrite !map_map. apply map_ext_Forall.
      eapply Forall_impl; [exact Hrows|]. intros [k r] Hr. cbn in *.
      by rewrite Hr, Hdate.
  - intros ds p k Hds Hp Hk.
    set (w := {| wkey := k; wds := ds; wvalue := value p |}).
    assert (Hw : w ∈ ws) by (apply (writesOf_elem _ _ _ Hws); by exists p).
    exists (rowOf k ws). split; [|split; [done|]].
    + rewrite Hperm. change (map snd dm) with (snd <$> dm).
      apply list_elem_of_fmap. exists (k, rowOf k ws). split; [done|].
      apply mapAfter_entry; [done|].
      change (map wkey ws) with (wkey <$> ws). by apply (list_elem_of_fmap_2 wkey _ w).
    + apply (rowOf_written k ws w); [by apply Hids|done..].
Qed.

End SeriesAligner.

Lemma datesValid_Forall datasets :
  Forall (fun ds => Forall (fun p => validDate (date p)) (data ds)) datasets ->
  datesValid datasets.
Proof.
  intros H ds p Hds Hp. rewrite Forall_forall in H. specialize (H ds Hds).
  rewrite Forall_forall in H. by apply H.
Qed.

Lemma dateKeys_Forall (P : string -> Prop) datasets :
  Forall P (datasets ≫= fun ds => omap (fun p => dateStr (date p)) (data ds)) ->
  forall k, k ∈ dateKeys datasets -> P k.
Proof.
  intros H k Hk. unfold dateKeys in Hk. rewrite elem_of_list_to_set in Hk.
  rewrite Forall_forall in H. by apply H.
Qed.

Lemma idsDistinct_two (a b : TimeSeriesDataset) :
  id a <> id b -> id a <> "date" -> id b <> "date" ->
  id a <> (id b ++ "_metadata")%string -> id b <> (id a ++ "_metadata")%string ->
  idsDistinct [a; b].
Proof.
  intros Hab Ha Hb Hamb Hbma. split.
  - cbn. apply NoDup_cons. split; [|apply NoDup_singleton].
    by intros H%list_elem_of_singleton.
  - assert (Hself : forall i : string, i <> (i ++ "_metadata")%string).
    { intros i H. apply (f_equal String.length) in H.
      rewrite string_length_append in H. cbn in H. lia. }
    intros ds ds' Hds Hds'.
    apply elem_of_cons in Hds as [->|Hds]; [|apply list_elem_of_singleton in Hds as ->];
      (apply elem_of_cons in Hds' as [->|Hds'];
       [|apply list_elem_of_singleton in Hds' as ->]); split; auto.
Qed.

Lemma chartData_rows_are_union_of_written_dates_witness :
  exists rows,
    chartData dateOnlyEngine [gdpSeries; cpiSeries] = Some rows /\
    length rows = size (writtenKeys [gdpSeries; cpiSeries]) /\
    (forall k, k ∈ writtenKeys [gdpSeries; cpiSeries] ->
       exists row, row ∈ rows /\ row !! "date" = Some (CString k)) /\
    (forall ds row k,
       ds ∈ [gdpSeries; cpiSeries] -> row ∈ rows ->
       row !! "date" = Some (CString k) ->
       (forall p, p ∈ data ds -> writtenKey (date p) <> Some k) ->
       row !! id ds = None).
Proof.
  destruct (chartData_rows_are_union_of_written_dates dateOnlyEngine) as (_ & H & _).
  destruct (H [gdpSeries; cpiSeries]) as (rows & Hrows & Hlen & Hcols).
  { apply datesValid_Forall. repeat constructor. }
  exists rows. split; [done|]. split; [done|].
  apply Hcols. apply idsDistinct_two; done.
Defined.

(** C1, as the specification states it, fails: the date keys of the
    specification are canonical, and the two series have points at two
    instants (the first of January of 2020, written ["2020"] and
    ["2020-01-01"], and of 2021), but the alignment has three rows. *)
Lemma chartData_more_rows_than_instants :
  exists rows,
    chartData dateOnlyEngine [gdpSeries; cpiSeries] = Some rows /\
    length rows = 3%nat /\
    size (canonicalKeys dateOnlyEngine [gdpSeries; cpiSeries]) = 2%nat /\
    length rows <> size (canonicalKeys dateOnlyEngine [gdpSeries; cpiSeries]).
Proof.
  eexists. split; [vm_compute; reflexivity|].
  split; [reflexivity|]. split; [vm_compute; reflexivity|].
  vm_compute. discriminate.
Qed.

(** The rows of the two series: three dates, each with the values of the
    datasets that have a point there. *)
Example chartData_two_series :
  chartData dateOnlyEngine [gdpSeries; cpiSeries]
  = Some [ {[ "date" := CString "2020"; "gdp" := CNumber (Some 1%float) ]};
           {[ "date" := CString "2020-01-01"; "cpi" := CNumber (Some 3%float);
              "cpi_metadata" := CMetadata {| units := Some "Index"; frequency := None;
                                             seasonal_adjustment := None |} ]};
           {[ "date" := CString "2021"; "gdp" := CNumber (Some 2%float);
              "cpi" := CNumber None;
              "cpi_metadata" := CMetadata {| units := Some "Index"; frequency := None;
                                             seasonal_adjustment := None |} ]} ].
Proof. vm_compute. reflexivity. Qed.

(** C6, as the specification states it, fails: ["2020"] and ["2020-01-01"]
    denote the same instant, and the points that carry them end in two rows
    of the same time, one after the other. *)
Lemma chartData_same_instant_two_rows :
  exists row1 row2,
    chartData dateOnlyEngine
      [ {| id := "gdp"; label := "GDP"; data := [pt "2020" (Some 1%float)];
           metadata := None |};
        {| id := "cpi"; label := "CPI"; data := [pt "2020-01-01" (Some 3%float)];
           metadata := None |} ]
    = Some [row1; row2] /\
    row1 !! "date" = Some (CString "2020") /\
    row2 !! "date" = Some (CString "2020-01-01") /\
    rowTime dateOnlyEngine row1 = Some 1577836800000 /\
    rowTime dateOnlyEngine row2 = Some 1577836800000.
Proof.
  exists {[ "date" := CString "2020"; "gdp" := CNumber (Some 1%float) ]},
         {[ "date" := CString "2020-01-01"; "cpi" := CNumber (Some 3%float) ]}.
  repeat split; vm_compute; reflexivity.
Qed.

Lemma chartData_rows_ascending_witness :
  exists rows,
    chartData dateOnlyEngine [gdpSeries; cpiSeries] = Some rows /\
    StronglySorted (notLater (rowTime dateOnlyEngine)) rows /\
    NoDup (map (fun row : Row => row !! "date") rows) /\
    (forall ds p k,
       ds ∈ [gdpSeries; cpiSeries] -> p ∈ data ds -> dateStr (date p) = Some k ->
       exists row, row ∈ rows /\ row !! "date" = Some (CString k) /\
                   is_Some (row !! id ds)).
Proof.
  apply (chartData_rows_ascending dateOnlyEngine).
  - apply datesValid_Forall. repeat constructor.
  - intros ds Hds. rewrite !elem_of_cons in Hds.
    destruct Hds as [->|[->|?%elem_of_nil]]; [by split..|done].
  - apply dateKeys_Forall. repeat constructor; vm_compute; by eexists.
Defined.

(** ** What the transforms do to the store *)

Section StoreFacts.

Import Heap.

Implicit Types (st : Store) (refs kept : list loc) (l a data result : loc).
Implicit Types (ps : list TimeSeriesDataPoint) (p : TimeSeriesDataPoint).

Lemma framed_refl st : framed st st.
Proof. by split. Qed.

Lemma framed_trans st1 st2 st3 : framed st1 st2 -> framed st2 st3 -> framed st1 st3.
Proof. intros [H1 H2] [H3 H4]. split; by etrans. Qed.

Lemma derefs_cons st l refs :
  derefs st (l :: refs) = (p ← points st !! l; ps ← derefs st refs; Some (p :: ps)).
Proof. done. Qed.

Lemma derefs_app st refs1 refs2 ps1 ps2 :
  derefs st refs1 = Some ps1 -> derefs st refs2 = Some ps2 ->
  derefs st (refs1 ++ refs2) = Some (ps1 ++ ps2).
Proof.
  unfold derefs. rewrite !mapM_Some. apply Forall2_app.
Qed.

Lemma derefs_mono st st' refs ps :
  points st ⊆ points st' -> derefs st refs = Some ps -> derefs st' refs = Some ps.
Proof.
  intros Hsub. unfold derefs. rewrite !mapM_Some. intros H.
  eapply Forall2_impl; [exact H|]. intros l p Hl. cbn in *.
  exact (lookup_weaken _ _ _ _ Hl Hsub).
Qed.

Lemma derefs_lookup st refs ps (n : nat) l :
  derefs st refs = Some ps -> refs !! n = Some l ->
  exists p, ps !! n = Some p /\ points st !! l = Some p.
Proof.
  unfold derefs. rewrite mapM_Some. intros H Hl.
  destruct (Forall2_lookup_l _ _ _ _ _ H Hl) as (p & Hp & Hlp). by exists p.
Qed.

Lemma derefs_lookup_None st refs ps (n : nat) :
  derefs st refs = Some ps -> refs !! n = None -> ps !! n = None.
Proof.
  unfold derefs. rewrite mapM_Some. intros H Hl.
  apply lookup_ge_None. apply lookup_ge_None in Hl.
  by rewrite <- (Forall2_length _ _ _ H).
Qed.

Lemma derefs_length st refs ps : derefs st refs = Some ps -> length refs = length ps.
Proof. unfold derefs. rewrite mapM_Some. apply Forall2_length. Qed.

Lemma contents_framed st st' a ps :
  framed st st' -> contents st a = Some ps -> contents st' a = Some ps.
Proof.
  intros [Hp Ha]. unfold contents.
  destruct (arrays st !! a) as [refs|] eqn:Hrefs; [|done]. cbn.
  rewrite (lookup_weaken _ _ _ _ Hrefs Ha). cbn. by apply derefs_mono.
Qed.

(** *** The primitives *)

Lemma newArray_run refs st :
  exists a, newArray refs st
            = Some (a, {| points := points st; arrays := <[ a := refs ]> (arrays st) |})
            /\ arrays st !! a = None.
Proof.
  eexists. split; [done|]. apply not_elem_of_dom, is_fresh.
Qed.

Lemma newPoint_run p st :
  exists l, newPoint p st
            = Some (l, {| points := <[ l := p ]> (points st); arrays := arrays st |})
            /\ points st !! l = None.
Proof.
  eexists. split; [done|]. apply not_elem_of_dom, is_fresh.
Qed.

Lemma readPoints_run st refs ps :
  derefs st refs = Some ps -> readPoints refs st = Some (ps, st).
Proof.
  revert ps. induction refs as [|l refs IH]; intros ps H.
  - by injection H as <-.
  - rewrite derefs_cons in H. cbn [readPoints].
    unfold mbind, run_bind, readPoint.
    destruct (points st !! l) as [p|]; [|done]. cbn in *.
    destruct (derefs st refs) as [ps'|]; [|done]. cbn in H. injection H as <-.
    by rewrite (IH ps' eq_refl).
Qed.

Lemma run_bind_Some {A B} (m : Run A) (f : A -> Run B) st (x : A) st' :
  m st = Some (x, st') -> (m ≫= f) st = f x st'.
Proof. intros H. unfold mbind, run_bind. by rewrite H. Qed.

Lemma readArray_run st a refs :
  arrays st !! a = Some refs -> readArray a st = Some (refs, st).
Proof. intros H. unfold readArray. by rewrite H. Qed.

Lemma readPoint_run st l p :
  points st !! l = Some p -> readPoint l st = Some (p, st).
Proof. intros H. unfold readPoint. by rewrite H. Qed.

(** *** [remove] and [zero] *)

Lemma filterValid_run st refs ps :
  derefs st refs = Some ps ->
  exists kept,
    filterValid refs st = Some (kept, st) /\
    derefs st kept = Some (List.filter (fun p => hasValue (value p)) ps).
Proof.
  revert ps. induction refs as [|l refs IH]; intros ps H.
  - injection H as <-. by exists [].
  - rewrite derefs_cons in H.
    destruct (points st !! l) as [p|] eqn:Hl; [|done]. cbn in H.
    destruct (derefs st refs) as [ps'|] eqn:Hrest; [|done]. cbn in H.
    injection H as <-. destruct (IH ps' eq_refl) as (kept & Hrun & Hkept).
    cbn [filterValid].
    rewrite (run_bind_Some _ _ _ _ _ (readPoint_run _ _ _ Hl)).
    rewrite (run_bind_Some _ _ _ _ _ Hrun). cbn [List.filter].
    destruct (hasValue (value p)); eexists; (split; [done|]); [|done].
    by rewrite derefs_cons, Hl, Hkept.
Qed.

Lemma mapZeroFill_run refs : forall st ps,
  derefs st refs = Some ps ->
  exists refs' st',
    mapZeroFill refs st = Some (refs', st') /\
    points st ⊆ points st' /\ arrays st' = arrays st /\
    derefs st' refs' = Some (map Pure.zeroFill ps).
Proof.
  induction refs as [|l refs IH]; intros st ps H.
  - injection H as <-. by exists [], st.
  - rewrite derefs_cons in H.
    destruct (points st !! l) as [p|] eqn:Hl; [|done]. cbn in H.
    destruct (derefs st refs) as [ps'|] eqn:Hrest; [|done]. cbn in H.
    injection H as <-.
    destruct (newPoint_run (Pure.zeroFill p) st) as (l' & Hnew & Hfresh).
    set (st1 := {| points := <[ l' := Pure.zeroFill p ]> (points st);
                   arrays := arrays st |}) in *.
    assert (Hsub1 : points st ⊆ points st1) by (by apply insert_subseteq).
    destruct (IH st1 ps' (derefs_mono _ _ _ _ Hsub1 Hrest))
      as (refs' & st2 & Hrun & Hsub2 & Harr & Hrefs').
    exists (l' :: refs'), st2. cbn [mapZeroFill].
    rewrite (run_bind_Some _ _ _ _ _ (readPoint_run _ _ _ Hl)).
    rewrite (run_bind_Some _ _ _ _ _ Hnew).
    rewrite (run_bind_Some _ _ _ _ _ Hrun).
    split; [done|]. split; [by etrans|]. split; [done|].
    rewrite derefs_cons, Hrefs'.
    rewrite (lookup_weaken (points st1) (points st2) l' (Pure.zeroFill p));
      [done| |done].
    apply lookup_insert_eq.
Qed.

(** *** [interpolate]: the loop on the store follows the loop on the
    sequence *)

Section InterpolateOnStore.

Variables (st0 : Store) (data result : loc).
Variables (refs0 : list loc) (pdata : list TimeSeriesDataPoint).

Hypothesis Hdata : arrays st0 !! data = Some refs0.
Hypothesis Hpdata : derefs st0 refs0 = Some pdata.
Hypothesis Hresult : arrays st0 !! result = None.

Lemma duringLoop_data st rps :
  duringLoop st0 result st rps -> readArray data st = Some (refs0, st).
Proof.
  intros (_ & rrefs & Harr & _). apply readArray_run.
  rewrite Harr, lookup_insert_ne; [done|]. intros ->. congruence.
Qed.

Lemma duringLoop_push st rps l p :
  duringLoop st0 result st rps -> points st !! l = Some p ->
  exists st', push result l st = Some (tt, st') /\ duringLoop st0 result st' (rps ++ [p]).
Proof.
  intros (Hsub & rrefs & Harr & Hrps) Hl.
  assert (Hr : arrays st !! result = Some rrefs)
    by (rewrite Harr; apply lookup_insert_eq).
  exists {| points := points st; arrays := <[ result := rrefs ++ [l] ]> (arrays st) |}.
  split.
  - unfold push. by rewrite Hr.
  - split; [done|]. exists (rrefs ++ [l]). cbn [arrays]. split.
    + by rewrite Harr, insert_insert_eq.
    + apply derefs_app; [exact Hrps|]. unfold derefs. cbn. by rewrite Hl.
Qed.

Lemma duringLoop_newPoint st rps p :
  duringLoop st0 result st rps ->
  exists l st', newPoint p st = Some (l, st') /\ duringLoop st0 result st' rps /\
                points st' !! l = Some p.
Proof.
  intros (Hsub & rrefs & Harr & Hrps).
  destruct (newPoint_run p st) as (l & Hnew & Hfresh).
  eexists _, _. split; [exact Hnew|].
  assert (Hsub1 : points st ⊆ <[ l := p ]> (points st)) by (by apply insert_subseteq).
  split; [|apply lookup_insert_eq]. split; [by etrans|].
  exists rrefs. split; [done|]. by eapply derefs_mono.
Qed.

Lemma fillGap_run (lv v : float) (lvi i : Z) js : forall st rps,
  duringLoop st0 result st rps ->
  exists st',
    Heap.fillGap data result lv v lvi i js st = Some (tt, st') /\
    duringLoop st0 result st'
      (rps ++ omap (fun j : Z =>
                      point ← pdata !! Z.to_nat j;
                      Some {| date := date point;
                              value := Some (lv + (v - lv) *
                                (ofIndex (j - lvi) / ofIndex (i - lvi)))%float |}) js).
Proof.
  induction js as [|j js IH]; intros st rps Hinv.
  - exists st. split; [done|]. by rewrite app_nil_r.
  - cbn [Heap.fillGap omap list_omap].
    rewrite (run_bind_Some _ _ _ _ _ (duringLoop_data _ _ Hinv)).
    destruct (refs0 !! Z.to_nat j) as [l|] eqn:Hl.
    + destruct (derefs_lookup _ _ _ _ _ Hpdata Hl) as (p & Hp & Hlp).
      rewrite Hp. cbn [mbind option_bind].
      assert (Hlp' : points st !! l = Some p)
        by exact (lookup_weaken _ _ _ _ Hlp (proj1 Hinv)).
      rewrite (run_bind_Some _ _ _ _ _ (readPoint_run _ _ _ Hlp')).
      set (np := {| date := date p;
                    value := Some (lv + (v - lv) *
                      (ofIndex (j - lvi) / ofIndex (i - lvi)))%float |}).
      destruct (duringLoop_newPoint st rps np Hinv) as (l' & st1 & Hnew & Hinv1 & Hl').
      rewrite (run_bind_Some _ _ _ _ _ Hnew).
      destruct (duringLoop_push st1 rps l' np Hinv1 Hl') as (st2 & Hpush & Hinv2).
      rewrite (run_bind_Some _ _ _ _ _ Hpush).
      destruct (IH st2 _ Hinv2) as (st3 & Hrun & Hinv3).
      exists st3. split; [done|]. by rewrite <- app_assoc in Hinv3.
    + rewrite (derefs_lookup_None _ _ _ _ Hpdata Hl). cbn [mbind option_bind].
      by apply IH.
Qed.

Lemma interpStep_run st vars pst (i : Z) :
  simulates st0 result st vars pst ->
  exists vars' st',
    Heap.interpStep data result vars i st = Some (vars', st') /\
    simulates st0 result st' vars' (Pure.interpStep pdata pst i).
Proof.
  intros [Hinv ->]. unfold Heap.interpStep, Pure.interpStep.
  rewrite (run_bind_Some _ _ _ _ _ (duringLoop_data _ _ Hinv)).
  destruct (refs0 !! Z.to_nat i) as [l|] eqn:Hl.
  2:{ rewrite (derefs_lookup_None _ _ _ _ Hpdata Hl). by eexists _, st. }
  destruct (derefs_lookup _ _ _ _ _ Hpdata Hl) as (p & Hp & Hlp). rewrite Hp.
  assert (Hlp' : points st !! l = Some p)
    by exact (lookup_weaken _ _ _ _ Hlp (proj1 Hinv)).
  rewrite (run_bind_Some _ _ _ _ _ (readPoint_run _ _ _ Hlp')).
  assert (Hpush : exists st',
            (push result l ≫= fun _ =>
               mret (Pure.lastValidValue pst, Pure.lastValidIndex pst)) st
            = Some ((Pure.lastValidValue pst, Pure.lastValidIndex pst), st') /\
            duringLoop st0 result st' (Pure.result pst ++ [p])).
  { destruct (duringLoop_push st _ l p Hinv Hlp') as (st' & Hpush & Hinv').
    exists st'. by rewrite (run_bind_Some _ _ _ _ _ Hpush). }
  destruct (value p) as [v|]; [destruct (negb (isNaN v))|].
  - set (filled := if (0 <=? Pure.lastValidIndex pst)
                        && (Pure.lastValidIndex pst <? i - 1)
                   then match Pure.lastValidValue pst with
                        | Some lv => Pure.fillGap pdata lv v (Pure.lastValidIndex pst) i
                        | None => []
                        end
                   else []).
    assert (Hfill : exists st1,
      (if (0 <=? Pure.lastValidIndex pst) && (Pure.lastValidIndex pst <? i - 1)
       then match Pure.lastValidValue pst with
            | Some lv => Heap.fillGap data result lv v (Pure.lastValidIndex pst) i
                           (seqZ (Pure.lastValidIndex pst + 1)
                                 (i - Pure.lastValidIndex pst - 1))
            | None => mret tt
            end
       else mret tt) st = Some (tt, st1) /\
      duringLoop st0 result st1 (Pure.result pst ++ filled)).
    { subst filled.
      destruct ((0 <=? Pure.lastValidIndex pst) && (Pure.lastValidIndex pst <? i - 1)).
      - destruct (Pure.lastValidValue pst) as [lv|].
        + by apply fillGap_run.
        + exists st. by rewrite app_nil_r.
      - exists st. by rewrite app_nil_r. }
    destruct Hfill as (st1 & Hfill & Hinv1).
    rewrite (run_bind_Some _ _ _ _ _ Hfill).
    assert (Hlp1 : points st1 !! l = Some p)
      by exact (lookup_weaken _ _ _ _ Hlp (proj1 Hinv1)).
    destruct (duringLoop_push st1 _ l p Hinv1 Hlp1) as (st2 & Hpush2 & Hinv2).
    rewrite (run_bind_Some _ _ _ _ _ Hpush2).
    eexists _, st2. split; [done|]. split; [|done]. done.
  - destruct Hpush as (st' & Hrun & Hinv'). by eexists _, st'.
  - destruct Hpush as (st' & Hrun & Hinv'). by eexists _, st'.
Qed.

Lemma interpLoop_run indices : forall st vars pst,
  simulates st0 result st vars pst ->
  exists st',
    Heap.interpLoop data result vars indices st = Some (tt, st') /\
    duringLoop st0 result st' (Pure.result (fold_left (Pure.interpStep pdata) indices pst)).
Proof.
  induction indices as [|i indices IH]; intros st vars pst Hsim.
  - exists st. split; [done|]. apply Hsim.
  - cbn [Heap.interpLoop fold_left].
    destruct (interpStep_run st vars pst i Hsim) as (vars' & st1 & Hstep & Hsim1).
    rewrite (run_bind_Some _ _ _ _ _ Hstep). by apply IH.
Qed.

End InterpolateOnStore.

Lemma contents_refs st a ps :
  contents st a = Some ps ->
  exists refs, arrays st !! a = Some refs /\ derefs st refs = Some ps.
Proof.
  unfold contents. destruct (arrays st !! a) as [refs|]; [|done].
  intros H. by exists refs.
Qed.

Lemma interpolateMissingValues_run st data ps :
  contents st data = Some ps ->
  exists r st',
    Heap.interpolateMissingValues data st = Some (r, st') /\
    framed st st' /\ arrays st !! r = None /\
    contents st' r = Some (Pure.interpolateMissingValues ps).
Proof.
  intros (refs0 & Hdata & Hps)%contents_refs.
  destruct (newArray_run [] st) as (result & Hnew & Hfresh).
  set (st1 := {| points := points st; arrays := <[ result := [] ]> (arrays st) |}) in *.
  assert (Hinit : duringLoop st result st1 []).
  { split; [done|]. by exists []. }
  unfold Heap.interpolateMissingValues.
  rewrite (run_bind_Some _ _ _ _ _ Hnew).
  rewrite (run_bind_Some _ _ _ _ _
             (duringLoop_data st data result refs0 Hdata Hfresh st1 [] Hinit)).
  destruct (interpLoop_run st data result refs0 ps Hdata Hps Hfresh
              (seqZ 0 (Z.of_nat (length refs0))) st1 (None, -1) Pure.interpInit)
    as (st' & Hloop & Hsub & rrefs & Harr & Hrrefs); [by split|].
  rewrite (run_bind_Some _ _ _ _ _ Hloop).
  exists result, st'. split; [done|]. split; [|split; [done|]].
  - split; [done|]. rewrite Harr. by apply insert_subseteq.
  - unfold contents. rewrite Harr, lookup_insert_eq. cbn.
    rewrite (derefs_length _ _ _ Hps) in Hrrefs. exact Hrrefs.
Qed.

(** *** [sort] on references follows [sort] on the objects *)

Lemma insertSorted_map {A B} (f : A -> B) (time : B -> option Z) (x : A) (l : list A) :
  map f (JSArray.insertSorted (JSArray.compareByTime (fun e => time (f e))) x l)
  = JSArray.insertSorted (JSArray.compareByTime time) (f x) (map f l).
Proof.
  induction l as [|y l IH]; [done|]. cbn [JSArray.insertSorted map].
  change (JSArray.sortsAfter (JSArray.compareByTime (fun e => time (f e))) x y)
    with (JSArray.sortsAfter (JSArray.compareByTime time) (f x) (f y)).
  destruct (JSArray.sortsAfter (JSArray.compareByTime time) (f x) (f y));
    cbn [map]; by rewrite ?IH.
Qed.

Lemma sort_map {A B} (f : A -> B) (time : B -> option Z) (l : list A) :
  map f (JSArray.sort (JSArray.compareByTime (fun e => time (f e))) l)
  = JSArray.sort (JSArray.compareByTime time) (map f l).
Proof.
  unfold JSArray.sort. induction l as [|x l IH]; [done|]. cbn [foldr map].
  by rewrite insertSorted_map, IH.
Qed.

Lemma derefs_pairs st (pairs : list (loc * TimeSeriesDataPoint)) :
  Forall (fun e => points st !! fst e = Some (snd e)) pairs ->
  derefs st (map fst pairs) = Some (map snd pairs).
Proof.
  induction 1 as [|[l p] pairs Hl _ IH]; [done|].
  cbn [map fst snd] in *. by rewrite derefs_cons, Hl, IH.
Qed.

Lemma derefs_zip st refs ps :
  derefs st refs = Some ps ->
  Forall (fun e => points st !! fst e = Some (snd e)) (zip refs ps).
Proof.
  unfold derefs. rewrite mapM_Some. induction 1; constructor; done.
Qed.

Lemma sortDataByDate_run parseOther st data ps :
  contents st data = Some ps ->
  exists r st',
    Heap.sortDataByDate parseOther data st = Some (r, st') /\
    framed st st' /\ arrays st !! r = None /\
    contents st' r = Some (PureSort.sortDataByDate parseOther ps).
Proof.
  intros (refs & Hdata & Hps)%contents_refs.
  destruct (newArray_run refs st) as (copy & Hnew & Hfresh).
  set (st1 := {| points := points st; arrays := <[ copy := refs ]> (arrays st) |}) in *.
  set (sorted := JSArray.sort
         (JSArray.compareByTime (fun e => PureSort.pointTime parseOther (snd e)))
         (zip refs ps)).
  exists copy, {| points := points st; arrays := <[ copy := map fst sorted ]> (arrays st) |}.
  split; [|split; [|split; [done|]]].
  - unfold Heap.sortDataByDate.
    rewrite (run_bind_Some _ _ _ _ _ (readArray_run _ _ _ Hdata)).
    rewrite (run_bind_Some _ _ _ _ _ Hnew).
    rewrite (run_bind_Some _ _ _ _ _ (readPoints_run st1 refs ps Hps)).
    fold sorted. unfold mbind, run_bind, writeArray. cbn [arrays st1].
    rewrite lookup_insert_eq. cbn. by rewrite insert_insert_eq.
  - split; [done|]. cbn. by apply insert_subseteq.
  - unfold contents. cbn [arrays points]. rewrite lookup_insert_eq. cbn.
    change (mapM (fun l => points st !! l) (map fst sorted))
      with (derefs st (map fst sorted)).
    rewrite derefs_pairs.
    + f_equal. unfold sorted, PureSort.sortDataByDate.
      rewrite (sort_map snd (PureSort.pointTime parseOther)). f_equal.
      change (map snd (zip refs ps)) with (snd <$> zip refs ps).
      apply snd_zip. by rewrite (derefs_length _ _ _ Hps).
    + unfold sorted. rewrite sort_Permutation. by apply derefs_zip.
Qed.

(** *** [handleMissingValues] *)

Lemma handleMissingValues_run st data ps strategy :
  contents st data = Some ps ->
  exists r st',
    Heap.handleMissingValues data strategy st = Some (r, st') /\
    framed st st' /\
    (recognised strategy = true -> arrays st !! r = None) /\
    contents st' r = Some (Pure.handleMissingValues ps strategy).
Proof.
  intros Hc. pose proof Hc as (refs & Hdata & Hps)%contents_refs.
  unfold Heap.handleMissingValues, Pure.handleMissingValues, recognised.
  cbv beta iota zeta delta [from_option id Datatypes.id].
  set (s := match strategy with Some x => x | None => "remove" end).
  destruct (String.eqb s "remove"); [|destruct (String.eqb s "zero");
    [|destruct (String.eqb s "interpolate")]].
  - destruct (filterValid_run st refs ps Hps) as (kept & Hrun & Hkept).
    destruct (newArray_run kept st) as (r & Hnew & Hfresh).
    rewrite (run_bind_Some _ _ _ _ _ (readArray_run _ _ _ Hdata)).
    rewrite (run_bind_Some _ _ _ _ _ Hrun).
    eexists _, _. split; [exact Hnew|]. split; [|split; [done|]].
    + split; [done|]. by apply insert_subseteq.
    + unfold contents. cbn [arrays points]. by rewrite lookup_insert_eq.
  - destruct (mapZeroFill_run refs st ps Hps) as (refs' & st1 & Hrun & Hsub & Harr & Hrefs').
    destruct (newArray_run refs' st1) as (r & Hnew & Hfresh).
    rewrite (run_bind_Some _ _ _ _ _ (readArray_run _ _ _ Hdata)).
    rewrite (run_bind_Some _ _ _ _ _ Hrun).
    rewrite Harr in Hfresh.
    eexists _, _. split; [exact Hnew|]. split; [|split; [done|]].
    + split; [done|]. cbn [arrays]. rewrite Harr. by apply insert_subseteq.
    + unfold contents. cbn [arrays points]. by rewrite lookup_insert_eq.
  - destruct (interpolateMissingValues_run st data ps Hc) as (r & st' & Hrun & Hfr & Hfresh & Hr).
    by exists r, st'.
  - exists data, st. split; [done|]. split; [apply framed_refl|]. by split.
Qed.

End StoreFacts.

(** C10. Neither transform changes what it is given.  Run on an array [data]
    of point objects, [handleMissingValues] (whatever the strategy) and
    [sortDataByDate] end in a store where every object and every array that
    existed before is as it was, so [data] holds the same points in the same
    order; the array returned holds the transformed sequence, and, for each
    of the three strategies and for the sort, it is an array that did not
    exist before. *)
Theorem transforms_leave_input_unchanged :
  forall parseOther st data ps,
    Heap.contents st data = Some ps ->
    (forall strategy, exists r st',
       Heap.handleMissingValues data strategy st = Some (r, st') /\
       framed st st' /\
       Heap.contents st' data = Some ps /\
       (recognised strategy = true -> Heap.arrays st !! r = None) /\
       Heap.contents st' r = Some (Pure.handleMissingValues ps strategy)) /\
    (exists r st',
       Heap.sortDataByDate parseOther data st = Some (r, st') /\
       framed st st' /\
       Heap.contents st' data = Some ps /\
       Heap.arrays st !! r = None /\
       Heap.contents st' r = Some (PureSort.sortDataByDate parseOther ps)).
Proof.
  intros parseOther st data ps Hc. split.
  - intros strategy.
    destruct (handleMissingValues_run st data ps strategy Hc)
      as (r & st' & Hrun & Hfr & Hfresh & Hr).
    exists r, st'. repeat split; try done; try apply Hfr.
    by apply (contents_framed st).
  - destruct (sortDataByDate_run parseOther st data ps Hc)
      as (r & st' & Hrun & Hfr & Hfresh & Hr).
    exists r, st'. repeat split; try done; try apply Hfr.
    by apply (contents_framed st).
Qed.

Lemma transforms_leave_input_unchanged_witness :
  (forall strategy, exists r st',
     Heap.handleMissingValues 0%nat strategy threePoints = Some (r, st') /\
     framed threePoints st' /\
     Heap.contents st' 0%nat
     = Some [pt "2021" (Some 5%float); pt "2020" None; pt "2019" (Some 7%float)] /\
     (recognised strategy = true -> Heap.arrays threePoints !! r = None) /\
     Heap.contents st' r
     = Some (Pure.handleMissingValues
               [pt "2021" (Some 5%float); pt "2020" None; pt "2019" (Some 7%float)]
               strategy)) /\
  (exists r st',
     Heap.sortDataByDate dateOnlyEngine 0%nat threePoints = Some (r, st') /\
     framed threePoints st' /\
     Heap.contents st' 0%nat
     = Some [pt "2021" (Some 5%float); pt "2020" None; pt "2019" (Some 7%float)] /\
     Heap.arrays threePoints !! r = None /\
     Heap.contents st' r
     = Some (PureSort.sortDataByDate dateOnlyEngine
               [pt "2021" (Some 5%float); pt "2020" None; pt "2019" (Some 7%float)])).
Proof.
  apply (transforms_leave_input_unchanged dateOnlyEngine threePoints 0%nat).
  reflexivity.
Defined.

(** On that store: [interpolate] returns the new array 1, [sortDataByDate]
    a new array with the references in date order, an unknown strategy the
    array it was given. *)
Example transforms_on_three_points :
  (fst <$> Heap.handleMissingValues 0%nat (Some "interpolate") threePoints) = Some 1%nat /\
  (fst <$> Heap.handleMissingValues 0%nat (Some "median") threePoints) = Some 0%nat /\
  (Heap.sortDataByDate dateOnlyEngine 0%nat threePoints
     ≫= fun '(r, st') => Heap.arrays st' !! r) = Some [12; 11; 10]%nat.
Proof. repeat split; vm_compute; reflexivity. Qed.

(** ** Date ranges *)

Section DateRange.

Import Transform.

Variable parseOther : string -> option Z.

Implicit Types (data : list TimeSeriesDataPoint) (p : TimeSeriesDataPoint).
Implicit Types (startDate endDate : option DateField).

Lemma boundTime_cases (bound : option DateField) (otherwise : TimeNumber) :
  (given bound = false /\ boundTime parseOther bound otherwise = otherwise) \/
  (exists d, bound = Some d /\ given bound = true /\
             boundTime parseOther bound otherwise
             = ofTime (getTime (parseDate parseOther d))).
Proof.
  unfold boundTime. destruct bound as [d|]; [|by left].
  destruct (given (Some d)) eqn:Hg; [right; by exists d|by left].
Qed.

Lemma ge_boundTime startDate (t : option Z) :
  numGe (ofTime t) (boundTime parseOther startDate NegInfinity) = true <->
  exists tp, t = Some tp /\ boundHolds parseOther startDate (fun tb => tb <= tp).
Proof.
  unfold boundHolds, numGe.
  destruct (boundTime_cases startDate NegInfinity) as [[Hg ->]|(d & -> & Hg & ->)];
    rewrite Hg.
  - destruct t as [tp|]; cbn.
    + split; [|done]. intros _. exists tp. done.
    + split; [done|]. intros (tp & Habs & _). done.
  - destruct t as [tp|], (getTime (parseDate parseOther d)) as [tb|] eqn:Hd; cbn.
    + rewrite Z.leb_le. split.
      * intros Hle. exists tp. split; [done|]. intros _. exists d, tb. done.
      * intros (tp' & [= <-] & H).
        destruct (H eq_refl) as (d' & tb' & [= <-] & Hd' & Hle). congruence.
    + split; [done|]. intros (tp' & _ & H).
      destruct (H eq_refl) as (d' & tb' & [= <-] & Hd' & _). congruence.
    + split; [done|]. intros (tp & Habs & _). done.
    + split; [done|]. intros (tp & Habs & _). done.
Qed.

Lemma le_boundTime endDate (t : option Z) :
  numLe (ofTime t) (boundTime parseOther endDate PosInfinity) = true <->
  exists tp, t = Some tp /\ boundHolds parseOther endDate (fun tb => tp <= tb).
Proof.
  unfold boundHolds.
  destruct (boundTime_cases endDate PosInfinity) as [[Hg ->]|(d & -> & Hg & ->)];
    rewrite Hg.
  - destruct t as [tp|]; cbn.
    + split; [|done]. intros _. exists tp. done.
    + split; [done|]. intros (tp & Habs & _). done.
  - destruct t as [tp|], (getTime (parseDate parseOther d)) as [tb|] eqn:Hd; cbn.
    + rewrite Z.leb_le. split.
      * intros Hle. exists tp. split; [done|]. intros _. exists d, tb. done.
      * intros (tp' & [= <-] & H).
        destruct (H eq_refl) as (d' & tb' & [= <-] & Hd' & Hle). congruence.
    + split; [done|]. intros (tp' & _ & H).
      destruct (H eq_refl) as (d' & tb' & [= <-] & Hd' & _). congruence.
    + split; [done|]. intros (tp & Habs & _). done.
    + split; [done|]. intros (tp & Habs & _). done.
Qed.

Lemma inRange_iff startDate endDate p :
  inRange parseOther (boundTime parseOther startDate NegInfinity)
          (boundTime parseOther endDate PosInfinity) p = true <->
  exists t, PureSort.pointTime parseOther p = Some t /\
            boundHolds parseOther startDate (fun tb => tb <= t) /\
            boundHolds parseOther endDate (fun tb => t <= tb).
Proof.
  unfold inRange. rewrite andb_true_iff, ge_boundTime, le_boundTime.
  unfold PureSort.pointTime. split.
  - intros [(t & Ht & Hs) (t' & Ht' & He)]. exists t. split; [done|]. split; [done|].
    rewrite Ht in Ht'. by injection Ht' as <-.
  - intros (t & Ht & Hs & He). split; exists t; done.
Qed.

Lemma filterDataByDateRange_unbounded data startDate endDate :
  given startDate = false -> given endDate = false ->
  filterDataByDateRange parseOther data startDate endDate = data.
Proof. unfold filterDataByDateRange. by intros -> ->. Qed.

Lemma filterDataByDateRange_bounded data startDate endDate :
  given startDate = true \/ given endDate = true ->
  filterDataByDateRange parseOther data startDate endDate
  = List.filter (inRange parseOther (boundTime parseOther startDate NegInfinity)
                         (boundTime parseOther endDate PosInfinity)) data.
Proof.
  unfold filterDataByDateRange. intros [-> | ->]; [done|].
  by rewrite andb_false_r.
Qed.

Lemma filter_filter_comm {X} (f g : X -> bool) (l : list X) :
  List.filter f (List.filter g l) = List.filter g (List.filter f l).
Proof.
  induction l as [|x l IH]; [done|]. cbn.
  destruct (f x) eqn:Hf, (g x) eqn:Hg; cbn; rewrite ?Hf, ?Hg, IH; done.
Qed.

Lemma filter_filter_and {X} (f g : X -> bool) (l : list X) :
  List.filter f (List.filter g l) = List.filter (fun x => g x && f x) l.
Proof.
  induction l as [|x l IH]; [done|]. cbn.
  destruct (g x) eqn:Hg; cbn; [destruct (f x)|]; rewrite IH; done.
Qed.

Lemma filter_ext_all {X} (f g : X -> bool) (l : list X) :
  (forall x, f x = g x) -> List.filter f l = List.filter g l.
Proof. intros H. apply List.filter_ext. done. Qed.

Lemma filter_idem {X} (f : X -> bool) (l : list X) :
  List.filter f (List.filter f l) = List.filter f l.
Proof.
  rewrite filter_filter_and. apply filter_ext_all. intros x. by destruct (f x).
Qed.

(** X1. Which points a date range keeps.  With a start or an end given,
    [filterDataByDateRange] returns a subsequence of the data (the order is
    kept), and a point is in it exactly when its date can be read and its time
    is no earlier than the start, if one is given, and no later than the end,
    if one is given; a bound that is given has to be readable itself. *)
Theorem filterDataByDateRange_keeps_points_in_range data startDate endDate :
  given startDate = true \/ given endDate = true ->
  let kept := filterDataByDateRange parseOther data startDate endDate in
  sublist kept data /\
  forall p, p ∈ kept <->
    p ∈ data /\
    exists t, PureSort.pointTime parseOther p = Some t /\
              boundHolds parseOther startDate (fun tb => tb <= t) /\
              boundHolds parseOther endDate (fun tb => t <= tb).
Proof.
  intros Hg kept. subst kept. rewrite (filterDataByDateRange_bounded _ _ _ Hg).
  split; [apply filter_sublist|].
  intros p. rewrite list_elem_of_In, List.filter_In, <- list_elem_of_In, inRange_iff.
  done.
Qed.

Lemma filter_none {X} (f : X -> bool) (l : list X) :
  (forall x, f x = false) -> List.filter f l = [].
Proof. intros H. induction l as [|x l IH]; [done|]. simpl. rewrite H. exact IH. Qed.

Lemma inRange_start_NaN end' p : inRange parseOther NaN end' p = false.
Proof.
  unfold inRange, numGe.
  by destruct (ofTime (getTime (parseDate parseOther (date p)))).
Qed.

Lemma inRange_end_NaN start p : inRange parseOther start NaN p = false.
Proof.
  unfold inRange, numGe.
  destruct (ofTime (getTime (parseDate parseOther (date p)))), start; cbn;
    rewrite ?andb_false_r; reflexivity.
Qed.

Lemma boundTime_not_given (bound : option DateField) (otherwise : TimeNumber) :
  given bound = false -> boundTime parseOther bound otherwise = otherwise.
Proof. unfold boundTime. intros ->. by destruct bound. Qed.

Lemma boundTime_unparseable d otherwise :
  given (Some d) = true -> getTime (parseDate parseOther d) = None ->
  boundTime parseOther (Some d) otherwise = NaN.
Proof. unfold boundTime. by intros -> ->. Qed.

(** X2. A range without a usable bound.  When neither bound is given, where
    [undefined] and the empty string both count as not given, the data come
    back as they are, points with unreadable dates included.  When a bound is
    given that cannot be read as a date (a string nothing parses, an Invalid
    Date), every comparison with it fails and no point is kept. *)
Theorem filterDataByDateRange_without_usable_bound :
  (forall data startDate endDate,
     given startDate = false -> given endDate = false ->
     filterDataByDateRange parseOther data startDate endDate = data) /\
  (forall data,
     filterDataByDateRange parseOther data None None = data /\
     filterDataByDateRange parseOther data (Some (DateStr "")) (Some (DateStr "")) = data) /\
  (forall data d endDate,
     given (Some d) = true -> getTime (parseDate parseOther d) = None ->
     filterDataByDateRange parseOther data (Some d) endDate = []) /\
  (forall data startDate d,
     given (Some d) = true -> getTime (parseDate parseOther d) = None ->
     filterDataByDateRange parseOther data startDate (Some d) = []) /\
  (forall data endDate,
     filterDataByDateRange parseOther data (Some (DateObj InvalidDate)) endDate = []).
Proof.
  assert (Hstart : forall data d endDate,
     given (Some d) = true -> getTime (parseDate parseOther d) = None ->
     filterDataByDateRange parseOther data (Some d) endDate = []).
  { intros data d endDate Hg Hd.
    rewrite filterDataByDateRange_bounded by (by left).
    rewrite boundTime_unparseable by done.
    apply filter_none. intros p. apply inRange_start_NaN. }
  split; [apply filterDataByDateRange_unbounded|].
  split; [intros data; split; by apply filterDataByDateRange_unbounded|].
  split; [exact Hstart|]. split.
  - intros data startDate d Hg Hd.
    rewrite filterDataByDateRange_bounded by (by right).
    rewrite (boundTime_unparseable d) by done.
    apply filter_none. intros p. apply inRange_end_NaN.
  - intros data endDate. by apply Hstart.
Qed.

Lemma inRange_split startDate endDate p :
  inRange parseOther (boundTime parseOther startDate NegInfinity)
          (boundTime parseOther endDate PosInfinity) p
  = inRange parseOther (boundTime parseOther startDate NegInfinity) PosInfinity p
    && inRange parseOther NegInfinity (boundTime parseOther endDate PosInfinity) p.
Proof.
  unfold inRange, numGe.
  destruct (ofTime (getTime (parseDate parseOther (date p)))),
    (boundTime parseOther startDate NegInfinity),
    (boundTime parseOther endDate PosInfinity); cbn; try done;
    by rewrite ?andb_true_r, ?andb_false_r.
Qed.

(** X3. Ranges compose.  Applying the same range twice is applying it once;
    two ranges can be applied in either order; and a range with both bounds
    is the range from the start followed by the range up to the end. *)
Theorem filterDataByDateRange_composes :
  (forall data startDate endDate,
     filterDataByDateRange parseOther
       (filterDataByDateRange parseOther data startDate endDate) startDate endDate
     = filterDataByDateRange parseOther data startDate endDate) /\
  (forall data startDate endDate startDate' endDate',
     filterDataByDateRange parseOther
       (filterDataByDateRange parseOther data startDate endDate) startDate' endDate'
     = filterDataByDateRange parseOther
         (filterDataByDateRange parseOther data startDate' endDate') startDate endDate) /\
  (forall data startDate endDate,
     filterDataByDateRange parseOther data startDate endDate
     = filterDataByDateRange parseOther
         (filterDataByDateRange parseOther data startDate None) None endDate).
Proof.
  split; [|split].
  - intros data startDate endDate. unfold filterDataByDateRange.
    destruct (negb (given startDate) && negb (given endDate)); [done|].
    apply filter_idem.
  - intros data startDate endDate startDate' endDate'. unfold filterDataByDateRange.
    destruct (negb (given startDate) && negb (given endDate)),
      (negb (given startDate') && negb (given endDate')); try done.
    apply filter_filter_comm.
  - intros data startDate endDate.
    destruct (given startDate) eqn:Hs, (given endDate) eqn:He.
    + rewrite !filterDataByDateRange_bounded by (rewrite ?Hs, ?He; tauto).
      rewrite filter_filter_and. apply filter_ext_all. intros p.
      by rewrite inRange_split.
    + rewrite (filterDataByDateRange_unbounded _ None endDate) by done.
      rewrite !filterDataByDateRange_bounded by (rewrite ?Hs; tauto).
      by rewrite (boundTime_not_given endDate).
    + rewrite (filterDataByDateRange_unbounded data startDate None) by done.
      rewrite !filterDataByDateRange_bounded by (rewrite ?He; tauto).
      by rewrite (boundTime_not_given startDate).
    + by rewrite !filterDataByDateRange_unbounded.
Qed.

End DateRange.

Lemma filterDataByDateRange_keeps_points_in_range_witness :
  sublist (Transform.filterDataByDateRange dateOnlyEngine quarterly
             (Some (DateStr "2020-11")) (Some (DateObj {| getTime := Some 1614556800000 |})))
          quarterly /\
  forall p,
    p ∈ Transform.filterDataByDateRange dateOnlyEngine quarterly
          (Some (DateStr "2020-11")) (Some (DateObj {| getTime := Some 1614556800000 |})) <->
    p ∈ quarterly /\
    exists t, PureSort.pointTime dateOnlyEngine p = Some t /\
              boundHolds dateOnlyEngine (Some (DateStr "2020-11")) (fun tb => tb <= t) /\
              boundHolds dateOnlyEngine
                (Some (DateObj {| getTime := Some 1614556800000 |})) (fun tb => t <= tb).
Proof.
  apply (filterDataByDateRange_keeps_points_in_range dateOnlyEngine quarterly
           (Some (DateStr "2020-11")) (Some (DateObj {| getTime := Some 1614556800000 |}))).
  left. reflexivity.
Defined.

(** On these points: the range keeps the one observation of January 2021. *)
Example filterDataByDateRange_quarterly :
  Transform.filterDataByDateRange dateOnlyEngine quarterly
    (Some (DateStr "2020-11")) (Some (DateObj {| getTime := Some 1614556800000 |}))
  = [pt "2021-01" (Some 3%float)] /\
  Transform.filterDataByDateRange dateOnlyEngine quarterly (Some (DateStr "")) None
  = quarterly /\
  Transform.filterDataByDateRange dateOnlyEngine quarterly (Some (DateStr "2020-10")) None
  = [pt "2021-04" (Some 4%float); pt "2020-10" None; pt "2021-01" (Some 3%float)].
Proof. repeat split; vm_compute; reflexivity. Qed.

Lemma filterDataByDateRange_without_usable_bound_witness :
  Transform.filterDataByDateRange dateOnlyEngine quarterly (Some (DateStr "")) None
  = quarterly /\
  Transform.filterDataByDateRange dateOnlyEngine quarterly (Some (DateStr "next year")) None
  = [] /\
  Transform.filterDataByDateRange dateOnlyEngine quarterly None
    (Some (DateObj InvalidDate)) = [].
Proof.
  destruct (filterDataByDateRange_without_usable_bound dateOnlyEngine)
    as (H1 & _ & H2 & H3 & _).
  split; [|split].
  - apply H1; reflexivity.
  - apply H2; reflexivity.
  - apply H3; reflexivity.
Defined.

(** ** More on the sort *)

Section SortOrder.

Context {A : Type}.

Variable time : A -> option Z.

Implicit Types (a b : A) (l : list A) (f : A -> bool).

Lemma sortsAfter_time a b :
  JSArray.sortsAfter (JSArray.compareByTime time) a b = true <->
  exists ta tb, time a = Some ta /\ time b = Some tb /\ tb < ta.
Proof.
  unfold JSArray.sortsAfter, JSArray.compareByTime.
  destruct (time a) as [ta|], (time b) as [tb|]; cbn.
  - rewrite Z.ltb_lt. split.
    + intros H. exists ta, tb. split; [done|]. split; [done|]. lia.
    + intros (ta' & tb' & [= <-] & [= <-] & H). lia.
  - split; [done|]. by intros (? & ? & _ & ? & _).
  - split; [done|]. by intros (? & ? & ? & _).
  - split; [done|]. by intros (? & ? & ? & _).
Qed.

Lemma notLater_sortsAfter a b :
  notLater time a b -> JSArray.sortsAfter (JSArray.compareByTime time) a b = false.
Proof.
  intros (ta & tb & Ha & Hb & Hle). apply not_true_is_false.
  rewrite sortsAfter_time. intros (ta' & tb' & Ha' & Hb' & Hlt).
  rewrite Ha in Ha'. rewrite Hb in Hb'. injection Ha' as <-. injection Hb' as <-. lia.
Qed.

Lemma insertSorted_first a l :
  Forall (notLater time a) l ->
  JSArray.insertSorted (JSArray.compareByTime time) a l = a :: l.
Proof.
  destruct l as [|b l]; [done|]. intros H. apply Forall_cons in H as [H _].
  cbn. by rewrite notLater_sortsAfter.
Qed.

Lemma sort_of_sorted l :
  StronglySorted (notLater time) l -> JSArray.sort (JSArray.compareByTime time) l = l.
Proof.
  induction 1 as [|a l Hs IH Ha]; [done|].
  cbn. unfold JSArray.sort in IH. rewrite IH. by apply insertSorted_first.
Qed.

Lemma filter_insertSorted_dropped (cmp : A -> A -> option Z) f a l :
  f a = false -> List.filter f (JSArray.insertSorted cmp a l) = List.filter f l.
Proof.
  intros Hf. induction l as [|b l IH]; cbn.
  - by rewrite Hf.
  - destruct (JSArray.sortsAfter cmp a b); cbn.
    + by rewrite IH.
    + by rewrite Hf.
Qed.

Lemma filter_insertSorted_kept f a l :
  f a = true -> is_Some (time a) -> Forall (fun b => is_Some (time b)) l ->
  StronglySorted (notLater time) l ->
  List.filter f (JSArray.insertSorted (JSArray.compareByTime time) a l)
  = JSArray.insertSorted (JSArray.compareByTime time) a (List.filter f l).
Proof.
  intros Hf [ta Ha] Hl Hs. induction Hs as [|b l Hs IH Hb]; cbn.
  - by rewrite Hf.
  - apply Forall_cons in Hl as [[tb Htb] Hl].
    destruct (JSArray.sortsAfter (JSArray.compareByTime time) a b) eqn:Hab; cbn.
    + destruct (f b) eqn:Hfb; cbn; rewrite ?Hab, IH; done.
    + rewrite Hf. symmetry. apply insertSorted_first.
      assert (Hle : ta <= tb).
      { destruct (Z.le_gt_cases ta tb) as [|Hlt]; [done|].
        assert (JSArray.sortsAfter (JSArray.compareByTime time) a b = true); [|congruence].
        apply sortsAfter_time. exists ta, tb. split; [done|]. split; [done|]. lia. }
      assert (Hall : Forall (notLater time a) (b :: l)).
      { constructor.
        - exists ta, tb. done.
        - eapply Forall_impl; [exact Hb|]. intros c (tb' & tc & Hb' & Hc & Hbc).
          exists ta, tc. split; [done|]. split; [done|].
          rewrite Htb in Hb'. injection Hb' as <-. lia. }
      change (Forall (notLater time a) (List.filter f (b :: l))).
      clear -Hall. induction Hall as [|c l' Hc Hall IH]; [constructor|].
      cbn. destruct (f c); [constructor|]; done.
Qed.

Lemma sort_filter f l :
  Forall (fun b => is_Some (time b)) l ->
  JSArray.sort (JSArray.compareByTime time) (List.filter f l)
  = List.filter f (JSArray.sort (JSArray.compareByTime time) l).
Proof.
  induction 1 as [|a l Ha Hl IH]; [done|]. cbn.
  destruct (f a) eqn:Hf; cbn.
  - fold (JSArray.sort (JSArray.compareByTime time) (List.filter f l)). rewrite IH.
    symmetry. apply filter_insertSorted_kept; [done..| |by apply sort_sorted].
    rewrite <- (sort_Permutation (JSArray.compareByTime time) l) in Hl. done.
  - rewrite filter_insertSorted_dropped by done. exact IH.
Qed.

(** The elements at the time [t]. *)
Lemma filter_insertSorted_at_time (t : Z) a l :
  List.filter (fun b => bool_decide (time b = Some t))
              (JSArray.insertSorted (JSArray.compareByTime time) a l)
  = List.filter (fun b => bool_decide (time b = Some t)) (a :: l).
Proof.
  destruct (bool_decide (time a = Some t)) eqn:Hf.
  - apply bool_decide_eq_true in Hf as Ha.
    induction l as [|b l IH]; [done|]. cbn.
    destruct (JSArray.sortsAfter (JSArray.compareByTime time) a b) eqn:Hab; cbn.
    + apply sortsAfter_time in Hab as (ta & tb & Ha' & Hb & Hlt).
      rewrite Ha in Ha'. injection Ha' as <-.
      rewrite (bool_decide_eq_false_2 (time b = Some t)) by (rewrite Hb; intros [= ->]; lia).
      rewrite IH. cbn. by rewrite Hf.
    + done.
  - rewrite filter_insertSorted_dropped by done. cbn. by rewrite Hf.
Qed.

Lemma sort_stable (t : Z) l :
  List.filter (fun b => bool_decide (time b = Some t))
              (JSArray.sort (JSArray.compareByTime time) l)
  = List.filter (fun b => bool_decide (time b = Some t)) l.
Proof.
  induction l as [|a l IH]; [done|].
  cbn [JSArray.sort foldr]. fold (JSArray.sort (JSArray.compareByTime time) l).
  rewrite filter_insertSorted_at_time. cbn. by rewrite IH.
Qed.

End SortOrder.

(** ** The sort and the other transforms *)

Section SortedPoints.

Import Transform.

Variable parseOther : string -> option Z.

Implicit Types (data : list TimeSeriesDataPoint) (p : TimeSeriesDataPoint).

(** X4. [sortDataByDate] orders the points.  When every date can be read, the
    result holds the same points as the input, as many of each, and is in
    ascending order of time: of two positions, the earlier holds a point that
    is not later. *)
Theorem sortDataByDate_ascending_permutation data :
  Forall (fun p => is_Some (PureSort.pointTime parseOther p)) data ->
  let sorted := PureSort.sortDataByDate parseOther data in
  sorted ≡ₚ data /\
  length sorted = length data /\
  StronglySorted (notLater (PureSort.pointTime parseOther)) sorted /\
  forall i j p q, sorted !! i = Some p -> sorted !! j = Some q -> (i <= j)%nat ->
    notLater (PureSort.pointTime parseOther) p q.
Proof.
  intros Hall sorted. subst sorted. unfold PureSort.sortDataByDate.
  pose proof (sort_Permutation (JSArray.compareByTime (PureSort.pointTime parseOther)) data)
    as Hperm.
  pose proof (sort_sorted (PureSort.pointTime parseOther) data Hall) as Hsorted.
  split; [done|]. split; [by rewrite Hperm|]. split; [done|].
  intros i j p q Hi Hj Hij.
  destruct (decide (i = j)) as [->|Hne].
  - rewrite Hi in Hj. injection Hj as <-.
    assert (Hp : p ∈ data) by (rewrite <- Hperm; by eapply list_elem_of_lookup_2).
    rewrite Forall_forall in Hall. destruct (Hall p Hp) as [t Ht].
    exists t, t. split; [done|]. split; [done|]. lia.
  - revert Hsorted i j Hi Hj Hij Hne.
    generalize (JSArray.sort (JSArray.compareByTime (PureSort.pointTime parseOther)) data).
    induction 1 as [|a l Hs IH Ha]; intros i j Hi Hj Hij Hne; [done|].
    destruct i as [|i], j as [|j]; try lia.
    + cbn in Hi, Hj. injection Hi as <-. rewrite Forall_forall in Ha.
      apply Ha. by eapply list_elem_of_lookup_2.
    + cbn in Hi, Hj. apply (IH i j); [done|done|lia|lia].
Qed.

(** X5. The sort is stable.  When every date can be read, the points of one
    and the same time come out in the order they went in; data already in
    ascending order come back unchanged; and sorting twice is sorting once. *)
Theorem sortDataByDate_stable :
  (forall data t,
     Forall (fun p => is_Some (PureSort.pointTime parseOther p)) data ->
     List.filter (fun p => bool_decide (PureSort.pointTime parseOther p = Some t))
                 (PureSort.sortDataByDate parseOther data)
     = List.filter (fun p => bool_decide (PureSort.pointTime parseOther p = Some t)) data) /\
  (forall data,
     StronglySorted (notLater (PureSort.pointTime parseOther)) data ->
     PureSort.sortDataByDate parseOther data = data) /\
  (forall data,
     Forall (fun p => is_Some (PureSort.pointTime parseOther p)) data ->
     PureSort.sortDataByDate parseOther (PureSort.sortDataByDate parseOther data)
     = PureSort.sortDataByDate parseOther data).
Proof.
  split; [|split].
  - intros data t _. apply sort_stable.
  - intros data. apply sort_of_sorted.
  - intros data Hall. apply sort_of_sorted. by apply sort_sorted.
Qed.

(** X6. A date range and the sort commute: when every date can be read,
    sorting and then taking the range gives the sequence that taking the
    range and then sorting gives. *)
Theorem filterDataByDateRange_commutes_with_sort data startDate endDate :
  Forall (fun p => is_Some (PureSort.pointTime parseOther p)) data ->
  filterDataByDateRange parseOther (PureSort.sortDataByDate parseOther data)
    startDate endDate
  = PureSort.sortDataByDate parseOther
      (filterDataByDateRange parseOther data startDate endDate).
Proof.
  intros Hall. unfold filterDataByDateRange.
  destruct (negb (given startDate) && negb (given endDate)); [done|].
  unfold PureSort.sortDataByDate. symmetry. by apply sort_filter.
Qed.

(** X7. A date range commutes with [remove] and with [zero]: the range of
    the cleaned data is the cleaned range.  (With [interpolate] it does not:
    see [filterDataByDateRange_then_interpolate] below.) *)
Theorem filterDataByDateRange_commutes_with_remove_and_zero :
  (forall data startDate endDate,
     filterDataByDateRange parseOther
       (Pure.handleMissingValues data (Some "remove")) startDate endDate
     = Pure.handleMissingValues
         (filterDataByDateRange parseOther data startDate endDate) (Some "remove")) /\
  (forall data startDate endDate,
     filterDataByDateRange parseOther
       (Pure.handleMissingValues data (Some "zero")) startDate endDate
     = Pure.handleMissingValues
         (filterDataByDateRange parseOther data startDate endDate) (Some "zero")).
Proof.
  split.
  - intros data startDate endDate. unfold filterDataByDateRange.
    destruct (negb (given startDate) && negb (given endDate)); [done|].
    change (Pure.handleMissingValues ?d (Some "remove"))
      with (List.filter (fun point => hasValue (value point)) d).
    apply filter_filter_comm.
  - intros data startDate endDate. unfold filterDataByDateRange.
    destruct (negb (given startDate) && negb (given endDate)); [done|].
    change (Pure.handleMissingValues ?d (Some "zero")) with (map Pure.zeroFill d).
    generalize (boundTime parseOther startDate NegInfinity)
               (boundTime parseOther endDate PosInfinity). intros start end'.
    induction data as [|p data IH]; [done|]. cbn.
    change (inRange parseOther start end' (Pure.zeroFill p))
      with (inRange parseOther start end' p).
    destruct (inRange parseOther start end' p); cbn; by rewrite IH.
Qed.

End SortedPoints.

Lemma notLater_times {A} (time : A -> option Z) (a b : A) (ta tb : Z) :
  time a = Some ta -> time b = Some tb -> ta <= tb -> notLater time a b.
Proof. intros Ha Hb Hle. by exists ta, tb. Qed.

Lemma sortDataByDate_ascending_permutation_witness :
  PureSort.sortDataByDate dateOnlyEngine unordered ≡ₚ unordered /\
  length (PureSort.sortDataByDate dateOnlyEngine unordered) = length unordered /\
  StronglySorted (notLater (PureSort.pointTime dateOnlyEngine))
    (PureSort.sortDataByDate dateOnlyEngine unordered) /\
  forall i j p q,
    PureSort.sortDataByDate dateOnlyEngine unordered !! i = Some p ->
    PureSort.sortDataByDate dateOnlyEngine unordered !! j = Some q -> (i <= j)%nat ->
    notLater (PureSort.pointTime dateOnlyEngine) p q.
Proof.
  apply (sortDataByDate_ascending_permutation dateOnlyEngine unordered).
  repeat constructor; eexists; vm_compute; reflexivity.
Defined.

Lemma sortDataByDate_stable_witness :
  List.filter (fun p => bool_decide (PureSort.pointTime dateOnlyEngine p = Some 1577836800000))
              (PureSort.sortDataByDate dateOnlyEngine unordered)
  = List.filter (fun p => bool_decide (PureSort.pointTime dateOnlyEngine p = Some 1577836800000))
                unordered /\
  PureSort.sortDataByDate dateOnlyEngine
    [pt "2020" None; pt "2020-01-01" (Some 3%float); pt "2021" (Some 4%float)]
  = [pt "2020" None; pt "2020-01-01" (Some 3%float); pt "2021" (Some 4%float)] /\
  PureSort.sortDataByDate dateOnlyEngine (PureSort.sortDataByDate dateOnlyEngine unordered)
  = PureSort.sortDataByDate dateOnlyEngine unordered.
Proof.
  destruct (sortDataByDate_stable dateOnlyEngine) as (H0 & H1 & H2).
  split; [|split].
  - apply H0. repeat constructor; eexists; vm_compute; reflexivity.
  - apply H1.
    repeat (apply SSorted_cons || apply SSorted_nil || apply Forall_cons_2
            || apply Forall_nil_2);
      first [ apply (notLater_times _ _ _ 1577836800000 1577836800000);
                [vm_compute; reflexivity|vm_compute; reflexivity|lia]
            | apply (notLater_times _ _ _ 1577836800000 1609459200000);
                [vm_compute; reflexivity|vm_compute; reflexivity|lia] ].
  - apply H2. repeat constructor; eexists; vm_compute; reflexivity.
Defined.

(** On these points: the two observations of 1 January 2020 keep the order
    they came in. *)
Example sortDataByDate_unordered :
  PureSort.sortDataByDate dateOnlyEngine unordered
  = [pt "2020" None; pt "2020-01-01" (Some 3%float); pt "2021" (Some 4%float)].
Proof. vm_compute. reflexivity. Qed.

Lemma filterDataByDateRange_commutes_with_sort_witness :
  Transform.filterDataByDateRange dateOnlyEngine
    (PureSort.sortDataByDate dateOnlyEngine unordered) None (Some (DateStr "2020-06"))
  = PureSort.sortDataByDate dateOnlyEngine
      (Transform.filterDataByDateRange dateOnlyEngine unordered None
         (Some (DateStr "2020-06"))).
Proof.
  apply (filterDataByDateRange_commutes_with_sort dateOnlyEngine unordered).
  repeat constructor; eexists; vm_compute; reflexivity.
Defined.

(** ** The strategies one after another *)

Section StrategiesCompose.

Import Pure.

Variable parseOther : string -> option Z.

Implicit Types (data l : list TimeSeriesDataPoint) (p : TimeSeriesDataPoint).

Lemma zeroFill_valid p : hasValue (value p) = true -> zeroFill p = p.
Proof.
  intros (x & Hx & Hnan)%hasValue_true_iff. destruct p as [d v]. cbn in *. subst v.
  unfold zeroFill. cbn. by rewrite Hnan.
Qed.

Lemma zeroFill_hasValue p : hasValue (value (zeroFill p)) = true.
Proof.
  unfold zeroFill. cbn. destruct (value p) as [x|]; [|done].
  destruct (isNaN x) eqn:Hx; [done|]. cbn. by rewrite Hx.
Qed.

Lemma filter_all {X} (f : X -> bool) (l : list X) :
  Forall (fun x => f x = true) l -> List.filter f l = l.
Proof. induction 1 as [|x l Hx _ IH]; [done|]. cbn. by rewrite Hx, IH. Qed.

Lemma filter_Forall {X} (f : X -> bool) (l : list X) :
  Forall (fun x => f x = true) (List.filter f l).
Proof.
  apply Forall_forall. intros x Hx.
  by apply list_elem_of_In, List.filter_In in Hx as [_ Hx].
Qed.

Lemma handleMissingValues_all_valid l (strategy : option string) :
  Forall (fun p => hasValue (value p) = true) l -> handleMissingValues l strategy = l.
Proof.
  intros Hall. unfold handleMissingValues.
  destruct (String.eqb _ "remove"); [by apply filter_all|].
  destruct (String.eqb _ "zero").
  { induction Hall as [|p l Hp _ IH]; [done|]. cbn. by rewrite zeroFill_valid, IH. }
  destruct (String.eqb _ "interpolate"); [|done].
  rewrite interpolateMissingValues_interpGo. by apply interpGo_all_valid.
Qed.

(** X8. After [remove] or [zero] nothing is missing: every point of the
    result passes the test [value !== null && !isNaN(value)], and whatever
    strategy is applied next, recognised or not, returns that result
    unchanged. *)
Theorem strategies_after_remove_or_zero :
  (forall data,
     Forall (fun p => hasValue (value p) = true) (handleMissingValues data (Some "remove")) /\
     Forall (fun p => hasValue (value p) = true) (handleMissingValues data (Some "zero"))) /\
  (forall data strategy,
     handleMissingValues (handleMissingValues data (Some "remove")) strategy
     = handleMissingValues data (Some "remove")) /\
  (forall data strategy,
     handleMissingValues (handleMissingValues data (Some "zero")) strategy
     = handleMissingValues data (Some "zero")).
Proof.
  assert (Hvalid : forall data,
     Forall (fun p => hasValue (value p) = true) (handleMissingValues data (Some "remove")) /\
     Forall (fun p => hasValue (value p) = true) (handleMissingValues data (Some "zero"))).
  { intros data. split.
    - apply (filter_Forall (fun p => hasValue (value p))).
    - change (handleMissingValues data (Some "zero")) with (map zeroFill data).
      apply Forall_map, Forall_true. apply zeroFill_hasValue. }
  split; [exact Hvalid|]. split; intros data strategy;
    apply handleMissingValues_all_valid, Hvalid.
Qed.

(** X9. The sort commutes with [zero], and, when every date can be read, with
    [remove]. *)
Theorem sortDataByDate_commutes_with_remove_and_zero :
  (forall data,
     PureSort.sortDataByDate parseOther (handleMissingValues data (Some "zero"))
     = handleMissingValues (PureSort.sortDataByDate parseOther data) (Some "zero")) /\
  (forall data,
     Forall (fun p => is_Some (PureSort.pointTime parseOther p)) data ->
     PureSort.sortDataByDate parseOther (handleMissingValues data (Some "remove"))
     = handleMissingValues (PureSort.sortDataByDate parseOther data) (Some "remove")).
Proof.
  split.
  - intros data. change (handleMissingValues ?d (Some "zero")) with (map zeroFill d).
    unfold PureSort.sortDataByDate. symmetry.
    apply (sort_map zeroFill (PureSort.pointTime parseOther)).
  - intros data Hall. change (handleMissingValues ?d (Some "remove"))
      with (List.filter (fun point => hasValue (value point)) d).
    unfold PureSort.sortDataByDate. by apply sort_filter.
Qed.

End StrategiesCompose.

Lemma sortDataByDate_commutes_with_remove_and_zero_witness :
  PureSort.sortDataByDate dateOnlyEngine (Pure.handleMissingValues unordered (Some "remove"))
  = Pure.handleMissingValues (PureSort.sortDataByDate dateOnlyEngine unordered)
      (Some "remove").
Proof.
  destruct (sortDataByDate_commutes_with_remove_and_zero dateOnlyEngine) as [_ H].
  apply (H unordered). repeat constructor; eexists; vm_compute; reflexivity.
Defined.

(** ** What interpolation keeps *)

Section InterpolateKeeps.

Import Pure.

Implicit Types (data pending l : list TimeSeriesDataPoint) (p q : TimeSeriesDataPoint).

Lemma interpGo_keeps l : forall last pending,
  sublist l (interpGo last pending l) /\
  (length (interpGo last pending l)
   <= length l + length pending
      + length (List.filter (fun p => negb (hasValue (value p))) l))%nat /\
  Forall (fun q => exists p, p ∈ pending ++ l /\ date q = date p)
         (interpGo last pending l).
Proof.
  induction l as [|p l IH]; intros last pending.
  - cbn. split; [constructor|]. split; [lia|constructor].
  - assert (Hmissing : hasValue (value p) = false ->
       interpGo last pending (p :: l) = p :: interpGo last (pending ++ [p]) l).
    { intros H. cbn [interpGo]. unfold hasValue in H.
      destruct (value p) as [b|]; [|done]. by rewrite H. }
    destruct (hasValue (value p)) eqn:Hp.
    + apply hasValue_true_iff in Hp as Hv. destruct Hv as (b & Hb & Hnan).
      cbn [interpGo List.filter]. rewrite Hp. cbn [negb]. rewrite Hb, Hnan. cbn [negb].
      destruct (IH (Some b) []) as (Hsub & Hlen & Hdates).
      set (filled := match last with Some a => fillRun a b pending | None => [] end).
      assert (Hfl : (length filled <= length pending)%nat).
      { unfold filled. destruct last; [rewrite fillRun_length|cbn]; lia. }
      split; [|split].
      * apply sublist_inserts_l. by constructor.
      * rewrite length_app. cbn [length] in *. lia.
      * apply Forall_app. split.
        -- unfold filled. destruct last as [a|]; [|constructor].
           unfold fillRun. apply Forall_forall. intros q Hq.
           apply elem_of_lookup_imap in Hq as (i & x & -> & Hx).
           exists x. split; [|done]. apply elem_of_app. left.
           by eapply list_elem_of_lookup_2.
        -- constructor.
           ++ exists p. split; [|done]. apply elem_of_app. right. apply list_elem_of_here.
           ++ eapply Forall_impl; [exact Hdates|]. intros q (x & Hx & Hd). exists x.
              split; [|done]. apply elem_of_app. right. by right.
    + rewrite (Hmissing eq_refl). cbn [List.filter]. rewrite Hp. cbn [negb].
      destruct (IH last (pending ++ [p])) as (Hsub & Hlen & Hdates).
      split; [|split].
      * by constructor.
      * rewrite length_app in Hlen. cbn [length] in *. lia.
      * constructor.
        -- exists p. split; [|done]. apply elem_of_app. right. apply list_elem_of_here.
        -- eapply Forall_impl; [exact Hdates|]. intros q (x & Hx & Hd). exists x.
           split; [|done]. rewrite <- app_assoc in Hx. exact Hx.
Qed.

(** X10. Interpolation keeps every point.  The input is a subsequence of the
    result of [interpolate], so the result is at least as long; it is longer
    by at most the number of missing points; and every point of the result
    carries the date of a point of the input. *)
Theorem interpolate_keeps_every_point data :
  let out := handleMissingValues data (Some "interpolate") in
  sublist data out /\
  (length data <= length out)%nat /\
  (length out
   <= length data + length (List.filter (fun p => negb (hasValue (value p))) data))%nat /\
  forall q, q ∈ out -> exists p, p ∈ data /\ date q = date p.
Proof.
  intros out. subst out. rewrite strategy_interpolate, interpolateMissingValues_interpGo.
  destruct (interpGo_keeps data None []) as (Hsub & Hlen & Hdates).
  split; [done|]. split; [by apply sublist_length|]. split; [cbn in Hlen; lia|].
  intros q Hq. rewrite Forall_forall in Hdates. by apply Hdates.
Qed.

End InterpolateKeeps.

(** A date range taken before interpolation removes the valid point a gap
    leans on, so the two do not commute. *)
Example filterDataByDateRange_then_interpolate :
  Transform.filterDataByDateRange dateOnlyEngine
    (Pure.handleMissingValues
       [pt "2019" (Some 1%float); pt "2020" None; pt "2021" (Some 3%float)]
       (Some "interpolate"))
    (Some (DateStr "2020")) None
  = [pt "2020" None; pt "2020" (Some 2%float); pt "2021" (Some 3%float)] /\
  Pure.handleMissingValues
    (Transform.filterDataByDateRange dateOnlyEngine
       [pt "2019" (Some 1%float); pt "2020" None; pt "2021" (Some 3%float)]
       (Some (DateStr "2020")) None)
    (Some "interpolate")
  = [pt "2020" None; pt "2021" (Some 3%float)].
Proof. split; vm_compute; reflexivity. Qed.

(** ** Which objects the results hold *)

Section Sharing.

Import Heap HeapTransform.

Implicit Types (st : Store) (refs kept : list loc) (l a data result : loc).
Implicit Types (ps : list TimeSeriesDataPoint) (p : TimeSeriesDataPoint).

Lemma run_bind_inv {A B} (m : Run A) (f : A -> Run B) st (y : B) st' :
  (m ≫= f) st = Some (y, st') ->
  exists x st1, m st = Some (x, st1) /\ f x st1 = Some (y, st').
Proof.
  unfold mbind, run_bind. destruct (m st) as [[x st1]|]; [|done].
  intros H. by exists x, st1.
Qed.

Lemma readPoint_inv st l p st' :
  readPoint l st = Some (p, st') -> st' = st /\ points st !! l = Some p.
Proof.
  unfold readPoint. destruct (points st !! l) as [q|]; [|done]. cbn. by intros [= -> ->].
Qed.

Lemma readArray_inv st a refs st' :
  readArray a st = Some (refs, st') -> st' = st /\ arrays st !! a = Some refs.
Proof.
  unfold readArray. destruct (arrays st !! a) as [q|]; [|done]. cbn. by intros [= -> ->].
Qed.

Lemma filterValid_refs refs : forall st kept st',
  filterValid refs st = Some (kept, st') -> st' = st /\ sublist kept refs.
Proof.
  induction refs as [|l refs IH]; intros st kept st'.
  - intros [= <- <-]. split; [done|]. constructor.
  - cbn [filterValid]. intros (p & st1 & (-> & Hl)%readPoint_inv & H)%run_bind_inv.
    apply run_bind_inv in H as (kept' & st2 & (-> & Hsub)%IH & H).
    injection H as <- <-. split; [done|].
    destruct (hasValue (value p)); by constructor.
Qed.

(** A [map] whose callback builds a new object from each point. *)
Lemma mapZeroFill_refs refs : forall st refs' st',
  mapZeroFill refs st = Some (refs', st') ->
  newIn st refs' /\ length refs' = length refs /\ points st ⊆ points st' /\
  Forall (fun l => is_Some (points st' !! l)) refs'.
Proof.
  induction refs as [|l refs IH]; intros st refs' st'.
  - intros [= <- <-]. repeat split; try done; constructor.
  - cbn [mapZeroFill]. intros (p & st0 & (-> & Hl)%readPoint_inv & H)%run_bind_inv.
    apply run_bind_inv in H as (l' & st1 & Hnew & H).
    apply run_bind_inv in H as (rest' & st2 & Hrest & H).
    injection H as <- <-.
    destruct (newPoint_run (Pure.zeroFill p) st) as (l'' & Hnew' & Hfresh).
    rewrite Hnew' in Hnew. injection Hnew as <- <-.
    apply IH in Hrest as ([Hnd Hnone] & Hlen & Hsub & Hsome). cbn [points] in *.
    assert (Hsub0 : points st ⊆ points st2).
    { etrans; [|exact Hsub]. by apply insert_subseteq. }
    split; [split|split; [|split]].
    + constructor; [|done]. intros Hin. rewrite Forall_forall in Hnone.
      specialize (Hnone _ Hin). by rewrite lookup_insert_eq in Hnone.
    + constructor; [done|]. eapply Forall_impl; [exact Hnone|]. intros x Hx. cbn in Hx.
      destruct (decide (x = l'')) as [->|Hne]; [done|].
      by rewrite lookup_insert_ne in Hx.
    + cbn. by rewrite Hlen.
    + done.
    + constructor; [|done]. exists (Pure.zeroFill p).
      eapply lookup_weaken; [|exact Hsub]. apply lookup_insert_eq.
Qed.

Lemma mapCopy_run refs : forall st ps,
  derefs st refs = Some ps ->
  exists refs' st',
    mapCopy refs st = Some (refs', st') /\
    points st ⊆ points st' /\ arrays st' = arrays st /\
    derefs st' refs' = Some ps /\ newIn st refs'.
Proof.
  induction refs as [|l refs IH]; intros st ps H.
  - injection H as <-. exists [], st. repeat split; try done; constructor.
  - rewrite derefs_cons in H.
    destruct (points st !! l) as [p|] eqn:Hl; [|done]. cbn in H.
    destruct (derefs st refs) as [ps'|] eqn:Hrest; [|done]. cbn in H.
    injection H as <-.
    destruct (newPoint_run {| date := date p; value := value p |} st)
      as (l' & Hnew & Hfresh).
    set (st1 := {| points := <[ l' := {| date := date p; value := value p |} ]> (points st);
                   arrays := arrays st |}) in *.
    assert (Hsub1 : points st ⊆ points st1) by (by apply insert_subseteq).
    destruct (IH st1 ps' (derefs_mono _ _ _ _ Hsub1 Hrest))
      as (refs' & st2 & Hrun & Hsub2 & Harr & Hrefs' & Hnd & Hnone).
    exists (l' :: refs'), st2. cbn [mapCopy].
    rewrite (run_bind_Some _ _ _ _ _ (readPoint_run _ _ _ Hl)).
    rewrite (run_bind_Some _ _ _ _ _ Hnew).
    rewrite (run_bind_Some _ _ _ _ _ Hrun).
    split; [done|]. split; [by etrans|]. split; [done|]. split; [|split].
    + rewrite derefs_cons, Hrefs'.
      rewrite (lookup_weaken (points st1) (points st2) l' {| date := date p; value := value p |});
        [by destruct p| |done].
      apply lookup_insert_eq.
    + constructor; [|done]. intros Hin. rewrite Forall_forall in Hnone.
      specialize (Hnone _ Hin). cbn in Hnone. by rewrite lookup_insert_eq in Hnone.
    + constructor; [done|]. eapply Forall_impl; [exact Hnone|]. intros x Hx. cbn in Hx.
      destruct (decide (x = l')) as [->|Hne]; [done|].
      by rewrite lookup_insert_ne in Hx.
Qed.

Lemma filterInRange_run parseOther start end' st refs ps :
  derefs st refs = Some ps ->
  exists kept,
    filterInRange parseOther start end' refs st = Some (kept, st) /\
    sublist kept refs /\
    derefs st kept = Some (List.filter (Transform.inRange parseOther start end') ps).
Proof.
  revert ps. induction refs as [|l refs IH]; intros ps H.
  - injection H as <-. exists []. split; [done|]. split; [constructor|done].
  - rewrite derefs_cons in H.
    destruct (points st !! l) as [p|] eqn:Hl; [|done]. cbn in H.
    destruct (derefs st refs) as [ps'|] eqn:Hrest; [|done]. cbn in H.
    injection H as <-. destruct (IH ps' eq_refl) as (kept & Hrun & Hsub & Hkept).
    cbn [filterInRange].
    rewrite (run_bind_Some _ _ _ _ _ (readPoint_run _ _ _ Hl)).
    rewrite (run_bind_Some _ _ _ _ _ Hrun). cbn [List.filter].
    destruct (Transform.inRange parseOther start end' p); eexists; (split; [done|]).
    + split; [by constructor|]. by rewrite derefs_cons, Hl, Hkept.
    + split; [by constructor|done].
Qed.

(** *** The references the loop of [interpolateMissingValues] pushes *)

Lemma newIn_cons st st1 l (p : TimeSeriesDataPoint) new :
  points st !! l = None -> points st1 = <[ l := p ]> (points st) ->
  newIn st1 new -> newIn st (l :: new).
Proof.
  intros Hl Hst1 [Hnd Hnone]. rewrite Hst1 in Hnone. split.
  - constructor; [|done]. intros Hin. rewrite Forall_forall in Hnone.
    specialize (Hnone _ Hin). cbn in Hnone. by rewrite lookup_insert_eq in Hnone.
  - constructor; [done|]. eapply Forall_impl; [exact Hnone|]. intros x Hx. cbn in Hx.
    destruct (decide (x = l)) as [->|Hne]; [done|]. by rewrite lookup_insert_ne in Hx.
Qed.

Lemma newIn_nil st : newIn st [].
Proof. split; constructor. Qed.

Lemma fillGap_refs data result (lv v : float) (lvi i : Z) js : forall st st' rrefs,
  Heap.fillGap data result lv v lvi i js st = Some (tt, st') ->
  arrays st !! result = Some rrefs ->
  exists new,
    arrays st' = <[ result := rrefs ++ new ]> (arrays st) /\
    points st ⊆ points st' /\ newIn st new.
Proof.
  induction js as [|j js IH]; intros st st' rrefs Hrun Hres.
  - injection Hrun as <-. exists []. rewrite app_nil_r, insert_id by done.
    split; [done|]. split; [done|]. apply newIn_nil.
  - cbn [Heap.fillGap] in Hrun.
    apply run_bind_inv in Hrun as (refs & st0 & (-> & Hdata)%readArray_inv & Hrun).
    destruct (refs !! Z.to_nat j) as [l|]; [|by apply IH].
    apply run_bind_inv in Hrun as (p & st0 & (-> & Hl)%readPoint_inv & Hrun).
    apply run_bind_inv in Hrun as (l' & st1 & Hnew & Hrun).
    apply run_bind_inv in Hrun as ([] & st2 & Hpush & Hrun).
    destruct (newPoint_run
                {| date := date p;
                   value := Some (lv + (v - lv) * (ofIndex (j - lvi) / ofIndex (i - lvi)))%float |}
                st) as (l'' & Hnew' & Hfresh).
    rewrite Hnew' in Hnew. injection Hnew as <- <-.
    unfold push in Hpush. cbn [arrays points] in Hpush. rewrite Hres in Hpush.
    cbn in Hpush. injection Hpush as <-.
    apply (IH _ _ (rrefs ++ [l''])) in Hrun as (new & Harr & Hsub & Hnew);
      [|cbn; apply lookup_insert_eq].
    cbn [arrays points] in *.
    exists (l'' :: new). split; [|split].
    + rewrite Harr, insert_insert_eq. by rewrite <- app_assoc.
    + etrans; [|exact Hsub]. by apply insert_subseteq.
    + eapply (newIn_cons st _ l'' _ new Hfresh); [|exact Hnew]. reflexivity.
Qed.

Lemma newIn_weaken st st' new : points st ⊆ points st' -> newIn st' new -> newIn st new.
Proof.
  intros Hsub [Hnd Hnone]. split; [done|]. eapply Forall_impl; [exact Hnone|].
  intros l Hl. cbn in Hl. destruct (points st !! l) as [p|] eqn:Hp; [|done].
  by rewrite (lookup_weaken _ _ _ _ Hp Hsub) in Hl.
Qed.

Lemma interpStep_refs data result vars (i : Z) st vars' st' refs0 rrefs :
  Heap.interpStep data result vars i st = Some (vars', st') ->
  arrays st !! data = Some refs0 ->
  arrays st !! result = Some rrefs ->
  exists new,
    arrays st' = <[ result := rrefs ++ new ]> (arrays st) /\
    points st ⊆ points st' /\
    match refs0 !! Z.to_nat i with
    | Some l => exists filled, new = filled ++ [l] /\ newIn st filled
    | None => new = []
    end.
Proof.
  intros Hrun Hdata Hres. unfold Heap.interpStep in Hrun. destruct vars as [lastv lasti].
  apply run_bind_inv in Hrun as (refs & st0 & (-> & Hdata')%readArray_inv & Hrun).
  rewrite Hdata in Hdata'. injection Hdata' as <-.
  destruct (refs0 !! Z.to_nat i) as [l|].
  2:{ injection Hrun as <- <-. exists []. by rewrite app_nil_r, insert_id. }
  apply run_bind_inv in Hrun as (p & st0 & (-> & Hl)%readPoint_inv & Hrun).
  assert (Hpush : forall st1 st2 rrefs1 (u : unit),
     push result l st1 = Some (u, st2) -> arrays st1 !! result = Some rrefs1 ->
     arrays st2 = <[ result := rrefs1 ++ [l] ]> (arrays st1) /\ points st2 = points st1).
  { intros st1 st2 rrefs1 u H1 H2. unfold push in H1. rewrite H2 in H1. cbn in H1.
    injection H1 as _ <-. done. }
  assert (Hplain : forall (w : option float * Z),
     (push result l ≫= fun _ => mret w) st = Some (vars', st') ->
     exists new,
       arrays st' = <[ result := rrefs ++ new ]> (arrays st) /\
       points st ⊆ points st' /\
       exists filled, new = filled ++ [l] /\ newIn st filled).
  { intros w (u & st1 & H1 & H2)%run_bind_inv. injection H2 as <- <-.
    destruct (Hpush _ _ _ _ H1 Hres) as [Harr Hpts].
    exists [l]. split; [done|]. split; [by rewrite Hpts|].
    exists []. split; [done|]. apply newIn_nil. }
  destruct (value p) as [x|]; [|by apply (Hplain (lastv, lasti))].
  destruct (negb (isNaN x)); [|by apply (Hplain (lastv, lasti))].
  apply run_bind_inv in Hrun as ([] & st1 & Hfill & Hrun).
  apply run_bind_inv in Hrun as (u & st2 & H1 & H2). injection H2 as <- <-.
  assert (Hfilled : exists filled,
     arrays st1 = <[ result := rrefs ++ filled ]> (arrays st) /\
     points st ⊆ points st1 /\ newIn st filled).
  { destruct ((0 <=? lasti) && (lasti <? i - 1)), lastv as [lv|];
      try (injection Hfill as <-; exists []; rewrite app_nil_r, insert_id by done;
           split; [done|]; split; [done|]; apply newIn_nil).
    by eapply fillGap_refs. }
  destruct Hfilled as (filled & Harr1 & Hsub1 & Hnew1).
  destruct (Hpush _ _ (rrefs ++ filled) _ H1) as [Harr2 Hpts2].
  { rewrite Harr1. apply lookup_insert_eq. }
  exists (filled ++ [l]). split; [|split].
  - rewrite Harr2, Harr1, insert_insert_eq. by rewrite <- app_assoc.
  - by rewrite Hpts2.
  - by exists filled.
Qed.

(** The references pushed while the loop visits [indices]: those of the
    input at these indices, in order, with new objects among them. *)
Lemma interpLoop_refs data result refs0 indices : forall vars st st' rrefs,
  data <> result ->
  Heap.interpLoop data result vars indices st = Some (tt, st') ->
  arrays st !! data = Some refs0 ->
  arrays st !! result = Some rrefs ->
  exists new,
    arrays st' = <[ result := rrefs ++ new ]> (arrays st) /\
    points st ⊆ points st' /\
    sublist (omap (fun i : Z => refs0 !! Z.to_nat i) indices) new /\
    Forall (fun l => l ∈ refs0 \/ points st !! l = None) new.
Proof.
  intros vars st st' rrefs Hne. revert vars st st' rrefs.
  induction indices as [|i indices IH]; intros vars st st' rrefs Hrun Hdata Hres.
  - injection Hrun as <-. exists []. rewrite app_nil_r, insert_id by done.
    split; [done|]. split; [done|]. split; constructor.
  - cbn [Heap.interpLoop] in Hrun.
    apply run_bind_inv in Hrun as (vars1 & st1 & Hstep & Hrun).
    destruct (interpStep_refs _ _ _ _ _ _ _ _ _ Hstep Hdata Hres)
      as (new1 & Harr1 & Hsub1 & Hnew1).
    apply (IH _ _ _ (rrefs ++ new1)) in Hrun as (new2 & Harr2 & Hsub2 & Hsl & Hall).
    2:{ rewrite Harr1. by rewrite lookup_insert_ne. }
    2:{ rewrite Harr1. apply lookup_insert_eq. }
    exists (new1 ++ new2). split; [|split; [by etrans|split]].
    + rewrite Harr2, Harr1, insert_insert_eq. by rewrite <- app_assoc.
    + cbn [omap list_omap]. destruct (refs0 !! Z.to_nat i) as [l|] eqn:Hl.
      * destruct Hnew1 as (filled & -> & _). rewrite <- app_assoc.
        apply sublist_inserts_l. cbn. by constructor.
      * subst new1. done.
    + apply Forall_app. split.
      * destruct (refs0 !! Z.to_nat i) as [l|] eqn:Hl; [|subst new1; constructor].
        destruct Hnew1 as (filled & -> & _ & Hnone). apply Forall_app. split.
        -- eapply Forall_impl; [exact Hnone|]. intros x Hx. by right.
        -- constructor; [|constructor]. left. by eapply list_elem_of_lookup_2.
      * eapply Forall_impl; [exact Hall|]. intros x [Hx|Hx]; [by left|right].
        cbn in Hx. destruct (points st !! x) as [p|] eqn:Hp; [|done].
        by rewrite (lookup_weaken _ _ _ _ Hp Hsub1) in Hx.
Qed.

Lemma omap_lookup_seqZ_from {X} (l : list X) : forall pre,
  omap (fun i : Z => (pre ++ l) !! Z.to_nat i)
       (seqZ (Z.of_nat (length pre)) (Z.of_nat (length l))) = l.
Proof.
  induction l as [|x l IH]; intros pre; [done|].
  cbn [length]. rewrite Nat2Z.inj_succ, seqZ_cons by lia.
  cbn [omap list_omap]. rewrite Nat2Z.id, list_lookup_middle by done. f_equal.
  replace (Z.succ (Z.of_nat (length pre))) with (Z.of_nat (length (pre ++ [x])))
    by (rewrite length_app; cbn; lia).
  replace (Z.pred (Z.succ (Z.of_nat (length l)))) with (Z.of_nat (length l)) by lia.
  replace (pre ++ x :: l) with ((pre ++ [x]) ++ l) by (by rewrite <- app_assoc).
  apply IH.
Qed.

Lemma omap_lookup_seqZ {X} (l : list X) :
  omap (fun i : Z => l !! Z.to_nat i) (seqZ 0 (Z.of_nat (length l))) = l.
Proof. apply (omap_lookup_seqZ_from l []). Qed.

Lemma interpolateMissingValues_refs data st r st' refs0 :
  Heap.interpolateMissingValues data st = Some (r, st') ->
  arrays st !! data = Some refs0 ->
  exists refs',
    arrays st' !! r = Some refs' /\
    sublist refs0 refs' /\
    Forall (fun l => l ∈ refs0 \/ points st !! l = None) refs'.
Proof.
  intros Hrun Hdata. unfold Heap.interpolateMissingValues in Hrun.
  apply run_bind_inv in Hrun as (result & st1 & Hnew & Hrun).
  destruct (newArray_run [] st) as (result' & Hnew' & Hfresh).
  rewrite Hnew' in Hnew. injection Hnew as <- <-.
  assert (Hne : data <> result') by (intros ->; congruence).
  apply run_bind_inv in Hrun as (refs & st1 & (-> & Hdata')%readArray_inv & Hrun).
  cbn [arrays] in Hdata'. rewrite lookup_insert_ne in Hdata' by done.
  rewrite Hdata in Hdata'. injection Hdata' as <-.
  apply run_bind_inv in Hrun as ([] & st2 & Hloop & Hrun). injection Hrun as <- <-.
  apply (interpLoop_refs data result' refs0 _ _ _ _ [] Hne) in Hloop
    as (new & Harr & Hsub & Hsl & Hall).
  - exists new. cbn [arrays points app] in *. split; [|split].
    + rewrite Harr. apply lookup_insert_eq.
    + by rewrite omap_lookup_seqZ in Hsl.
    + done.
  - cbn. by rewrite lookup_insert_ne.
  - cbn. apply lookup_insert_eq.
Qed.

(** X11. Which results hold the objects of the input.  The array [remove]
    returns holds some of the very objects of the input, in their order, and
    creates no object; the array of the sort holds the same objects, each
    once more; the array of [zero] holds only objects that did not exist
    before; the array of [interpolate] holds every object of the input, in
    order, and beside them only new ones; an unrecognised strategy returns
    the array it was given and leaves the store as it is. *)
Theorem transforms_share_or_copy_points :
  forall parseOther st data refs ps,
    Heap.arrays st !! data = Some refs ->
    derefs st refs = Some ps ->
    (exists r st' kept,
       Heap.handleMissingValues data (Some "remove") st = Some (r, st') /\
       Heap.arrays st' !! r = Some kept /\
       sublist kept refs /\ Heap.points st' = Heap.points st) /\
    (exists r st' refs',
       Heap.handleMissingValues data (Some "zero") st = Some (r, st') /\
       Heap.arrays st' !! r = Some refs' /\
       length refs' = length refs /\ newIn st refs') /\
    (exists r st' refs',
       Heap.handleMissingValues data (Some "interpolate") st = Some (r, st') /\
       Heap.arrays st' !! r = Some refs' /\
       sublist refs refs' /\
       Forall (fun l => l ∈ refs \/ Heap.points st !! l = None) refs') /\
    (exists r st' refs',
       Heap.sortDataByDate parseOther data st = Some (r, st') /\
       Heap.arrays st' !! r = Some refs' /\
       refs' ≡ₚ refs /\ Heap.points st' = Heap.points st) /\
    (forall s, recognised (Some s) = false ->
       Heap.handleMissingValues data (Some s) st = Some (data, st)).
Proof.
  intros parseOther st data refs ps Hdata Hps.
  assert (Hc : Heap.contents st data = Some ps).
  { unfold Heap.contents. rewrite Hdata. exact Hps. }
  split; [|split; [|split; [|split]]].
  - destruct (filterValid_run st refs ps Hps) as (kept & Hrun & _).
    destruct (filterValid_refs _ _ _ _ Hrun) as [_ Hsub].
    destruct (newArray_run kept st) as (r & Hnew & Hfresh).
    eexists r, _, kept. split; [|split; [|split]].
    + change (Heap.handleMissingValues data (Some "remove"))
        with (Heap.readArray data ≫= fun refs => Heap.filterValid refs ≫= Heap.newArray).
      rewrite (run_bind_Some _ _ _ _ _ (readArray_run _ _ _ Hdata)).
      rewrite (run_bind_Some _ _ _ _ _ Hrun). exact Hnew.
    + cbn. apply lookup_insert_eq.
    + done.
    + done.
  - destruct (mapZeroFill_run refs st ps Hps) as (refs' & st1 & Hrun & _ & Harr & _).
    destruct (mapZeroFill_refs _ _ _ _ Hrun) as (Hnew & Hlen & _).
    destruct (newArray_run refs' st1) as (r & Hr & Hfresh).
    eexists r, _, refs'. split; [|split; [|split]].
    + change (Heap.handleMissingValues data (Some "zero"))
        with (Heap.readArray data ≫= fun refs => Heap.mapZeroFill refs ≫= Heap.newArray).
      rewrite (run_bind_Some _ _ _ _ _ (readArray_run _ _ _ Hdata)).
      rewrite (run_bind_Some _ _ _ _ _ Hrun). exact Hr.
    + cbn. apply lookup_insert_eq.
    + done.
    + done.
  - destruct (interpolateMissingValues_run st data ps Hc) as (r & st' & Hrun & _).
    destruct (interpolateMissingValues_refs _ _ _ _ _ Hrun Hdata)
      as (refs' & Hr & Hsub & Hall).
    by exists r, st', refs'.
  - destruct (newArray_run refs st) as (copy & Hnew & Hfresh).
    set (sorted := JSArray.sort
           (JSArray.compareByTime (fun e => PureSort.pointTime parseOther (snd e)))
           (zip refs ps)).
    exists copy, {| Heap.points := Heap.points st;
                    Heap.arrays := <[ copy := map fst sorted ]> (Heap.arrays st) |},
      (map fst sorted).
    split; [|split; [|split]].
    + unfold Heap.sortDataByDate.
      rewrite (run_bind_Some _ _ _ _ _ (readArray_run _ _ _ Hdata)).
      rewrite (run_bind_Some _ _ _ _ _ Hnew).
      rewrite (run_bind_Some _ _ _ _ _
                 (readPoints_run {| points := points st;
                                    arrays := <[ copy := refs ]> (arrays st) |}
                                 refs ps Hps)).
      fold sorted. unfold mbind, Heap.run_bind, Heap.writeArray. cbn [Heap.arrays].
      rewrite lookup_insert_eq. cbn. by rewrite insert_insert_eq.
    + cbn. apply lookup_insert_eq.
    + unfold sorted. rewrite sort_Permutation.
      change (map fst (zip refs ps)) with (fst <$> zip refs ps).
      rewrite fst_zip; [done|]. by rewrite (derefs_length _ _ _ Hps).
    + done.
  - intros s Hs. unfold recognised in Hs. cbn in Hs.
    apply orb_false_iff in Hs as [Hs Hi]. apply orb_false_iff in Hs as [Hr Hz].
    unfold Heap.handleMissingValues. cbn. by rewrite Hr, Hz, Hi.
Qed.

End Sharing.

(** X12. [normalizeTimeSeriesData] copies.  It returns a new array of new,
    distinct objects that carry the dates and values of the input in the same
    order, and leaves every object and array that existed as it was. *)
Theorem normalizeTimeSeriesData_copies :
  forall st data ps,
    Heap.contents st data = Some ps ->
    exists r st' refs',
      HeapTransform.normalizeTimeSeriesData data st = Some (r, st') /\
      framed st st' /\
      Heap.contents st' data = Some ps /\
      Heap.arrays st !! r = None /\
      Heap.arrays st' !! r = Some refs' /\
      newIn st refs' /\
      Heap.contents st' r = Some ps.
Proof.
  intros st data ps Hc. pose proof Hc as (refs & Hdata & Hps)%contents_refs.
  destruct (mapCopy_run refs st ps Hps) as (refs' & st1 & Hrun & Hsub & Harr & Hrefs' & Hnew).
  destruct (newArray_run refs' st1) as (r & Hr & Hfresh).
  exists r, {| Heap.points := Heap.points st1;
               Heap.arrays := <[ r := refs' ]> (Heap.arrays st1) |}, refs'.
  rewrite Harr in Hfresh.
  assert (Hfr : framed st {| Heap.points := Heap.points st1;
                             Heap.arrays := <[ r := refs' ]> (Heap.arrays st1) |}).
  { split; [done|]. cbn. rewrite Harr. by apply insert_subseteq. }
  split; [|split; [done|split; [by apply (contents_framed st)|split; [done|]]]].
  - unfold HeapTransform.normalizeTimeSeriesData.
    rewrite (run_bind_Some _ _ _ _ _ (readArray_run _ _ _ Hdata)).
    rewrite (run_bind_Some _ _ _ _ _ Hrun). exact Hr.
  - cbn [Heap.arrays]. rewrite lookup_insert_eq. split; [done|]. split; [done|].
    unfold Heap.contents. cbn [Heap.arrays Heap.points]. by rewrite lookup_insert_eq.
Qed.

Lemma normalizeTimeSeriesData_copies_witness :
  exists r st' refs',
    HeapTransform.normalizeTimeSeriesData 0%nat threePoints = Some (r, st') /\
    framed threePoints st' /\
    Heap.contents st' 0%nat
    = Some [pt "2021" (Some 5%float); pt "2020" None; pt "2019" (Some 7%float)] /\
    Heap.arrays threePoints !! r = None /\
    Heap.arrays st' !! r = Some refs' /\
    newIn threePoints refs' /\
    Heap.contents st' r
    = Some [pt "2021" (Some 5%float); pt "2020" None; pt "2019" (Some 7%float)].
Proof.
  apply (normalizeTimeSeriesData_copies threePoints 0%nat). reflexivity.
Defined.

(** X13. What [filterDataByDateRange] returns.  With no bound given it
    returns the array it was given, not a copy, and changes nothing.  With a
    bound it adds one new array to the store and changes nothing else; that
    array holds some of the very objects of the input, in their order, and
    they are the points of the range. *)
Theorem filterDataByDateRange_returns_input_or_new_array :
  forall parseOther st data refs ps startDate endDate,
    Heap.arrays st !! data = Some refs ->
    derefs st refs = Some ps ->
    (Transform.given startDate = false -> Transform.given endDate = false ->
     HeapTransform.filterDataByDateRange parseOther data startDate endDate st
     = Some (data, st)) /\
    (Transform.given startDate = true \/ Transform.given endDate = true ->
     exists r kept,
       HeapTransform.filterDataByDateRange parseOther data startDate endDate st
       = Some (r, {| Heap.points := Heap.points st;
                     Heap.arrays := <[ r := kept ]> (Heap.arrays st) |}) /\
       Heap.arrays st !! r = None /\
       sublist kept refs /\
       derefs st kept
       = Some (Transform.filterDataByDateRange parseOther ps startDate endDate)).
Proof.
  intros parseOther st data refs ps startDate endDate Hdata Hps. split.
  - intros Hs He. unfold HeapTransform.filterDataByDateRange. by rewrite Hs, He.
  - intros Hg. unfold HeapTransform.filterDataByDateRange.
    rewrite (filterDataByDateRange_bounded _ _ _ _ Hg).
    assert (negb (Transform.given startDate) && negb (Transform.given endDate) = false)
      as ->.
    { destruct Hg as [-> | ->]; [done|]. by rewrite andb_false_r. }
    destruct (filterInRange_run parseOther
                (Transform.boundTime parseOther startDate Transform.NegInfinity)
                (Transform.boundTime parseOther endDate Transform.PosInfinity)
                st refs ps Hps) as (kept & Hrun & Hsub & Hkept).
    destruct (newArray_run kept st) as (r & Hr & Hfresh).
    exists r, kept.
    rewrite (run_bind_Some _ _ _ _ _ (readArray_run _ _ _ Hdata)).
    rewrite (run_bind_Some _ _ _ _ _ Hrun). done.
Qed.

Lemma filterDataByDateRange_returns_input_or_new_array_witness :
  HeapTransform.filterDataByDateRange dateOnlyEngine 0%nat None (Some (DateStr "")) threePoints
  = Some (0%nat, threePoints) /\
  exists r kept,
    HeapTransform.filterDataByDateRange dateOnlyEngine 0%nat (Some (DateStr "2020")) None
      threePoints
    = Some (r, {| Heap.points := Heap.points threePoints;
                  Heap.arrays := <[ r := kept ]> (Heap.arrays threePoints) |}) /\
    Heap.arrays threePoints !! r = None /\
    sublist kept [10; 11; 12]%nat /\
    derefs threePoints kept
    = Some (Transform.filterDataByDateRange dateOnlyEngine
              [pt "2021" (Some 5%float); pt "2020" None; pt "2019" (Some 7%float)]
              (Some (DateStr "2020")) None).
Proof.
  split.
  - apply (filterDataByDateRange_returns_input_or_new_array dateOnlyEngine threePoints 0%nat
             [10; 11; 12]%nat
             [pt "2021" (Some 5%float); pt "2020" None; pt "2019" (Some 7%float)]
             None (Some (DateStr ""))); reflexivity.
  - apply (filterDataByDateRange_returns_input_or_new_array dateOnlyEngine threePoints 0%nat
             [10; 11; 12]%nat
             [pt "2021" (Some 5%float); pt "2020" None; pt "2019" (Some 7%float)]
             (Some (DateStr "2020")) None); try reflexivity. left. reflexivity.
Defined.

Lemma transforms_share_or_copy_points_witness :
  (exists r st' kept,
     Heap.handleMissingValues 0%nat (Some "remove") threePoints = Some (r, st') /\
     Heap.arrays st' !! r = Some kept /\
     sublist kept [10; 11; 12]%nat /\ Heap.points st' = Heap.points threePoints) /\
  (exists r st' refs',
     Heap.handleMissingValues 0%nat (Some "zero") threePoints = Some (r, st') /\
     Heap.arrays st' !! r = Some refs' /\
     length refs' = length [10; 11; 12]%nat /\ newIn threePoints refs') /\
  (exists r st' refs',
     Heap.handleMissingValues 0%nat (Some "interpolate") threePoints = Some (r, st') /\
     Heap.arrays st' !! r = Some refs' /\
     sublist [10; 11; 12]%nat refs' /\
     Forall (fun l => l ∈ [10; 11; 12]%nat \/ Heap.points threePoints !! l = None) refs') /\
  (exists r st' refs',
     Heap.sortDataByDate dateOnlyEngine 0%nat threePoints = Some (r, st') /\
     Heap.arrays st' !! r = Some refs' /\
     refs' ≡ₚ [10; 11; 12]%nat /\ Heap.points st' = Heap.points threePoints) /\
  (forall s, recognised (Some s) = false ->
     Heap.handleMissingValues 0%nat (Some s) threePoints = Some (0%nat, threePoints)).
Proof.
  apply (transforms_share_or_copy_points dateOnlyEngine threePoints 0%nat [10; 11; 12]%nat
           [pt "2021" (Some 5%float); pt "2020" None; pt "2019" (Some 7%float)]);
    reflexivity.
Defined.

(** ** Numbers: when a difference is NaN, and how comparisons relate *)

Section NumberFacts.

Lemma SFcompare_refl (f : spec_float) : f <> S754_nan -> SFcompare f f = Some Eq.
Proof.
  destruct f as [s|s| |s m e]; intros H; try done; cbn.
  - by destruct s.
  - rewrite Z.compare_refl, Pos.compare_cont_refl. by destruct s.
Qed.

Lemma isNaN_spec (x : float) : isNaN x = true <-> Prim2SF x = S754_nan.
Proof.
  unfold isNaN, is_nan. rewrite FloatAxioms.eqb_spec. unfold SFeqb. split.
  - intros H. destruct (Prim2SF x) eqn:Hx; try done;
      rewrite SFcompare_refl in H; done.
  - by intros ->.
Qed.

Lemma isNaN_false_spec (x : float) : isNaN x = false <-> Prim2SF x <> S754_nan.
Proof.
  rewrite <- isNaN_spec. by destruct (isNaN x).
Qed.

Lemma SFcompare_is_Some (f g : spec_float) :
  f <> S754_nan -> g <> S754_nan -> is_Some (SFcompare f g).
Proof.
  destruct f as [s|s| |s m e], g as [s'|s'| |s' m' e']; intros Hf Hg; try done;
    cbn; by eexists.
Qed.

Lemma shr_1_nonneg (mrs : shr_record) : 0 <= shr_m mrs -> 0 <= shr_m (shr_1 mrs).
Proof.
  destruct mrs as [m r s]. cbn. destruct m as [|p|p]; [done| |lia].
  intros _. by destruct p.
Qed.

Lemma iter_pos_shr_1_nonneg (p : positive) : forall mrs,
  0 <= shr_m mrs -> 0 <= shr_m (SpecFloat.iter_pos shr_1 p mrs).
Proof.
  induction p as [p IH|p IH|]; intros mrs H; cbn.
  - by apply IH, IH, shr_1_nonneg.
  - by apply IH, IH.
  - by apply shr_1_nonneg.
Qed.

Lemma shr_fexp_nonneg (m e : Z) (l : location) :
  0 <= m -> 0 <= shr_m (fst (shr_fexp prec emax m e l)).
Proof.
  intros H. unfold shr_fexp, shr.
  assert (H0 : 0 <= shr_m (shr_record_of_loc m l)).
  { unfold shr_record_of_loc. by destruct l as [|[]]. }
  destruct (fexp prec emax (Zdigits2 m + e) - e); cbn; [done| |done].
  by apply iter_pos_shr_1_nonneg.
Qed.

Lemma round_nearest_even_nonneg (m : Z) (l : location) :
  0 <= m -> 0 <= round_nearest_even m l.
Proof.
  intros H. unfold round_nearest_even. destruct l as [|[]]; try lia.
  destruct (Z.even m); lia.
Qed.

Lemma binary_round_aux_not_nan (sx : bool) (mx ex : Z) (lx : location) :
  0 <= mx -> binary_round_aux prec emax sx mx ex lx <> S754_nan.
Proof.
  intros H. unfold binary_round_aux.
  pose proof (shr_fexp_nonneg mx ex lx H) as H1.
  destruct (shr_fexp prec emax mx ex lx) as [mrs' e'].
  pose proof (shr_fexp_nonneg
                (round_nearest_even (shr_m mrs') (loc_of_shr_record mrs')) e' loc_Exact
                (round_nearest_even_nonneg _ _ H1)) as H2.
  destruct (shr_fexp prec emax
              (round_nearest_even (shr_m mrs') (loc_of_shr_record mrs')) e' loc_Exact)
    as [mrs'' e''].
  cbn in H2. destruct (shr_m mrs''); [done| |lia].
  by destruct (e'' <=? emax - prec).
Qed.

Lemma binary_normalize_not_nan (m e : Z) (szero : bool) :
  binary_normalize prec emax m e szero <> S754_nan.
Proof.
  unfold binary_normalize, binary_round. destruct m as [|p|p]; [done| |].
  - destruct (shl_align p e _). by apply binary_round_aux_not_nan.
  - destruct (shl_align p e _). by apply binary_round_aux_not_nan.
Qed.

(** Taking a finite number from a number that is not NaN does not give NaN. *)
Lemma sub_finite_not_NaN (x y : float) :
  isNaN x = false -> isFinite y = true -> isNaN (x - y) = false.
Proof.
  rewrite !isNaN_false_spec, FloatAxioms.sub_spec. intros Hx Hy.
  assert (Hy' : exists s, Prim2SF y = S754_zero s \/ exists m e, Prim2SF y = S754_finite s m e).
  { unfold isFinite, is_finite, is_infinity in Hy.
    apply negb_true_iff, orb_false_iff in Hy as [Hn Hi].
    apply (isNaN_false_spec y) in Hn. rewrite FloatAxioms.eqb_spec, abs_spec in Hi.
    destruct (Prim2SF y) as [s|s| |s m e]; [by exists s; left| done |done|].
    exists s. right. by exists m, e. }
  destruct Hy' as (s & [Hy'|(m & e & Hy')]); rewrite Hy'.
  - destruct (Prim2SF x) as [sx|sx| |sx mx ex]; cbn; try done. by destruct sx, s.
  - destruct (Prim2SF x) as [sx|sx| |sx mx ex]; cbn; try done.
    apply binary_normalize_not_nan.
Qed.

Lemma ltb_leb (x y : float) : (x <? y)%float = true -> (x <=? y)%float = true.
Proof.
  rewrite FloatAxioms.ltb_spec, FloatAxioms.leb_spec. unfold SFltb, SFleb.
  by destruct (SFcompare (Prim2SF x) (Prim2SF y)) as [[]|].
Qed.

Lemma not_ltb_leb (x y : float) :
  isNaN x = false -> isNaN y = false ->
  (x <? y)%float = false -> (y <? x)%float = false -> (x <=? y)%float = true.
Proof.
  rewrite !isNaN_false_spec, !FloatAxioms.ltb_spec, FloatAxioms.leb_spec. unfold SFltb, SFleb.
  intros Hx Hy.
  destruct (SFcompare_is_Some _ _ Hx Hy) as [c Hc]. rewrite Hc.
  destruct c; [done|done|]. intros _.
  (* x > y: then y < x *)
  assert (H : SFcompare (Prim2SF y) (Prim2SF x) = Some Lt); [|by rewrite H].
  revert Hc. clear.
  destruct (Prim2SF x) as [s|s| |s m e], (Prim2SF y) as [s'|s'| |s' m' e']; cbn;
    try done; try (by destruct s); try (by destruct s'); try (by destruct s, s').
  change (PosDef.Pos.compare_cont Eq m m') with (Pos.compare m m').
  change (PosDef.Pos.compare_cont Eq m' m) with (Pos.compare m' m).
  rewrite (Z.compare_antisym e e'), (Pos.compare_antisym m m').
  destruct s, s'; try done; destruct (e ?= e'); cbn; try done;
    destruct (m ?= m')%positive; cbn; done.
Qed.

End NumberFacts.

(** ** The responsive width *)

Section ResponsiveWidth.

Import Chart.

(** X14. [getResponsiveWidth] never exceeds 1200.  It answers ["100%"]
    exactly when the container width is missing, zero or NaN; otherwise it
    answers a number that is not NaN and is at most 1200, namely the width
    less 40 or else 1200.  For a width below 40 that number is negative. *)
Theorem getResponsiveWidth_at_most_1200 :
  getResponsiveWidth None = VString "100%" /\
  (forall w, getResponsiveWidth (Some w) = VString "100%" <->
             isNaN w = true \/ (w =? 0)%float = true) /\
  (forall w, isNaN w = false -> (w =? 0)%float = false ->
     exists n, getResponsiveWidth (Some w) = VNumber n /\
               isNaN n = false /\ (n <=? 1200)%float = true /\
               (n = (w - 40)%float \/ n = 1200%float)) /\
  getResponsiveWidth (Some 800%float) = VNumber 760 /\
  getResponsiveWidth (Some 5000%float) = VNumber 1200 /\
  getResponsiveWidth (Some 30%float) = VNumber (-10).
Proof.
  split; [done|]. split; [|split].
  - intros w. unfold getResponsiveWidth, truthy.
    destruct (isNaN w), (w =? 0)%float; cbn;
      (split; [intros H; try done; auto|intros [H|H]; done]).
  - intros w Hn Hz. unfold getResponsiveWidth, truthy. rewrite Hn, Hz. cbn.
    eexists. split; [done|].
    assert (Hx : isNaN (w - 40) = false) by (by apply sub_finite_not_NaN).
    assert (H12 : isNaN 1200 = false) by reflexivity.
    unfold Math_min. rewrite Hx, H12. cbn [orb].
    destruct (w - 40 <? 1200)%float eqn:Hlt; [|destruct (1200 <? w - 40)%float eqn:Hgt].
    + split; [done|]. split; [by apply ltb_leb|by left].
    + split; [done|]. split; [done|by right].
    + assert (Hle : (w - 40 <=? 1200)%float = true) by (by apply not_ltb_leb).
      destruct (get_sign (w - 40)); split; try done; split; try done; tauto.
  - split; [|split]; vm_compute; reflexivity.
Qed.

Lemma getResponsiveWidth_at_most_1200_witness :
  exists n, Chart.getResponsiveWidth (Some 1240.5%float) = VNumber n /\
            isNaN n = false /\ (n <=? 1200)%float = true /\
            (n = (1240.5 - 40)%float \/ n = 1200%float).
Proof.
  destruct getResponsiveWidth_at_most_1200 as (_ & _ & H & _).
  apply (H 1240.5%float); reflexivity.
Defined.

End ResponsiveWidth.

(** ** Colours and size of the chart *)

Section ChartLook.

Import Chart.

Implicit Types (d u config : JSObject) (k : string) (t : option string).

Lemma mergeConfig_lookup d u k :
  k <> "margin" ->
  mergeConfig d (Some u) !! k
  = match u !! k with Some v => Some v | None => d !! k end.
Proof.
  intros Hk. unfold mergeConfig. rewrite lookup_insert_ne by done.
  apply lookup_union_first.
Qed.

Lemma getDefaultConfig_cases t :
  getDefaultConfig t = DEFAULT_LINE_CHART_CONFIG \/
  getDefaultConfig t = DEFAULT_BAR_CHART_CONFIG \/
  getDefaultConfig t = DEFAULT_AREA_CHART_CONFIG.
Proof.
  unfold getDefaultConfig.
  destruct (String.eqb _ "line"); [by left|].
  destruct (String.eqb _ "bar"); [by right; left|].
  destruct (String.eqb _ "area"); [by right; right|by left].
Qed.

Lemma getDefaultConfig_shared t :
  getDefaultConfig t !! "colors" = Some DEFAULT_COLORS /\
  getDefaultConfig t !! "width" = Some (VString "100%") /\
  getDefaultConfig t !! "height" = Some (VNumber 400).
Proof.
  destruct (getDefaultConfig_cases t) as [-> | [-> | ->]];
    (split; [|split]); vm_compute; reflexivity.
Qed.

Lemma defaultColors_truthy (i : nat) :
  truthy (element defaultColors (i mod length defaultColors)) = true.
Proof.
  assert (H : (i mod length defaultColors < 8)%nat).
  { apply Nat.mod_upper_bound. done. }
  destruct (i mod length defaultColors)%nat as [|[|[|[|[|[|[|[|n]]]]]]]] eqn:E;
    try reflexivity. lia.
Qed.

Lemma orElse_truthy (a b : JSValue) : truthy b = true -> truthy (orElse a b) = true.
Proof. intros H. unfold orElse. by destruct (truthy a) eqn:Ha. Qed.

(** X15. Every line gets a colour.  The colour chosen for a dataset is never
    [undefined] or empty.  Without colours in the configuration, or with an
    empty list, the default palette is used in rotation; a list of non-empty
    colours is used in rotation too, so a dataset that many places further
    gets the same colour again.  The resolved configuration has the default
    palette unless the override brings its own. *)
Theorem lineColor_cycles_through_palette :
  (forall colors index, truthy (lineColor colors index) = true) /\
  (forall index,
     lineColor None index = element defaultColors (index mod 8) /\
     lineColor (Some []) index = element defaultColors (index mod 8) /\
     lineColor (Some defaultColors) index = element defaultColors (index mod 8)) /\
  (forall items index,
     items <> [] -> Forall (fun c => truthy c = true) items ->
     lineColor (Some items) index = element items (index mod length items) /\
     lineColor (Some items) (index + length items) = lineColor (Some items) index) /\
  (forall t u,
     u !! "colors" = None ->
     colorsOf (resolveConfig t None) = Some defaultColors /\
     colorsOf (resolveConfig t (Some u)) = Some defaultColors) /\
  (forall t u items,
     u !! "colors" = Some (VArray items) ->
     colorsOf (resolveConfig t (Some u)) = Some items).
Proof.
  assert (Huser : forall items index,
     items <> [] -> Forall (fun c => truthy c = true) items ->
     lineColor (Some items) index = element items (index mod length items)).
  { intros items index Hne Hall. unfold lineColor.
    destruct items as [|c items]; [done|]. cbn [length Nat.eqb].
    assert (Hlt : (index mod S (length items) < length (c :: items))%nat).
    { apply Nat.mod_upper_bound. done. }
    destruct (lookup_lt_is_Some_2 (c :: items) _ Hlt) as [x Hx].
    unfold orElse, element. cbn [length]. rewrite Hx. cbn.
    rewrite Forall_forall in Hall. rewrite (Hall x); [done|].
    by eapply list_elem_of_lookup_2. }
  split; [|split; [|split; [|split]]].
  - intros colors index. apply orElse_truthy, defaultColors_truthy.
  - intros index. split; [done|]. split; [done|].
    rewrite Huser; [done|done|]. repeat constructor.
  - intros items index Hne Hall. split; [by apply Huser|].
    rewrite !Huser by done. f_equal.
    rewrite <- (Nat.mul_1_l (length items)) at 1.
    apply Nat.Div0.mod_add.
  - intros t u Hu. unfold colorsOf, resolveConfig.
    destruct (getDefaultConfig_shared t) as (Hc & _).
    rewrite mergeConfig_lookup by done. cbn [mergeConfig]. by rewrite Hu, Hc.
  - intros t u items Hu. unfold colorsOf, resolveConfig.
    rewrite mergeConfig_lookup by done. by rewrite Hu.
Qed.

Lemma lineColor_cycles_through_palette_witness :
  lineColor (Some [VString "red"; VString "teal"; VString "#333"]) 4
  = element [VString "red"; VString "teal"; VString "#333"] (4 mod 3) /\
  lineColor (Some [VString "red"; VString "teal"; VString "#333"]) (4 + 3)
  = lineColor (Some [VString "red"; VString "teal"; VString "#333"]) 4.
Proof.
  destruct lineColor_cycles_through_palette as (_ & _ & H & _).
  apply (H [VString "red"; VString "teal"; VString "#333"] 4%nat); [done|].
  repeat constructor.
Defined.

(** X16. The size of the chart falls back.  The width and height the chart
    is drawn with are never falsy: an override of [undefined], 0, NaN or the
    empty string is replaced by ["100%"] and 400, any other override is
    used as it is, and without override the defaults apply. *)
Theorem chart_size_falls_back :
  (forall config, truthy (chartWidth config) = true /\ truthy (chartHeight config) = true) /\
  (forall t, chartWidth (resolveConfig t None) = VString "100%" /\
             chartHeight (resolveConfig t None) = VNumber 400) /\
  (forall t u,
     chartWidth (resolveConfig t (Some u))
     = match u !! "width" with
       | Some v => if truthy v then v else VString "100%"
       | None => VString "100%"
       end /\
     chartHeight (resolveConfig t (Some u))
     = match u !! "height" with
       | Some v => if truthy v then v else VNumber 400
       | None => VNumber 400
       end) /\
  chartHeight (resolveConfig None (Some {[ "height" := VNumber 0 ]})) = VNumber 400.
Proof.
  split; [|split; [|split]].
  - intros config. split; by apply orElse_truthy.
  - intros t. destruct (getDefaultConfig_shared t) as (_ & Hw & Hh).
    unfold chartWidth, chartHeight, property, resolveConfig. cbn [mergeConfig].
    by rewrite Hw, Hh.
  - intros t u. destruct (getDefaultConfig_shared t) as (_ & Hw & Hh).
    unfold chartWidth, chartHeight, property, resolveConfig.
    rewrite !mergeConfig_lookup by done. rewrite Hw, Hh.
    split.
    + by destruct (u !! "width").
    + by destruct (u !! "height").
  - vm_compute. reflexivity.
Qed.

End ChartLook.

(** ** The cells of the rows *)

Section Cells.

Implicit Types (dm : DataMap) (ws : list Write) (w : Write) (k i : string).
Implicit Types (ds : TimeSeriesDataset) (p : TimeSeriesDataPoint).

Lemma metadata_key_not_proto i : (i ++ "_metadata")%string <> "__proto__".
Proof.
  intros H. assert (Hlen : String.length i = 0%nat).
  { apply (f_equal String.length) in H. rewrite string_length_append in H. cbn in H. lia. }
  destruct i; [done|done].
Qed.

Lemma metadata_key_not_metadata i : (i ++ "_metadata")%string <> "metadata".
Proof.
  intros H. apply (f_equal String.length) in H.
  rewrite string_length_append in H. cbn in H. lia.
Qed.

Lemma writeRow_own_value w (row : Row) :
  id (wds w) <> "__proto__" ->
  writeRow w row !! id (wds w) = Some (CNumber (wvalue w)).
Proof.
  intros Hp. unfold writeRow. destruct (metadata (wds w)) as [m|].
  - rewrite setProperty_other; [by apply setProperty_own|].
    intros H. apply (f_equal String.length) in H.
    rewrite string_length_append in H. cbn in H. lia.
  - by apply setProperty_own.
Qed.

(** The cell of a value column: the value of the last write to it. *)
Lemma rowOf_cell k ws i :
  i <> "date" -> i <> "__proto__" ->
  (forall w, w ∈ ws -> (id (wds w) ++ "_metadata")%string <> i) ->
  rowOf k ws !! i = (fun w => CNumber (wvalue w)) <$> last (writesTo k i ws).
Proof.
  intros Hd Hp. induction ws as [|w ws IH] using rev_ind; intros Hm.
  - unfold rowOf. cbn. by rewrite lookup_singleton_ne.
  - rewrite rowOf_snoc. unfold writesTo. rewrite List.filter_app. cbn [List.filter].
    assert (IH' : rowOf k ws !! i
                  = (fun w => CNumber (wvalue w)) <$> last (writesTo k i ws)).
    { apply IH. intros w' Hw'. apply Hm, elem_of_app. by left. }
    assert (Hmw : (id (wds w) ++ "_metadata")%string <> i).
    { apply Hm, elem_of_app. right. by apply list_elem_of_singleton. }
    destruct (String.eqb (wkey w) k); cbn [andb].
    + destruct (String.eqb_spec (id (wds w)) i) as [Heq|Hne].
      * rewrite last_snoc. cbn. subst i. by apply writeRow_own_value.
      * rewrite app_nil_r. by rewrite writeRow_other.
    + by rewrite app_nil_r.
Qed.

(** The cell under ["metadata"], the property the tooltip reads: never the
    metadata of a dataset. *)
Lemma rowOf_metadata_cell k ws :
  rowOf k ws !! "metadata" = None \/ exists v, rowOf k ws !! "metadata" = Some (CNumber v).
Proof.
  induction ws as [|w ws IH] using rev_ind.
  - left. unfold rowOf. cbn. by rewrite lookup_singleton_ne.
  - rewrite rowOf_snoc. destruct (String.eqb (wkey w) k); [|done].
    destruct (String.eqb_spec (id (wds w)) "metadata") as [Heq|Hne].
    + right. exists (wvalue w). rewrite <- Heq. apply writeRow_own_value.
      by rewrite Heq.
    + rewrite writeRow_other; [done|done|]. apply metadata_key_not_metadata.
Qed.

Lemma writesTo_points ds points ws k i :
  writesOfPoints ds points = Some ws ->
  writesTo k i ws
  = if String.eqb (id ds) i
    then map (fun p => {| wkey := k; wds := ds; wvalue := value p |})
             (List.filter (fun p => bool_decide (dateStr (date p) = Some k)) points)
    else [].
Proof.
  revert ws. induction points as [|p rest IH]; intros ws Hws.
  - injection Hws as <-. cbn. by destruct (String.eqb (id ds) i).
  - cbn [writesOfPoints] in Hws.
    destruct (dateStr (date p)) as [k'|] eqn:Hk; [|done]. cbn in Hws.
    destruct (writesOfPoints ds rest) as [ws'|]; [|done]. cbn in Hws.
    injection Hws as <-. unfold writesTo in *. cbn [List.filter wkey wds].
    rewrite (IH ws' eq_refl). rewrite Hk.
    destruct (String.eqb_spec k' k) as [->|Hne].
    + rewrite bool_decide_eq_true_2 by done. cbn [andb].
      destruct (String.eqb (id ds) i); done.
    + rewrite bool_decide_eq_false_2 by congruence. done.
Qed.

Lemma writesTo_other datasets ws k i :
  writesOf datasets = Some ws -> i ∉ map id datasets -> writesTo k i ws = [].
Proof.
  revert ws. induction datasets as [|d rest IH]; intros ws Hws Hi.
  - by injection Hws as <-.
  - cbn [writesOf] in Hws.
    destruct (writesOfPoints d (data d)) as [ws1|] eqn:H1; [|done]. cbn in Hws.
    destruct (writesOf rest) as [ws2|]; [|done]. cbn in Hws.
    injection Hws as <-. cbn in Hi. apply not_elem_of_cons in Hi as [Hd Hi].
    unfold writesTo in *. rewrite List.filter_app.
    fold (writesTo k i ws1). rewrite (writesTo_points _ _ _ k i H1).
    rewrite (IH ws2 eq_refl Hi).
    destruct (String.eqb_spec (id d) i) as [Heq|Hne]; [by subst|done].
Qed.

Lemma writesTo_dataset datasets ws k ds :
  writesOf datasets = Some ws -> NoDup (map id datasets) -> ds ∈ datasets ->
  writesTo k (id ds) ws
  = map (fun p => {| wkey := k; wds := ds; wvalue := value p |}) (pointsAt k ds).
Proof.
  revert ws. induction datasets as [|d rest IH]; intros ws Hws Hnd Hds.
  - by apply elem_of_nil in Hds.
  - cbn [writesOf] in Hws.
    destruct (writesOfPoints d (data d)) as [ws1|] eqn:H1; [|done]. cbn in Hws.
    destruct (writesOf rest) as [ws2|] eqn:H2; [|done]. cbn in Hws.
    injection Hws as <-. cbn in Hnd. apply NoDup_cons in Hnd as [Hd Hnd].
    unfold writesTo in *. rewrite List.filter_app.
    fold (writesTo k (id ds) ws1). fold (writesTo k (id ds) ws2).
    rewrite (writesTo_points _ _ _ k (id ds) H1).
    apply elem_of_cons in Hds as [->|Hds].
    + rewrite String.eqb_refl, (writesTo_other rest ws2 k (id d)) by done.
      by rewrite app_nil_r.
    + assert (Hne : id d <> id ds).
      { intros Heq. apply Hd. rewrite Heq. change (map id rest) with (id <$> rest).
        by apply list_elem_of_fmap_2. }
      apply String.eqb_neq in Hne. rewrite Hne. cbn [app].
      by apply (IH ws2).
Qed.

Lemma append_inj_l (a b s : string) : (a ++ s = b ++ s)%string -> a = b.
Proof.
  revert b. induction a as [|c a IH]; intros [|c' b] H.
  - done.
  - apply (f_equal String.length) in H.
    rewrite !string_length_append in H. cbn in H. lia.
  - apply (f_equal String.length) in H.
    rewrite !string_length_append in H. cbn in H. lia.
  - cbn in H. injection H as -> H. f_equal. by apply IH.
Qed.

Lemma metadata_key_eqb (i j : string) :
  String.eqb (i ++ "_metadata")%string (j ++ "_metadata")%string = String.eqb i j.
Proof.
  destruct (String.eqb_spec i j) as [->|Hne].
  - apply String.eqb_refl.
  - apply String.eqb_neq. intros H. by apply append_inj_l in H.
Qed.

(** The cell of a metadata column: the metadata of the last write that
    brought one. *)
Lemma rowOf_metadata_column k ws i :
  i <> "date" -> i <> "__proto__" ->
  (forall w, w ∈ ws -> id (wds w) <> i) ->
  rowOf k ws !! i = CMetadata <$> last (metadataTo k i ws).
Proof.
  intros Hd Hp. induction ws as [|w ws IH] using rev_ind; intros Hm.
  - unfold rowOf. cbn. by rewrite lookup_singleton_ne.
  - rewrite rowOf_snoc. unfold metadataTo. rewrite omap_app. cbn [omap list_omap].
    assert (IH' : rowOf k ws !! i = CMetadata <$> last (metadataTo k i ws)).
    { apply IH. intros w' Hw'. apply Hm, elem_of_app. by left. }
    assert (Hmw : id (wds w) <> i).
    { apply Hm, elem_of_app. right. by apply list_elem_of_singleton. }
    destruct (String.eqb (wkey w) k); cbn [andb]; [|by rewrite app_nil_r].
    unfold writeRow. destruct (metadata (wds w)) as [m|].
    + destruct (String.eqb_spec (id (wds w) ++ "_metadata")%string i) as [Heq|Hne].
      * rewrite last_snoc. cbn. subst i. by apply setProperty_own.
      * rewrite app_nil_r. by rewrite !setProperty_other.
    + rewrite setProperty_other by done.
      by destruct (String.eqb (id (wds w) ++ "_metadata")%string i); rewrite app_nil_r.
Qed.

Lemma metadataTo_writesTo k i ws :
  metadataTo k (i ++ "_metadata")%string ws
  = omap (fun w => metadata (wds w)) (writesTo k i ws).
Proof.
  unfold metadataTo, writesTo. induction ws as [|w ws IH]; [done|].
  cbn [omap list_omap List.filter]. rewrite metadata_key_eqb, IH.
  destruct (String.eqb (wkey w) k && String.eqb (id (wds w)) i); [|done].
  cbn [omap list_omap]. by destruct (metadata (wds w)).
Qed.

Lemma last_omap_const {X Y} (y : option Y) (l : list X) :
  last (omap (fun _ => y) l) = match y, l with Some m, _ :: _ => Some m | _, _ => None end.
Proof.
  destruct y as [m|].
  - induction l as [|x l IH] using rev_ind; [done|].
    rewrite omap_app. cbn. rewrite last_snoc. by destruct l.
  - assert (H : omap (fun _ : X => @None Y) l = []) by (by induction l).
    rewrite H. by destruct l.
Qed.

End Cells.

Section CellValues.

Variable parseOther : string -> option Z.

Implicit Types (datasets : list TimeSeriesDataset) (rows : list Row).

Lemma chartData_cells datasets :
  datesValid datasets -> idsDistinct datasets ->
  (forall ds, ds ∈ datasets -> id ds <> "__proto__") ->
  exists rows,
    chartData parseOther datasets = Some rows /\
    forall ds row k,
      ds ∈ datasets -> row ∈ rows -> row !! "date" = Some (CString k) ->
      row !! id ds = (fun p => CNumber (value p)) <$> last (pointsAt k ds) /\
      row !! (id ds ++ "_metadata")%string
      = match metadata ds, pointsAt k ds with
        | Some m, _ :: _ => Some (CMetadata m)
        | _, _ => None
        end.
Proof.
  intros Hv [Hnd Hids] Hproto.
  destruct datasets as [|ds0 rest] eqn:Hd.
  { exists []. split; [done|]. by intros ds row k ?%elem_of_nil. }
  rewrite <- Hd in *. assert (Hne : datasets <> []) by (by subst).
  clear Hd ds0 rest.
  destruct (chartData_rows parseOther datasets Hne Hv)
    as (ws & dm & rows & Hws & Hinv & Hrows & Hperm).
  exists rows. split; [done|].
  assert (Hdate : forall k, rowOf k ws !! "date" = Some (CString k)).
  { intros k. apply rowOf_date. intros w Hw.
    apply (writesOf_elem _ _ _ Hws) in Hw as (p & Hin & _).
    by apply (Hids (wds w) (wds w)). }
  intros ds row k Hds Hrow Hk. rewrite Hperm in Hrow.
  destruct (mapAfter_row dm ws row Hinv Hrow) as (k' & Hk' & ->).
  rewrite Hdate in Hk. injection Hk as ->. split.
  - rewrite rowOf_cell.
    + rewrite (writesTo_dataset datasets ws k ds Hws Hnd Hds).
      change (map ?f ?l) with (f <$> l). rewrite fmap_last.
      by destruct (last (pointsAt k ds)).
    + by apply (Hids ds ds).
    + by apply Hproto.
    + intros w Hw Heq.
      apply (writesOf_elem _ _ _ Hws) in Hw as (p & Hin & _).
      by apply (Hids ds (wds w)).
  - rewrite rowOf_metadata_column.
    + rewrite metadataTo_writesTo, (writesTo_dataset datasets ws k ds Hws Hnd Hds).
      assert (Hom : omap (fun w => metadata (wds w))
                      (map (fun p => {| wkey := k; wds := ds; wvalue := value p |})
                           (pointsAt k ds))
                    = omap (fun _ => metadata ds) (pointsAt k ds)).
      { induction (pointsAt k ds) as [|p l IH]; [done|]. cbn.
        destruct (metadata ds); by rewrite IH. }
      rewrite Hom, last_omap_const.
      by destruct (metadata ds), (pointsAt k ds).
    + apply metadata_key_not_date.
    + apply metadata_key_not_proto.
    + intros w Hw Heq.
      apply (writesOf_elem _ _ _ Hws) in Hw as (p & Hin & _).
      by apply (Hids (wds w) ds).
Qed.

(** X17. What the cells of a row hold.  When the dates are strings or valid
    [Date]s and the ids are those of distinct columns, none of them
    ["__proto__"], the row of a date string holds, under the id of a dataset,
    the value of the last point of that dataset at that date string (nothing
    when it has none), and under the id followed by ["_metadata"] the metadata
    of the dataset, when it has metadata and a point at that date string. *)
Theorem chartData_cells_hold_last_value datasets :
  datesValid datasets -> idsDistinct datasets ->
  (forall ds, ds ∈ datasets -> id ds <> "__proto__") ->
  exists rows,
    chartData parseOther datasets = Some rows /\
    forall ds row k,
      ds ∈ datasets -> row ∈ rows -> row !! "date" = Some (CString k) ->
      row !! id ds = (fun p => CNumber (value p)) <$> last (pointsAt k ds) /\
      row !! (id ds ++ "_metadata")%string
      = match metadata ds, pointsAt k ds with
        | Some m, _ :: _ => Some (CMetadata m)
        | _, _ => None
        end.
Proof. apply chartData_cells. Qed.

Lemma chartData_row_of_writes datasets rows (row : Row) :
  chartData parseOther datasets = Some rows -> row ∈ rows ->
  exists ws k, writesOf datasets = Some ws /\ row = rowOf k ws.
Proof.
  intros Hrows Hrow. destruct datasets as [|ds0 rest] eqn:Hd.
  { injection Hrows as <-. by apply elem_of_nil in Hrow. }
  rewrite <- Hd in *. assert (Hne : datasets <> []) by (by subst).
  clear Hd ds0 rest.
  destruct (writesOf datasets) as [ws|] eqn:Hws.
  - rewrite (chartData_writes parseOther datasets ws Hne Hws) in Hrows.
    injection Hrows as <-. rewrite sort_Permutation in Hrow.
    pose proof (mapAfter_writes ws [] [] mapAfter_nil) as Hinv. cbn [app] in Hinv.
    destruct (mapAfter_row _ ws row Hinv Hrow) as (k & _ & ->). by exists ws, k.
  - by rewrite (chartData_invalid_date parseOther datasets Hws Hne) in Hrows.
Qed.

(** X18. The tooltip never sees the units.  A row of [chartData] has no
    property ["metadata"] that holds metadata (the metadata are stored under
    the id followed by ["_metadata"]), so for an entry whose payload is such a
    row, [entry.payload?.metadata?.units] is [undefined] and the tooltip
    formats the value as if no units were known. *)
Theorem tooltip_formats_without_units :
  forall datasets rows row,
    chartData parseOther datasets = Some rows -> row ∈ rows ->
    Chart.payloadUnits (Some row) = None /\
    forall name v,
      Chart.tooltipLine name v (Some row) = (name ++ ": " ++ formatValue v None)%string.
Proof.
  intros datasets rows row Hrows Hrow.
  destruct (chartData_row_of_writes datasets rows row Hrows Hrow) as (ws & k & _ & ->).
  assert (Hu : Chart.payloadUnits (Some (rowOf k ws)) = None).
  { unfold Chart.payloadUnits. cbn.
    destruct (rowOf_metadata_cell k ws) as [->|[v ->]]; done. }
  split; [done|]. intros name v. unfold Chart.tooltipLine. by rewrite Hu.
Qed.

End CellValues.

Lemma chartData_cells_hold_last_value_witness :
  exists rows,
    chartData dateOnlyEngine [revisedSeries; gdpSeries] = Some rows /\
    forall ds row k,
      ds ∈ [revisedSeries; gdpSeries] -> row ∈ rows -> row !! "date" = Some (CString k) ->
      row !! id ds = (fun p => CNumber (value p)) <$> last (pointsAt k ds) /\
      row !! (id ds ++ "_metadata")%string
      = match metadata ds, pointsAt k ds with
        | Some m, _ :: _ => Some (CMetadata m)
        | _, _ => None
        end.
Proof.
  apply (chartData_cells_hold_last_value dateOnlyEngine [revisedSeries; gdpSeries]).
  - apply datesValid_Forall. repeat constructor.
  - apply idsDistinct_two; done.
  - intros ds [->|Hds]%elem_of_cons; [done|].
    apply list_elem_of_singleton in Hds as ->. done.
Defined.

(** On these two series: the row of 2020 holds the later of the two
    observations of the revised series. *)
Example chartData_revised_series :
  chartData dateOnlyEngine [revisedSeries; gdpSeries]
  = Some [ {[ "date" := CString "2020"; "rate" := CNumber (Some 3%float);
              "rate_metadata" := CMetadata {| units := Some "Percent"; frequency := None;
                                              seasonal_adjustment := None |};
              "gdp" := CNumber (Some 1%float) ]};
           {[ "date" := CString "2021"; "rate" := CNumber (Some 2%float);
              "rate_metadata" := CMetadata {| units := Some "Percent"; frequency := None;
                                              seasonal_adjustment := None |};
              "gdp" := CNumber (Some 2%float) ]} ].
Proof. vm_compute. reflexivity. Qed.

Lemma tooltip_formats_without_units_witness :
  Chart.payloadUnits
    (Some {[ "date" := CString "2020"; "rate" := CNumber (Some 3%float);
             "rate_metadata" := CMetadata {| units := Some "Percent"; frequency := None;
                                             seasonal_adjustment := None |};
             "gdp" := CNumber (Some 1%float) ]}) = None /\
  forall name v,
    Chart.tooltipLine name v
      (Some {[ "date" := CString "2020"; "rate" := CNumber (Some 3%float);
               "rate_metadata" := CMetadata {| units := Some "Percent"; frequency := None;
                                               seasonal_adjustment := None |};
               "gdp" := CNumber (Some 1%float) ]})
    = (name ++ ": " ++ formatValue v None)%string.
Proof.
  eapply (tooltip_formats_without_units dateOnlyEngine [revisedSeries; gdpSeries]).
  - vm_compute. reflexivity.
  - apply list_elem_of_here.
Defined.

(** The axis prints the units the tooltip leaves out. *)
Example axis_and_tooltip_of_a_percent_series :
  Chart.yAxisTick [revisedSeries] 3%float = "3.00%" /\
  Chart.tooltipLine "Rate" (Some 3%float)
    (Some {[ "date" := CString "2020"; "rate" := CNumber (Some 3%float);
             "rate_metadata" := CMetadata {| units := Some "Percent"; frequency := None;
                                             seasonal_adjustment := None |} ]})
  = "Rate: 3.00".
Proof. split; vm_compute; reflexivity. Qed.

(** ** The dashboard *)

Section DashboardFacts.

Import Dashboard.

Variable parseOther : string -> option Z.

Implicit Types (prev : list TimeSeriesDataset) (g ds : TimeSeriesDataset).
Implicit Types (response : Api.SeriesResponse).

Lemma hasChar_app c (a b : string) :
  hasChar c (a ++ b)%string = hasChar c a || hasChar c b.
Proof. induction a as [|c' a IH]; simpl; [done|]. by rewrite IH, orb_assoc. Qed.

Lemma graphData_id_not_date response : id (graphData response) <> "date".
Proof.
  intros H. apply (f_equal (hasChar "_")) in H. cbn [id graphData] in H.
  rewrite hasChar_app in H. cbn in H. by rewrite orb_true_r in H.
Qed.

Lemma normalize_datesValid (points : list Api.SeriesDataPoint) :
  Forall (fun p => validDate (date p)) (Transform.normalizeTimeSeriesData points).
Proof. unfold Transform.normalizeTimeSeriesData. apply Forall_map, Forall_true. done. Qed.

Lemma normalize_dateStr (points : list Api.SeriesDataPoint) :
  omap (fun p => dateStr (date p)) (Transform.normalizeTimeSeriesData points)
  = map Api.date points.
Proof.
  unfold Transform.normalizeTimeSeriesData.
  induction points as [|p l IH]; [done|]. cbn. by rewrite IH.
Qed.

Lemma normalize_pointsAt k ds (points : list Api.SeriesDataPoint) :
  data ds = Transform.normalizeTimeSeriesData points ->
  (fun p => CNumber (value p)) <$> last (pointsAt k ds)
  = (fun p => CNumber (Api.value p))
      <$> last (List.filter (fun p => String.eqb (Api.date p) k) points).
Proof.
  intros Hd. unfold pointsAt. rewrite Hd. clear Hd.
  rewrite <- !fmap_last. f_equal. unfold Transform.normalizeTimeSeriesData.
  induction points as [|p l IH]; [done|]. cbn.
  destruct (String.eqb_spec (Api.date p) k) as [->|Hne].
  - rewrite bool_decide_eq_true_2 by done. cbn. by rewrite IH.
  - rewrite bool_decide_eq_false_2 by congruence. done.
Qed.

(** X19. The chart of a fetched series.  For the dataset [handleFetchSeries]
    builds from a response, [chartData] throws nothing and yields one row per
    distinct date string of the response; unless the id comes out as
    ["__proto__"], the row of a date string holds the value of the last
    observation the response gives for it. *)
Theorem fetched_series_chart response :
  let ds := graphData response in
  exists rows,
    chartData parseOther [ds] = Some rows /\
    length rows = size (list_to_set (map Api.date (Api.data response)) : gset string) /\
    (id ds <> "__proto__" ->
     forall row k, row ∈ rows -> row !! "date" = Some (CString k) ->
       row !! id ds
       = (fun p => CNumber (Api.value p))
           <$> last (List.filter (fun p => String.eqb (Api.date p) k) (Api.data response))).
Proof.
  intros ds.
  assert (Hv : datesValid [ds]).
  { apply datesValid_Forall. constructor; [|constructor]. apply normalize_datesValid. }
  assert (Hne : [ds] <> []) by done.
  destruct (chartData_rows parseOther [ds] Hne Hv)
    as (ws & dm & rows & Hws & Hinv & Hrows & Hperm).
  exists rows. split; [done|]. split.
  - rewrite Hperm, length_map, (mapAfter_length dm ws Hinv).
    rewrite (writesOf_keys _ _ Hws). unfold dateKeys. cbn [mbind list_bind].
    rewrite app_nil_r. subst ds. cbn [data graphData]. by rewrite normalize_dateStr.
  - intros Hproto row k Hrow Hk.
    assert (Hids : idsDistinct [ds]).
    { split; [apply NoDup_singleton|].
      intros d d' ->%list_elem_of_singleton ->%list_elem_of_singleton.
      split; [apply graphData_id_not_date|].
      intros H. apply (f_equal String.length) in H.
      rewrite string_length_append in H. cbn in H. lia. }
    destruct (chartData_cells parseOther [ds] Hv Hids) as (rows' & Hrows' & Hcells).
    { by intros d ->%list_elem_of_singleton. }
    rewrite Hrows in Hrows'. injection Hrows' as <-.
    destruct (Hcells ds row k) as [Hcell _]; [apply list_elem_of_here|done|done|].
    etrans; [exact Hcell|]. by apply normalize_pointsAt.
Qed.

(** *** The list of datasets *)

Lemma existsb_id (i : string) prev :
  existsb (fun ds => String.eqb (id ds) i) prev = true <-> i ∈ map id prev.
Proof.
  rewrite existsb_exists. change (map id prev) with (id <$> prev).
  rewrite list_elem_of_fmap. split.
  - intros (ds & Hin & Heq%String.eqb_eq). exists ds. split; [done|].
    by apply list_elem_of_In.
  - intros (ds & -> & Hin). exists ds. split; [by apply list_elem_of_In|].
    apply String.eqb_refl.
Qed.

Lemma addDataset_known g prev : id g ∈ map id prev -> addDataset g prev = prev.
Proof. intros H. unfold addDataset. apply existsb_id in H. by rewrite H. Qed.

Lemma addDataset_new g prev : id g ∉ map id prev -> addDataset g prev = prev ++ [g].
Proof.
  intros H. unfold addDataset.
  destruct (existsb _ prev) eqn:E; [|done]. by apply existsb_id in E.
Qed.

Lemma handleRemoveGraph_elem (i : string) prev ds :
  ds ∈ handleRemoveGraph i prev <-> ds ∈ prev /\ id ds <> i.
Proof.
  unfold handleRemoveGraph.
  rewrite list_elem_of_In, List.filter_In, <- list_elem_of_In, negb_true_iff.
  by rewrite String.eqb_neq.
Qed.

Lemma handleRemoveGraph_absent (i : string) prev :
  i ∉ map id prev -> handleRemoveGraph i prev = prev.
Proof.
  unfold handleRemoveGraph. induction prev as [|ds prev IH]; [done|]. cbn.
  intros [Hne Hin]%not_elem_of_cons.
  apply not_eq_sym, String.eqb_neq in Hne. rewrite Hne. cbn. by rewrite IH.
Qed.

Lemma NoDup_ids_sublist prev prev' :
  sublist prev' prev -> NoDup (map id prev) -> NoDup (map id prev').
Proof.
  intros Hsub Hnd. eapply sublist_NoDup; [exact Hnd|].
  change (map id prev') with (id <$> prev'). change (map id prev) with (id <$> prev).
  by apply fmap_sublist.
Qed.

Lemma applyUpdate_keeps_ids_distinct prev (u : Update) :
  NoDup (map id prev) -> NoDup (map id (applyUpdate prev u)).
Proof.
  intros Hnd. destruct u as [g|i]; cbn.
  - destruct (decide (id g ∈ map id prev)) as [Hin|Hout].
    + by rewrite addDataset_known.
    + rewrite addDataset_new by done. rewrite map_app. cbn.
      apply NoDup_app. split; [done|]. split; [|apply NoDup_singleton].
      intros x Hx ->%list_elem_of_singleton. done.
  - eapply NoDup_ids_sublist; [|done]. apply filter_sublist.
Qed.

(** X20. The ids of the datasets of the dashboard stay distinct: starting
    from the empty list, or from any list with distinct ids, no sequence of
    arriving series and closed graphs produces two datasets with one id. *)
Theorem dashboard_ids_stay_distinct :
  (forall updates, NoDup (map id (fold_left applyUpdate updates []))) /\
  (forall prev updates,
     NoDup (map id prev) -> NoDup (map id (fold_left applyUpdate updates prev))).
Proof.
  assert (H : forall updates prev,
     NoDup (map id prev) -> NoDup (map id (fold_left applyUpdate updates prev))).
  { induction updates as [|u updates IH]; intros prev Hnd; [done|].
    cbn. by apply IH, applyUpdate_keeps_ids_distinct. }
  split.
  - intros updates. apply H. constructor.
  - intros prev updates. apply H.
Qed.

(** X21. Adding and removing a dataset.  A series whose id the list already
    has is not added, and the dataset that is there is kept as it is; a new
    one goes to the end, and closing its graph gives back the list as it
    was; adding twice is adding once.  Closing a graph removes the datasets
    of that id and only those, in place, and does nothing when there are
    none. *)
Theorem addDataset_and_handleRemoveGraph :
  (forall g prev, id g ∈ map id prev -> addDataset g prev = prev) /\
  (forall g prev, id g ∉ map id prev ->
     addDataset g prev = (prev ++ [g]) /\
     handleRemoveGraph (id g) (addDataset g prev) = prev) /\
  (forall g prev, addDataset g (addDataset g prev) = addDataset g prev) /\
  (forall i prev,
     sublist (handleRemoveGraph i prev) prev /\
     (i ∉ map id (handleRemoveGraph i prev)) /\
     forall ds, ds ∈ handleRemoveGraph i prev <-> ds ∈ prev /\ id ds <> i) /\
  (forall i prev, i ∉ map id prev -> handleRemoveGraph i prev = prev).
Proof.
  split; [exact addDataset_known|]. split; [|split; [|split]].
  - intros g prev Hout. split; [by apply addDataset_new|].
    rewrite addDataset_new by done. unfold handleRemoveGraph.
    rewrite List.filter_app. cbn. rewrite String.eqb_refl. cbn. rewrite app_nil_r.
    exact (handleRemoveGraph_absent (id g) prev Hout).
  - intros g prev. destruct (decide (id g ∈ map id prev)) as [Hin|Hout].
    + rewrite (addDataset_known g prev Hin). by apply addDataset_known.
    + rewrite (addDataset_new g prev Hout). apply addDataset_known.
      rewrite map_app. apply elem_of_app. right. cbn. apply list_elem_of_here.
  - intros i prev. split; [apply filter_sublist|]. split.
    + change (map id ?l) with (id <$> l). rewrite list_elem_of_fmap.
      intros (ds & -> & Hds). by apply handleRemoveGraph_elem in Hds as [_ Hne].
    + intros ds. apply handleRemoveGraph_elem.
  - exact handleRemoveGraph_absent.
Qed.

End DashboardFacts.

Lemma fetched_series_chart_witness :
  exists rows,
    chartData dateOnlyEngine [Dashboard.graphData unrateResponse] = Some rows /\
    length rows
    = size (list_to_set (map Api.date (Api.data unrateResponse)) : gset string) /\
    forall row k, row ∈ rows -> row !! "date" = Some (CString k) ->
      row !! id (Dashboard.graphData unrateResponse)
      = (fun p => CNumber (Api.value p))
          <$> last (List.filter (fun p => String.eqb (Api.date p) k)
                                (Api.data unrateResponse)).
Proof.
  destruct (fetched_series_chart dateOnlyEngine unrateResponse) as (rows & H1 & H2 & H3).
  exists rows. split; [done|]. split; [done|]. apply H3. done.
Defined.

(** The chart of that response: two rows, the later observation of January. *)
Example chart_of_unrate :
  chartData dateOnlyEngine [Dashboard.graphData unrateResponse]
  = Some [ {[ "date" := CString "2020-01-01"; "fred_UNRATE" := CNumber (Some 3.6%float);
              "fred_UNRATE_metadata"
                := CMetadata {| units := Some "Percent"; frequency := Some "Monthly";
                                seasonal_adjustment := None |} ]};
           {[ "date" := CString "2020-02-01"; "fred_UNRATE" := CNumber None;
              "fred_UNRATE_metadata"
                := CMetadata {| units := Some "Percent"; frequency := Some "Monthly";
                                seasonal_adjustment := None |} ]} ].
Proof. vm_compute. reflexivity. Qed.

Lemma dashboard_ids_stay_distinct_witness :
  NoDup (map id (fold_left applyUpdate
                   [Fetched gdpSeries; Removed "cpi";
                    Fetched gdpSeries]
                   [cpiSeries; revisedSeries])).
Proof.
  destruct dashboard_ids_stay_distinct as [_ H]. apply H.
  repeat (apply NoDup_cons; split; [intros H'; repeat (apply elem_of_cons in H' as [H'|H']; [done|]); by apply elem_of_nil in H'|]).
  apply NoDup_nil_2.
Defined.

Lemma addDataset_and_handleRemoveGraph_witness :
  Dashboard.addDataset gdpSeries [cpiSeries; gdpSeries] = [cpiSeries; gdpSeries] /\
  Dashboard.addDataset revisedSeries [cpiSeries; gdpSeries]
  = [cpiSeries; gdpSeries] ++ [revisedSeries] /\
  Dashboard.handleRemoveGraph "rate" (Dashboard.addDataset revisedSeries [cpiSeries; gdpSeries])
  = [cpiSeries; gdpSeries] /\
  Dashboard.handleRemoveGraph "rate" [cpiSeries; gdpSeries] = [cpiSeries; gdpSeries].
Proof.
  destruct addDataset_and_handleRemoveGraph as (H1 & H2 & _ & _ & H3).
  assert (Hin : id gdpSeries ∈ map id [cpiSeries; gdpSeries]).
  { right. left. }
  assert (Hout : id revisedSeries ∉ map id [cpiSeries; gdpSeries]).
  { intros H'. repeat (apply elem_of_cons in H' as [H'|H']; [done|]).
    by apply elem_of_nil in H'. }
  split; [exact (H1 gdpSeries _ Hin)|].
  split; [exact (proj1 (H2 revisedSeries _ Hout))|].
  split; [exact (proj2 (H2 revisedSeries _ Hout))|].
  exact (H3 "rate" _ Hout).
Defined.

(** ** Layers of configuration *)

Section ConfigLayers.

Implicit Types (d u : JSObject) (k : string).

Lemma mergeConfig_margin d u :
  mergeConfig d (Some u) !! "margin"
  = Some (VObject (spread (u !! "margin") ∪ spread (d !! "margin"))).
Proof. unfold mergeConfig. apply lookup_insert_eq. Qed.

(** X22. Overrides in layers.  Merging an override and then a second one is
    merging the merge of the two; merging the same override twice is merging
    it once; the empty override leaves a configuration with margins, and so
    each default configuration, as it is; and the merged configuration has
    the properties of both, and [margin]. *)
Theorem mergeConfig_layers :
  (forall d u1 u2,
     mergeConfig (mergeConfig d (Some u1)) (Some u2)
     = mergeConfig d (Some (mergeConfig u1 (Some u2)))) /\
  (forall d u, mergeConfig (mergeConfig d (Some u)) (Some u) = mergeConfig d (Some u)) /\
  (forall d m, d !! "margin" = Some (VObject m) -> mergeConfig d (Some ∅) = d) /\
  (forall t, resolveConfig t (Some ∅) = getDefaultConfig t) /\
  (forall d u, dom (mergeConfig d (Some u)) = {[ "margin" ]} ∪ dom u ∪ dom d).
Proof.
  assert (Hassoc : forall d u1 u2,
     mergeConfig (mergeConfig d (Some u1)) (Some u2)
     = mergeConfig d (Some (mergeConfig u1 (Some u2)))).
  { intros d u1 u2. apply map_eq. intros k.
    destruct (decide (k = "margin")) as [->|Hk].
    - rewrite !mergeConfig_margin. cbn [spread]. by rewrite (assoc_L (∪)).
    - rewrite !mergeConfig_lookup by done.
      by destruct (u2 !! k), (u1 !! k). }
  assert (Hempty : forall d m, d !! "margin" = Some (VObject m) -> mergeConfig d (Some ∅) = d).
  { intros d m Hm. apply map_eq. intros k.
    destruct (decide (k = "margin")) as [->|Hk].
    - rewrite mergeConfig_margin, Hm, lookup_empty. cbn [spread].
      by rewrite (left_id_L ∅ (∪)).
    - rewrite mergeConfig_lookup by done. by rewrite lookup_empty. }
  split; [exact Hassoc|]. split; [|split; [exact Hempty|split]].
  - intros d u. apply map_eq. intros k.
    destruct (decide (k = "margin")) as [->|Hk].
    + rewrite !mergeConfig_margin. cbn [spread].
      by rewrite (assoc_L (∪)), (idemp_L (∪)).
    + rewrite !mergeConfig_lookup by done. by destruct (u !! k).
  - intros t. unfold resolveConfig.
    destruct (getDefaultConfig_cases t) as [-> | [-> | ->]];
      by apply (Hempty _ DEFAULT_MARGIN).
  - intros d u. unfold mergeConfig. rewrite dom_insert_L, dom_union_L. set_solver.
Qed.

Lemma mergeConfig_layers_witness :
  mergeConfig DEFAULT_BAR_CHART_CONFIG (Some ∅) = DEFAULT_BAR_CHART_CONFIG.
Proof.
  destruct mergeConfig_layers as (_ & _ & H & _).
  apply (H DEFAULT_BAR_CHART_CONFIG DEFAULT_MARGIN). reflexivity.
Defined.

End ConfigLayers.
